(** * generator-map: the tile-map editor of [src/ts/map.ts]

    A shallow embedding of the [Map] class: the grid of tile elements, the
    selection, the clipboard, the undo/redo history and the JSON
    import/export, followed by the properties of these operations. *)

From Stdlib Require Import ZArith String Ascii Decimal DecimalString DecimalPos DecimalZ Lia.
From stdpp Require Import base tactics option list sorting.

Local Open Scope string_scope.
Local Open Scope list_scope.
Local Open Scope Z_scope.

(** ** The JavaScript values the editor computes with *)

Module JS.

(** A JS number holding an integer, or [NaN] ([None]). *)
Definition number : Type := option Z.

(** [n.toString()] and the [${n}] of a template string, for an integer. *)
Definition toString (z : Z) : string := NilZero.string_of_int (Z.to_int z).

Definition number_toString (n : number) : string :=
  match n with
  | Some z => toString z
  | None => "NaN"
  end.

(** [parseInt(s)].  The editor only parses the [data-row] and [data-col]
    attributes, which [init] writes with [toString]; the model reads a
    plain decimal numeral, with an optional minus sign, and yields [NaN]
    on every other string. *)
Definition parseInt (s : string) : number :=
  Z.of_int <$> NilZero.int_of_string s.

Definition add (a b : number) : number :=
  match a, b with
  | Some x, Some y => Some (x + y)
  | _, _ => None
  end.

Definition sub (a b : number) : number :=
  match a, b with
  | Some x, Some y => Some (x - y)
  | _, _ => None
  end.

(** Comparisons: every comparison with [NaN] is false. *)
Definition lt (a b : number) : bool :=
  match a, b with
  | Some x, Some y => x <? y
  | _, _ => false
  end.

Definition gt (a b : number) : bool := lt b a.

Definition ge (a b : number) : bool :=
  match a, b with
  | Some x, Some y => y <=? x
  | _, _ => false
  end.

(** [l.slice(0, e)]: a negative end counts from the end of the array. *)
Definition slice0 {A} (l : list A) (e : Z) : list A :=
  let len := Z.of_nat (length l) in
  let k := if e <? 0 then Z.max (len + e) 0 else Z.min e len in
  take (Z.to_nat k) l.

(** [l[i]]: [undefined] ([None]) outside the array. *)
Definition index {A} (l : list A) (i : Z) : option A :=
  if i <? 0 then None else l !! Z.to_nat i.

End JS.

(** ** The part of the DOM the editor touches *)

Module DOM.

(** A [div.tile] element: its two data attributes, the two properties of
    its inline style that the editor assigns, and whether its class list
    holds ["selected"]. *)
Record Tile : Type := mkTile {
  data_col : string;
  data_row : string;
  style_background : string;
  style_backgroundPosition : string;
  classList_selected : bool
}.

(** [tile.style.background = v].  [background] is a shorthand: assigning it
    resets the longhand [background-position], which then reads back as
    the keyword [initial].  The model keeps the assigned text as the value
    of the shorthand. *)
Definition set_background (v : string) (t : Tile) : Tile :=
  {| data_col := data_col t;
     data_row := data_row t;
     style_background := v;
     style_backgroundPosition := if String.eqb v "" then "" else "initial";
     classList_selected := classList_selected t |}.

(** [tile.style.backgroundPosition = v].  The style keeps a position in
    pixels as it is written, and so the positions of the palette, the only
    ones [drawMap] receives; it keeps the empty text, which unsets the
    property, and the keyword [initial].  The clipboard and the history hand
    back texts that were read from a style.  Any other text can only come
    from a file, and the properties of the import name the positions they
    hold for. *)
Definition set_backgroundPosition (v : string) (t : Tile) : Tile :=
  {| data_col := data_col t;
     data_row := data_row t;
     style_background := style_background t;
     style_backgroundPosition := v;
     classList_selected := classList_selected t |}.

(** [tile.classList.add("selected")] and [tile.classList.remove("selected")]. *)
Definition set_selected (b : bool) (t : Tile) : Tile :=
  {| data_col := data_col t;
     data_row := data_row t;
     style_background := style_background t;
     style_backgroundPosition := style_backgroundPosition t;
     classList_selected := b |}.

(** [getComputedStyle(tile).backgroundPosition]: the initial value
    ["0% 0%"] when the inline style sets no position, and the position of
    the inline style when it is one in pixels, as those of the palette
    are. *)
Definition computed_backgroundPosition (t : Tile) : string :=
  let p := style_backgroundPosition t in
  if String.eqb p "" || String.eqb p "initial" then "0% 0%" else p.

(** An element reference: the position of the tile in document order.
    Tiles are created once and never removed, so the position identifies
    the element. *)
Abbreviation HTMLDivElement := nat (only parsing).

#[global] Instance Tile_inhabited : Inhabited Tile :=
  populate (mkTile "" "" "" "" false).

(** A text stands for itself between the double quotes of an attribute
    selector when it holds no double quote (34), no backslash (92) and no
    line break (10, 12, 13); the decimal numerals that [init] writes to the
    attributes are such texts. *)
Definition verbatim (s : string) : bool :=
  forallb (λ a, negb (bool_decide (nat_of_ascii a ∈ [34; 92; 10; 12; 13]%nat)))
          (list_ascii_of_string s).

(** The selectors [.tile[data-col="c"][data-row="r"]] and
    [div[data-col="c"][data-row="r"]], for texts [c] and [r] that stand for
    themselves between the quotes: only tiles carry these attributes. *)
Definition matches (col row : string) (t : Tile) : bool :=
  String.eqb (data_col t) col && String.eqb (data_row t) row.

(** [document.querySelector]: the first matching element, or [null]. *)
Definition querySelector (col row : string) (ts : list Tile) : option HTMLDivElement :=
  fst <$> list_find (λ t, matches col row t = true) ts.

(** [array.includes(tile)] on an array of element references. *)
Definition includes (i : HTMLDivElement) (l : list HTMLDivElement) : bool :=
  bool_decide (i ∈ l).

End DOM.

Import JS DOM.

(** ** The editor *)

(** A position in pixels.  Positions are only compared with each other
    and with the bounds of tiles, and are taken as integers. *)
Record Position2D : Type := mkPosition { x : Z; y : Z }.

(** The rectangle a tile or a drag covers, relative to the map container. *)
Record Bounds : Type := mkBounds {
  b_left : Z; b_right : Z; b_top : Z; b_bottom : Z
}.

(** The record [{ row, col, bg, bgPos }] of the clipboard and of a history
    snapshot. *)
Record TileData : Type := mkTileData {
  row : number;
  col : number;
  bg : string;
  bgPos : string
}.

(** [ExportTile] of [types/index.d.ts]. *)
Record ExportTile : Type := mkExportTile {
  id : nat;
  bgPosition : string;
  e_col : string;
  e_row : string
}.

(** A keyboard event, as far as the handlers read it. *)
Record KeyboardEvent : Type := mkKey {
  key : string; metaKey : bool; ctrlKey : bool; shiftKey : bool
}.

(** The mutable fields of the [Map] instance together with the tiles of the
    document.  The selection indicator, the context menu and the file
    input only concern the presentation and are left out. *)
Record Map : Type := mkMap {
  tiles : list Tile;
  selectedTiles : list HTMLDivElement;
  mouseDown : bool;
  ctrlDown : bool;
  mousePosition : Position2D;
  dragStartPosition : option Position2D;
  dragEndPosition : option Position2D;
  isAutoEnabled : bool;
  coppiedTiles : list HTMLDivElement;
  tileUnderCoursor : option HTMLDivElement;
  beforePasteState : list HTMLDivElement;
  coppiedTileData : list TileData;
  history : list (list TileData);
  currentHistoryIndex : Z
}.

(** A call either returns or is aborted by a [TypeError]; both leave a
    state behind. *)
Inductive completion : Type :=
| Returned (m : Map)
| TypeError (m : Map).

(** The state a call leaves behind. *)
Definition state_of (c : completion) : Map :=
  match c with Returned m | TypeError m => m end.

(** Whether the call returned. *)
Definition returned (c : completion) : bool :=
  match c with Returned _ => true | TypeError _ => false end.

(** The next statement runs only if the call before it returned. *)
Definition and_then (c : completion) (k : Map → completion) : completion :=
  match c with
  | Returned m => k m
  | TypeError m => TypeError m
  end.

Notation "c >>> k" := (and_then c k) (at level 50, left associativity).

Definition with_tiles (v : list Tile) (m : Map) : Map :=
  mkMap v (selectedTiles m) (mouseDown m) (ctrlDown m) (mousePosition m)
    (dragStartPosition m) (dragEndPosition m) (isAutoEnabled m) (coppiedTiles m)
    (tileUnderCoursor m) (beforePasteState m) (coppiedTileData m) (history m)
    (currentHistoryIndex m).

Definition with_selectedTiles (v : list HTMLDivElement) (m : Map) : Map :=
  mkMap (tiles m) v (mouseDown m) (ctrlDown m) (mousePosition m)
    (dragStartPosition m) (dragEndPosition m) (isAutoEnabled m) (coppiedTiles m)
    (tileUnderCoursor m) (beforePasteState m) (coppiedTileData m) (history m)
    (currentHistoryIndex m).

Definition with_mouseDown (v : bool) (m : Map) : Map :=
  mkMap (tiles m) (selectedTiles m) v (ctrlDown m) (mousePosition m)
    (dragStartPosition m) (dragEndPosition m) (isAutoEnabled m) (coppiedTiles m)
    (tileUnderCoursor m) (beforePasteState m) (coppiedTileData m) (history m)
    (currentHistoryIndex m).

Definition with_ctrlDown (v : bool) (m : Map) : Map :=
  mkMap (tiles m) (selectedTiles m) (mouseDown m) v (mousePosition m)
    (dragStartPosition m) (dragEndPosition m) (isAutoEnabled m) (coppiedTiles m)
    (tileUnderCoursor m) (beforePasteState m) (coppiedTileData m) (history m)
    (currentHistoryIndex m).

Definition with_mousePosition (v : Position2D) (m : Map) : Map :=
  mkMap (tiles m) (selectedTiles m) (mouseDown m) (ctrlDown m) v
    (dragStartPosition m) (dragEndPosition m) (isAutoEnabled m) (coppiedTiles m)
    (tileUnderCoursor m) (beforePasteState m) (coppiedTileData m) (history m)
    (currentHistoryIndex m).

Definition with_dragStartPosition (v : option Position2D) (m : Map) : Map :=
  mkMap (tiles m) (selectedTiles m) (mouseDown m) (ctrlDown m) (mousePosition m)
    v (dragEndPosition m) (isAutoEnabled m) (coppiedTiles m)
    (tileUnderCoursor m) (beforePasteState m) (coppiedTileData m) (history m)
    (currentHistoryIndex m).

Definition with_dragEndPosition (v : option Position2D) (m : Map) : Map :=
  mkMap (tiles m) (selectedTiles m) (mouseDown m) (ctrlDown m) (mousePosition m)
    (dragStartPosition m) v (isAutoEnabled m) (coppiedTiles m)
    (tileUnderCoursor m) (beforePasteState m) (coppiedTileData m) (history m)
    (currentHistoryIndex m).

Definition with_isAutoEnabled (v : bool) (m : Map) : Map :=
  mkMap (tiles m) (selectedTiles m) (mouseDown m) (ctrlDown m) (mousePosition m)
    (dragStartPosition m) (dragEndPosition m) v (coppiedTiles m)
    (tileUnderCoursor m) (beforePasteState m) (coppiedTileData m) (history m)
    (currentHistoryIndex m).

Definition with_coppiedTiles (v : list HTMLDivElement) (m : Map) : Map :=
  mkMap (tiles m) (selectedTiles m) (mouseDown m) (ctrlDown m) (mousePosition m)
    (dragStartPosition m) (dragEndPosition m) (isAutoEnabled m) v
    (tileUnderCoursor m) (beforePasteState m) (coppiedTileData m) (history m)
    (currentHistoryIndex m).

Definition with_tileUnderCoursor (v : option HTMLDivElement) (m : Map) : Map :=
  mkMap (tiles m) (selectedTiles m) (mouseDown m) (ctrlDown m) (mousePosition m)
    (dragStartPosition m) (dragEndPosition m) (isAutoEnabled m) (coppiedTiles m)
    v (beforePasteState m) (coppiedTileData m) (history m)
    (currentHistoryIndex m).

Definition with_coppiedTileData (v : list TileData) (m : Map) : Map :=
  mkMap (tiles m) (selectedTiles m) (mouseDown m) (ctrlDown m) (mousePosition m)
    (dragStartPosition m) (dragEndPosition m) (isAutoEnabled m) (coppiedTiles m)
    (tileUnderCoursor m) (beforePasteState m) v (history m)
    (currentHistoryIndex m).

Definition with_history (v : list (list TileData)) (m : Map) : Map :=
  mkMap (tiles m) (selectedTiles m) (mouseDown m) (ctrlDown m) (mousePosition m)
    (dragStartPosition m) (dragEndPosition m) (isAutoEnabled m) (coppiedTiles m)
    (tileUnderCoursor m) (beforePasteState m) (coppiedTileData m) v
    (currentHistoryIndex m).

Definition with_currentHistoryIndex (v : Z) (m : Map) : Map :=
  mkMap (tiles m) (selectedTiles m) (mouseDown m) (ctrlDown m) (mousePosition m)
    (dragStartPosition m) (dragEndPosition m) (isAutoEnabled m) (coppiedTiles m)
    (tileUnderCoursor m) (beforePasteState m) (coppiedTileData m) (history m) v.

(** [element.prop = ...] on the element behind a reference. *)
Definition update (i : HTMLDivElement) (f : Tile → Tile) (m : Map) : Map :=
  with_tiles (alter f i (tiles m)) m.

(** The element behind a reference. *)
Definition element (m : Map) (i : HTMLDivElement) : Tile := tiles m !!! i.

(** The literal [{ row, col, bg, bgPos }] built from a tile in
    [copySelected] and [addToHistory]. *)
Definition tileData (t : Tile) : TileData :=
  {| row := parseInt (data_row t);
     col := parseInt (data_col t);
     bg := style_background t;
     bgPos := style_backgroundPosition t |}.

(** The comparator of the [sort] in [drawMap]. *)
Definition compareTiles (a b : Tile) : Z :=
  let rowA := parseInt (data_row a) in
  let colA := parseInt (data_col a) in
  let rowB := parseInt (data_row b) in
  let colB := parseInt (data_col b) in
  if lt rowA rowB then -1
  else if gt rowA rowB then 1
  else if lt colA colB then -1
  else if gt colA colB then 1
  else 0.

(** [Array.prototype.sort] is stable: an element is placed before the first
    one that does not compare smaller than it. *)
Fixpoint sort_insert (ts : list Tile) (a : HTMLDivElement) (l : list HTMLDivElement)
  : list HTMLDivElement :=
  match l with
  | [] => [a]
  | b :: l' =>
      if compareTiles (ts !!! a) (ts !!! b) <=? 0 then a :: b :: l'
      else b :: sort_insert ts a l'
  end.

Definition sort (ts : list Tile) (l : list HTMLDivElement) : list HTMLDivElement :=
  foldr (sort_insert ts) [] l.

(** A layout of square tiles of [size] pixels, [cols] to a row, for the
    examples. *)
Definition squareLayout (size : Z) (cols : nat) (tile : HTMLDivElement) : Bounds :=
  let c := Z.of_nat tile mod Z.of_nat cols in
  let r := Z.of_nat tile / Z.of_nat cols in
  {| b_left := size * c;
     b_right := size * c + size;
     b_top := size * r;
     b_bottom := size * r + size |}.

Section Editor.

(** [mapColsCount] and [mapRowsCount] are 100 and 50 in the source. *)
Variable mapColsCount mapRowsCount : nat.

(** The URL of the sprite sheet, which the bundler supplies. *)
Variable sprites : string.

(** [tilePosition] of [selectTiles]: the bounding rectangle of a tile
    relative to the map, which the style sheet decides. *)
Variable tilePosition : HTMLDivElement → Bounds.

Definition spritesColsCount : nat := 16.
Definition spritesRowsCount : nat := 40.
Definition spriteBorderSize : Z := 1.
Definition spriteSize : Z := 47.

(** The position text of the palette entry in row [i] and column [j]. *)
Definition spritePosition (i j : nat) : string :=
  ("-" ++ toString (spriteBorderSize * (Z.of_nat j + 1) + spriteSize * Z.of_nat j)
   ++ "px -"
   ++ toString (spriteBorderSize * (Z.of_nat i + 1) + spriteSize * Z.of_nat i)
   ++ "px")%string.

Definition spritesUrl : string := ("url(" ++ sprites ++ ")")%string.

(** The tile [init] creates in row [i] and column [j]. *)
Definition createTile (i j : nat) : Tile :=
  {| data_col := toString (Z.of_nat j);
     data_row := toString (Z.of_nat i);
     style_background := "";
     style_backgroundPosition := "";
     classList_selected := false |}.

(** The tiles in document order: the two nested loops of [init]. *)
Definition init_tiles : list Tile :=
  flat_map (λ i, createTile i <$> seq 0 mapColsCount) (seq 0 mapRowsCount).

(** The state after the constructor. *)
Definition init : Map :=
  {| tiles := init_tiles;
     selectedTiles := [];
     mouseDown := false;
     ctrlDown := false;
     mousePosition := mkPosition 0 0;
     dragStartPosition := None;
     dragEndPosition := None;
     isAutoEnabled := false;
     coppiedTiles := [];
     tileUnderCoursor := None;
     beforePasteState := [];
     coppiedTileData := [];
     history := [];
     currentHistoryIndex := 0 |}.

(** *** History *)

Definition addToHistory (m : Map) : Map :=
  let m1 := with_history (slice0 (history m) (currentHistoryIndex m + 1)) m in
  let tilesState := tileData <$> tiles m1 in
  let m2 := with_history (history m1 ++ [tilesState]) m1 in
  with_currentHistoryIndex (Z.of_nat (length (history m2)) - 1) m2.

(** The body of the [forEach] in [restoreFromHistory]. *)
Definition restoreTile (m : Map) (data : TileData) : Map :=
  match querySelector (number_toString (col data)) (number_toString (row data)) (tiles m) with
  | Some tile =>
      update tile (set_backgroundPosition (bgPos data))
        (update tile (set_background (bg data)) m)
  | None => m
  end.

Definition restoreFromHistory (i : Z) (m : Map) : completion :=
  match index (history m) i with
  | None => TypeError m
  | Some state => Returned (foldl restoreTile m state)
  end.

Definition undo (m : Map) : completion :=
  if currentHistoryIndex m <=? 0 then Returned m
  else
    let m1 := with_currentHistoryIndex (currentHistoryIndex m - 1) m in
    restoreFromHistory (currentHistoryIndex m1) m1.

Definition redo (m : Map) : completion :=
  if Z.of_nat (length (history m)) - 1 <=? currentHistoryIndex m then Returned m
  else
    let m1 := with_currentHistoryIndex (currentHistoryIndex m + 1) m in
    restoreFromHistory (currentHistoryIndex m1) m1.

(** *** Selection *)

Definition intersects (t s : Bounds) : bool :=
  (b_left t <? b_right s) && (b_left s <? b_right t)
  && (b_top t <? b_bottom s) && (b_top s <? b_bottom t).

(** The body of the [forEach] in [selectTiles]. *)
Definition selectTile (selecting : bool) (selectionBounds : Bounds)
    (m : Map) (tile : HTMLDivElement) : Map :=
  let m1 :=
    if negb (includes tile (selectedTiles m)) && classList_selected (element m tile)
    then update tile (set_selected false) m
    else m in
  if intersects (tilePosition tile) selectionBounds then
    let m2 := update tile (set_selected true) m1 in
    if selecting then m2 else with_selectedTiles (selectedTiles m2 ++ [tile]) m2
  else m1.

(** The rectangle between the start and the end of a drag. *)
Definition selectionBounds (s e : Position2D) : Bounds :=
  {| b_left := Z.min (x s) (x e);
     b_right := Z.max (x s) (x e);
     b_top := Z.min (y s) (y e);
     b_bottom := Z.max (y s) (y e) |}.

Definition selectTiles (selecting : bool) (m : Map) : Map :=
  let m1 := if selecting then with_dragEndPosition (Some (mousePosition m)) m else m in
  match dragStartPosition m1, dragEndPosition m1 with
  | Some s, Some e =>
      let m2 := if ctrlDown m1 then m1 else with_selectedTiles [] m1 in
      foldl (selectTile selecting (selectionBounds s e)) m2 (seq 0 (length (tiles m2)))
  | _, _ => m1
  end.

(** The [mousemove] handler of the map, with the pointer at [p]. *)
Definition mousemove (p : Position2D) (m : Map) : completion :=
  let m1 := with_mousePosition p m in
  if mouseDown m1 then
    match dragStartPosition m1 with
    | None => TypeError m1
    | Some _ => Returned (selectTiles true m1)
    end
  else Returned m1.

(** [document.querySelectorAll(".selected")]: the tiles that carry the
    marker, in document order. *)
Definition querySelectorAll_selected (m : Map) : list HTMLDivElement :=
  filter (λ tile, classList_selected (element m tile) = true)
         (seq 0 (length (tiles m))).

(** The body of the [forEach] in the [mousedown] handler. *)
Definition unmarkTile (m : Map) (tile : HTMLDivElement) : Map :=
  if negb (includes tile (selectedTiles m)) && classList_selected (element m tile)
  then update tile (set_selected false) m
  else m.

(** The [mousedown] handler of the map. *)
Definition mousedown (m : Map) : Map :=
  let m1 := foldl unmarkTile m (querySelectorAll_selected m) in
  let m2 := if ctrlDown m1 then m1 else with_selectedTiles [] m1 in
  with_mouseDown true (with_dragStartPosition (Some (mousePosition m2)) m2).

(** The [mouseup] handler of the map. *)
Definition mouseup (m : Map) : Map :=
  selectTiles false
    (with_mouseDown false (with_dragEndPosition (Some (mousePosition m)) m)).

(** The [mouseover] handler of the tile [tile]. *)
Definition mouseover (tile : HTMLDivElement) (m : Map) : Map :=
  let m1 := with_tileUnderCoursor (Some tile) m in
  if (length (beforePasteState m1) =? 0)%nat then m1
  else
    let t := element m1 tile in
    match
      list_find (λ r, matches (data_col t) (data_row t) (element m1 r) = true)
        (beforePasteState m1)
    with
    | Some (_, matchingTile) =>
        update tile (set_background (style_background (element m1 matchingTile))) m1
    | None => m1
    end.

(** The [change] handler of the auto-advance checkbox. *)
Definition autoCheckbox_change (checked : bool) (m : Map) : Map :=
  with_isAutoEnabled checked m.

(** *** Drawing *)

Definition selectNextTile (m : Map) : completion :=
  match last (selectedTiles m) with
  | None => TypeError m
  | Some lastTile =>
      let c := parseInt (data_col (element m lastTile)) in
      let r := parseInt (data_row (element m lastTile)) in
      let newTile :=
        if ge c (Some (Z.of_nat mapColsCount - 1))
        then querySelector "0" (number_toString (add r (Some 1))) (tiles m)
        else querySelector (number_toString (add c (Some 1))) (number_toString r) (tiles m) in
      let m1 := with_selectedTiles [] m in
      if negb (ge c (Some (Z.of_nat mapColsCount - 1))
               && ge r (Some (Z.of_nat mapRowsCount - 1)))
      then
        match newTile with
        | None => TypeError m1
        | Some n =>
            let m2 := update n (set_selected true) m1 in
            Returned (with_selectedTiles (selectedTiles m2 ++ [n]) m2)
        end
      else Returned m1
  end.

(** The body of the [forEach] in [drawMap]. *)
Definition drawTile (sprite : string) (m : Map) (tile : HTMLDivElement) : Map :=
  update tile (set_selected false)
    (update tile (set_backgroundPosition sprite)
       (update tile (set_background spritesUrl) m)).

Definition drawMap (sprite : string) (m : Map) : completion :=
  if (Z.of_nat (length (selectedTiles m)) <=? 0) then Returned m
  else
    let m1 := with_selectedTiles (sort (tiles m) (selectedTiles m)) m in
    let m2 := foldl (drawTile sprite) m1 (selectedTiles m1) in
    (if isAutoEnabled m2 then selectNextTile m2
     else Returned (with_selectedTiles [] m2))
    >>> λ m3, Returned (addToHistory m3).

(** *** Export and import *)

Definition createMapJSON (m : Map) : list ExportTile :=
  imap (λ index tile,
          {| id := index;
             bgPosition := computed_backgroundPosition tile;
             e_col := data_col tile;
             e_row := data_row tile |})
       (tiles m).

(** The body of the [forEach] in the [onload] callback, for a record whose
    column and row stand for themselves in the selector ([verbatim]).  A
    text with a double quote, a backslash or a line break spells another
    selector, which the browser may refuse; the properties that say what
    the import does to the tiles are stated for files without such texts. *)
Definition loadTile (m : Map) (tileData : ExportTile) : Map :=
  match querySelector (e_col tileData) (e_row tileData) (tiles m) with
  | Some tile =>
      if negb (String.eqb (bgPosition tileData) "0% 0%") then
        update tile (set_backgroundPosition (bgPosition tileData))
          (update tile (set_background spritesUrl) m)
      else m
  | None => m
  end.

(** The [onload] callback of [loadMapFromFile], applied to the parsed
    content of the file, an array of records. *)
Definition loadMapFromFile (mapData : list ExportTile) (m : Map) : Map :=
  foldl loadTile m mapData.

(** *** Clipboard *)

Definition copySelected (m : Map) : Map :=
  let m1 := with_coppiedTiles (selectedTiles m) m in
  let m2 := with_coppiedTileData ((λ tile, tileData (element m1 tile)) <$> selectedTiles m1) m1 in
  foldl (λ m tile, update tile (set_selected false) m) m2 (coppiedTiles m2).

Definition cutSelected (m : Map) : Map :=
  let m1 := copySelected m in
  let m2 := foldl (λ m tile, update tile (set_background "transparent") m) m1 (selectedTiles m1) in
  addToHistory m2.

(** The body of the [forEach] in [paste]. *)
Definition pasteTile (anchorRow anchorCol refRow refCol : number)
    (m : Map) (data : TileData) : Map :=
  let rd := sub (row data) refRow in
  let cd := sub (col data) refCol in
  let targetRow := add anchorRow rd in
  let targetCol := add anchorCol cd in
  match querySelector (number_toString targetCol) (number_toString targetRow) (tiles m) with
  | Some targetTile =>
      update targetTile (set_backgroundPosition (bgPos data))
        (update targetTile (set_background (bg data)) m)
  | None => m
  end.

Definition paste (m : Map) : Map :=
  match coppiedTileData m with
  | [] => m
  | first :: _ =>
      match tileUnderCoursor m with
      | None => m
      | Some anchorTile =>
          let anchorRow := parseInt (data_row (element m anchorTile)) in
          let anchorCol := parseInt (data_col (element m anchorTile)) in
          let refRow := row first in
          let refCol := col first in
          addToHistory
            (foldl (pasteTile anchorRow anchorCol refRow refCol) m (coppiedTileData m))
      end
  end.

(** *** Keyboard *)

(** The [Delete] branch of the [keydown] handler. *)
Definition deleteSelected (m : Map) : Map :=
  let m1 :=
    foldl (λ m tile, update tile (set_selected false)
                       (update tile (set_background "transparent") m))
          m (selectedTiles m) in
  addToHistory (with_selectedTiles [] m1).

Definition keydown (e : KeyboardEvent) (m : Map) : completion :=
  let modifier := metaKey e || ctrlKey e in
  if String.eqb (key e) "Delete" then Returned (deleteSelected m)
  else if modifier && String.eqb (key e) "c" then Returned (copySelected m)
  else if modifier && String.eqb (key e) "x" then Returned (cutSelected m)
  else if modifier && String.eqb (key e) "v" then Returned (paste m)
  else if modifier && (String.eqb (key e) "z" || String.eqb (key e) "Z") then
    if shiftKey e then redo m else undo m
  else if modifier then Returned (with_ctrlDown true m)
  else Returned m.

Definition keyup (e : KeyboardEvent) (m : Map) : Map :=
  if negb (metaKey e) || negb (ctrlKey e) then with_ctrlDown false m else m.

(** *** Pointer gestures *)

(** A press and release of the pointer at [p]. *)
Definition click (p : Position2D) (m : Map) : completion :=
  mousemove p m >>> λ m1, Returned (mouseup (mousedown m1)).

(** A drag of the pointer from [p] to [q]. *)
Definition drag (p q : Position2D) (m : Map) : completion :=
  mousemove p m >>> λ m1, mousemove q (mousedown m1) >>> λ m2, Returned (mouseup m2).

(** Moves of the pointer to the positions of [path], one after the other. *)
Fixpoint moves (path : list Position2D) (m : Map) : completion :=
  match path with
  | [] => Returned m
  | p :: path' => mousemove p m >>> moves path'
  end.

(** A drag of the pointer from [p] to [q] that passes the positions of
    [path]. *)
Definition drag_via (p : Position2D) (path : list Position2D) (q : Position2D)
    (m : Map) : completion :=
  mousemove p m >>> λ m1, moves (path ++ [q]) (mousedown m1) >>> λ m2, Returned (mouseup m2).

(** *** The palette *)

(** The position texts of the palette entries in document order: the first
    pair of nested loops of [init]. *)
Definition palette : list string :=
  flat_map (λ i, spritePosition i <$> seq 0 spritesColsCount) (seq 0 spritesRowsCount).

(** The [onclick] of the palette entry in row [i] and column [j]. *)
Definition sprite_onclick (i j : nat) (m : Map) : completion :=
  drawMap (spritePosition i j) m.

(** *** Events *)

(** The events [init] and [bindEvents] attach a handler to, as far as the
    handler reads or writes the state of the editor.  [Mouseover i j] is
    the listener of the tile that [init] creates in row [i] and column [j],
    [SpriteClick i j] the [onclick] of the palette entry in row [i] and
    column [j], and [FileLoad mapData] the [onload] of the file reader, with
    the parsed content of the file.  The handlers of the context menu read
    the state and write to the menu only. *)
Inductive Event : Type :=
| Mousemove (p : Position2D)
| Mousedown
| Mouseup
| Mouseover (i j : nat)
| AutoCheckboxChange (checked : bool)
| Keydown (e : KeyboardEvent)
| Keyup (e : KeyboardEvent)
| SpriteClick (i j : nat)
| FileLoad (mapData : list ExportTile).

(** An event can only occur on an element that exists. *)
Definition enabled (ev : Event) : Prop :=
  match ev with
  | Mouseover i j => (i < mapRowsCount)%nat ∧ (j < mapColsCount)%nat
  | SpriteClick i j => (i < spritesRowsCount)%nat ∧ (j < spritesColsCount)%nat
  | _ => True
  end.

Definition handle (ev : Event) (m : Map) : completion :=
  match ev with
  | Mousemove p => mousemove p m
  | Mousedown => Returned (mousedown m)
  | Mouseup => Returned (mouseup m)
  | Mouseover i j => Returned (mouseover (i * mapColsCount + j)%nat m)
  | AutoCheckboxChange checked => Returned (autoCheckbox_change checked m)
  | Keydown e => keydown e m
  | Keyup e => Returned (keyup e m)
  | SpriteClick i j => sprite_onclick i j m
  | FileLoad mapData => Returned (loadMapFromFile mapData m)
  end.

(** The states of the editor: the state after the constructor, and the
    state every handler leaves behind. *)
Inductive reachable : Map → Prop :=
| reachable_init : reachable init
| reachable_handle ev m :
    reachable m → enabled ev → reachable (state_of (handle ev m)).

(** Several sprites drawn one after the other. *)
Fixpoint draw_all (l : list string) (m : Map) : completion :=
  match l with
  | [] => Returned m
  | sprite :: l' => drawMap sprite m >>> draw_all l'
  end.

(** *** Vocabulary of the properties *)

(** The two data attributes, which identify the cell of a tile. *)
Definition attributes (t : Tile) : string * string := (data_col t, data_row t).

(** What a sprite assignment leaves alone: the cell and the marker. *)
Definition marker (t : Tile) : string * string * bool :=
  (data_col t, data_row t, classList_selected t).

(** The sprite state of a tile: the two style properties. *)
Definition sprite_of (t : Tile) : string * string :=
  (style_background t, style_backgroundPosition t).

(** The tiles are those of [init], whatever their style and marker. *)
Definition grid (ts : list Tile) : Prop :=
  attributes <$> ts = attributes <$> init_tiles.

(** Every reference of [l] points to a tile. *)
Definition valid (ts : list Tile) (l : list HTMLDivElement) : Prop :=
  Forall (λ i, (i < length ts)%nat) l.

(** The reference of the tile in row [r] and column [c]. *)
Definition cell (r c : nat) : HTMLDivElement := (r * mapColsCount + c)%nat.

(** The fields that are neither tiles nor history. *)
Definition controller (m : Map) :=
  (selectedTiles m, mouseDown m, ctrlDown m, mousePosition m,
   dragStartPosition m, dragEndPosition m, isAutoEnabled m,
   coppiedTiles m, tileUnderCoursor m, beforePasteState m, coppiedTileData m).

(** What the pointer handlers leave alone: the history, the clipboard, the
    settings, and the cell and sprite of every tile. *)
Definition content (m : Map) :=
  (history m, currentHistoryIndex m, ctrlDown m, isAutoEnabled m,
   coppiedTiles m, tileUnderCoursor m, beforePasteState m, coppiedTileData m,
   (λ t, (attributes t, sprite_of t)) <$> tiles m).

(** The cursor is an index of the history whenever there is one. *)
Definition cursor_valid (m : Map) : Prop :=
  history m ≠ [] →
  0 ≤ currentHistoryIndex m ≤ Z.of_nat (length (history m)) - 1.

(** Cut as the specification words it: copy, clear the sprite of every
    tile that was selected, commit one snapshot. *)
Definition clearSprite (m : Map) (tile : HTMLDivElement) : Map :=
  update tile (set_background "transparent") m.

Definition cut_as_specified (m : Map) : Map :=
  let original := selectedTiles m in
  addToHistory (foldl clearSprite (copySelected m) original).

(** The tiles that intersect the rectangle [b], in document order. *)
Definition hit (n : nat) (b : Bounds) : list HTMLDivElement :=
  filter (λ tile, intersects (tilePosition tile) b = true) (seq 0 n).

(** Row-major order of two tiles: by the parsed row, then by the parsed
    column. *)
Definition row_major_le (ts : list Tile) (a b : HTMLDivElement) : Prop :=
  match parseInt (data_row (ts !!! a)), parseInt (data_col (ts !!! a)),
        parseInt (data_row (ts !!! b)), parseInt (data_col (ts !!! b)) with
  | Some ra, Some ca, Some rb, Some cb => ra < rb ∨ (ra = rb ∧ ca ≤ cb)
  | _, _, _, _ => False
  end.

(** The cell that follows the cell in row [r] and column [c] in row-major
    order, if there is one. *)
Definition next_cell (r c : nat) : list HTMLDivElement :=
  if decide (c = mapColsCount - 1)%nat
  then if decide (r = mapRowsCount - 1)%nat then [] else [cell (S r) 0]
  else [cell r (S c)].

(** The reference of the cell at row [r] and column [c], when both are
    numbers inside the grid. *)
Definition cell_at (r c : number) : option HTMLDivElement :=
  match r, c with
  | Some zr, Some zc =>
      if (0 <=? zr) && (zr <? Z.of_nat mapRowsCount)
         && (0 <=? zc) && (zc <? Z.of_nat mapColsCount)
      then Some (cell (Z.to_nat zr) (Z.to_nat zc))
      else None
  | _, _ => None
  end.


(** The sprite a tile has after the clipboard [clip] was pasted: that of
    the last entry with this tile as target, and its own if there is none. *)
Definition pasted_sprite (target : TileData → option HTMLDivElement)
    (clip : list TileData) (tile : HTMLDivElement) (t : Tile) : string * string :=
  match last (filter (λ data, target data = Some tile) clip) with
  | Some data => (bg data, bgPos data)
  | None => sprite_of t
  end.

(** The tile that the import of the exported tile [t] makes of the tile
    [t0]. *)
Definition imported (t t0 : Tile) : Tile :=
  if String.eqb (computed_backgroundPosition t) "0% 0%" then t0
  else set_backgroundPosition (computed_backgroundPosition t)
         (set_background spritesUrl t0).

(** The record that [createMapJSON] emits for the tile [t] at position
    [k] selects the tile at position [k] of every grid. *)
Definition addressed (l : list Tile) : Prop :=
  ∀ (k : nat) t G, l !! k = Some t → grid G →
    querySelector (data_col t) (data_row t) G = Some k.

(** The tile that [restoreFromHistory] makes of the tile [t0] from the
    snapshot of the tile [t]. *)
Definition restored (t t0 : Tile) : Tile :=
  set_backgroundPosition (style_backgroundPosition t)
    (set_background (style_background t) t0).

(** The snapshot of the tile [t] at position [k] selects the tile at
    position [k] of every grid. *)
Definition recorded (l : list Tile) : Prop :=
  ∀ (k : nat) t G, l !! k = Some t → grid G →
    querySelector (number_toString (col (tileData t)))
                  (number_toString (row (tileData t))) G = Some k.

(** Every entry of the history is the snapshot of a grid. *)
Definition snapshots (m : Map) : Prop :=
  Forall (λ state, ∃ G, grid G ∧ state = tileData <$> G) (history m).

(** The tiles are as the history entry at the cursor recorded them. *)
Definition at_cursor (m : Map) : Prop :=
  index (history m) (currentHistoryIndex m) = Some (tileData <$> tiles m).

(** A mutation of the tiles between two commits: it keeps the grid and
    leaves the history and its cursor alone. *)
Definition mutation (f : Map → Map) : Prop :=
  ∀ m, grid (tiles m) →
       grid (tiles (f m))
       ∧ history (f m) = history m
       ∧ currentHistoryIndex (f m) = currentHistoryIndex m.

(** A committed mutation: the mutation, then [addToHistory]. *)
Definition committed (m : Map) (f : Map → Map) : Map := addToHistory (f m).

(** [n] calls of [op] in a row. *)
Fixpoint times (n : nat) (op : Map → completion) (m : Map) : completion :=
  match n with
  | O => Returned m
  | S n' => op m >>> times n' op
  end.

(** The state after commits only, with the cursor on the last entry; the
    first entry is [first]. *)
Definition committed_state (first : list TileData) (m : Map) : Prop :=
  grid (tiles m) ∧ snapshots m ∧ at_cursor m
  ∧ currentHistoryIndex m = Z.of_nat (length (history m)) - 1
  ∧ history m !! 0%nat = Some first.

(** The references of a well-formed state point to tiles of the grid, the
    cursor is inside the history, whose entries are snapshots of the grid,
    and every clipboard entry names a cell. *)
Definition consistent (m : Map) : Prop :=
  grid (tiles m)
  ∧ valid (tiles m) (selectedTiles m)
  ∧ valid (tiles m) (coppiedTiles m)
  ∧ (∀ tile, tileUnderCoursor m = Some tile → (tile < length (tiles m))%nat)
  ∧ beforePasteState m = []
  ∧ (mouseDown m = true → dragStartPosition m ≠ None)
  ∧ 0 ≤ currentHistoryIndex m ≤ Z.max 0 (Z.of_nat (length (history m)) - 1)
  ∧ snapshots m
  ∧ Forall (λ data, is_Some (cell_at (row data) (col data))) (coppiedTileData m).

(** With the button up, every tile that carries the marker is in the
    selection. *)
Definition marked_selected (m : Map) : Prop :=
  mouseDown m = false →
  ∀ tile t, tiles m !! tile = Some t → classList_selected t = true →
            tile ∈ selectedTiles m.

(** The reference that follows [tile] in document order, if there is one. *)
Definition next_index (tile : HTMLDivElement) : list HTMLDivElement :=
  if decide (S tile < mapRowsCount * mapColsCount)%nat then [S tile] else [].

(** What the selection loops read and write: the tiles, the selection and
    the modifier. *)
Definition view (m : Map) : list Tile * list HTMLDivElement * bool :=
  (tiles m, selectedTiles m, ctrlDown m).

(** The tile that [drawMap] makes of a selected tile. *)
Definition drawn (sprite : string) (t : Tile) : Tile :=
  set_selected false (set_backgroundPosition sprite (set_background spritesUrl t)).

(** The tile that the [Delete] key makes of a selected tile. *)
Definition deleted (t : Tile) : Tile :=
  set_selected false (set_background "transparent" t).

(** The tile that the import of the records [mapData] makes of the tile
    [tile], which is [t]: it takes the sprite of the last record that
    selects it and does not carry the sentinel position. *)
Definition loaded (G : list Tile) (mapData : list ExportTile)
    (tile : HTMLDivElement) (t : Tile) : Tile :=
  match last (filter (λ data, bool_decide (querySelector (e_col data) (e_row data) G
                                           = Some tile)
                              && negb (String.eqb (bgPosition data) "0% 0%") = true)
                     mapData) with
  | Some data => set_backgroundPosition (bgPosition data) (set_background spritesUrl t)
  | None => t
  end.

(** A tile without a sprite: as [init] made it, or cleared by a cut or by
    the [Delete] key. *)
Definition empty_tile (t : Tile) : Prop :=
  sprite_of t = ("", "") ∨ sprite_of t = ("transparent", "initial").

(** A tile with a sprite of the palette: it holds the sprite sheet at the
    position of a palette entry, as [drawMap] leaves a tile. *)
Definition sprite_tile (t : Tile) : Prop :=
  style_background t = spritesUrl ∧ style_backgroundPosition t ∈ palette.

(** The tiles the editor makes: without a sprite, or with a sprite of the
    palette. *)
Definition editor_tile (t : Tile) : Prop := empty_tile t ∨ sprite_tile t.

(** A record of the clipboard or of the history with the style of a tile
    the editor makes. *)
Definition editor_data (data : TileData) : Prop :=
  (bg data, bgPos data) = ("", "")
  ∨ (bg data, bgPos data) = ("transparent", "initial")
  ∨ (bg data = spritesUrl ∧ bgPos data ∈ palette).

(** The sprite a tile shows: the position at which it holds the sprite
    sheet, if it holds the sheet. *)
Definition sprite_shown (t : Tile) : option string :=
  if String.eqb (style_background t) spritesUrl
  then Some (style_backgroundPosition t)
  else None.

(** The column and the row of a record stand for themselves in the selector
    that the import builds from them. *)
Definition addressable (data : ExportTile) : Prop :=
  verbatim (e_col data) = true ∧ verbatim (e_row data) = true.

(** A record as the export of the editor writes it: the column and the row
    stand for themselves, and the position is the sentinel or the position
    of a palette entry. *)
Definition sprite_record (data : ExportTile) : Prop :=
  addressable data ∧ (bgPosition data = "0% 0%" ∨ bgPosition data ∈ palette).

(** The records of a loaded file are addressable; every other event is well
    formed. *)
Definition wellformed (ev : Event) : Prop :=
  match ev with
  | FileLoad mapData => Forall addressable mapData
  | _ => True
  end.

(** The records of a loaded file are records of the editor; every other
    event brings no sprite from outside. *)
Definition own_file (ev : Event) : Prop :=
  match ev with
  | FileLoad mapData => Forall sprite_record mapData
  | _ => True
  end.

(** The states of the editor when every file it loads holds records of the
    editor. *)
Inductive authored : Map → Prop :=
| authored_init : authored init
| authored_handle ev m :
    authored m → enabled ev → own_file ev → authored (state_of (handle ev m)).

(** The tiles, the clipboard and the history hold no other sprites than
    those of the palette. *)
Definition own_sprites (m : Map) : Prop :=
  Forall editor_tile (tiles m)
  ∧ Forall editor_data (coppiedTileData m)
  ∧ Forall (Forall editor_data) (history m).



(** The last two statements of [selectNextTile]: the new tile gets the
    marker and is pushed to the selection. *)
Local Abbreviation selectNext :=
  (λ (m' : Map) (n : nat), with_selectedTiles (selectedTiles m' ++ [n])
                             (update n (set_selected true) m')).

(** Case analysis on every test of a handler. *)
Ltac handler_cases :=
  repeat (match goal with |- context [if ?b then _ else _] => destruct b end);
  simpl.

(** * Properties *)

(** ** Records and lists *)

Lemma fmap_alter_same {A B} (f : A → B) (g : A → A) (i : nat) (l : list A) :
  (∀ a, f (g a) = f a) → f <$> alter g i l = f <$> l.
Proof.
  intros Hfg. revert i.
  induction l as [|a l IH]; intros [|i]; csimpl; f_equal; auto.
Qed.

Lemma update_tiles i f m : tiles (update i f m) = alter f i (tiles m).
Proof. reflexivity. Qed.

Lemma update_history i f m : history (update i f m) = history m.
Proof. reflexivity. Qed.

Lemma update_index i f m :
  currentHistoryIndex (update i f m) = currentHistoryIndex m.
Proof. reflexivity. Qed.

Lemma update_controller i f m : controller (update i f m) = controller m.
Proof. reflexivity. Qed.

(** A loop whose body keeps a projection of the state keeps it. *)
Lemma foldl_keeps {A B} (p : Map → A) (step : Map → B → Map) (l : list B) (m : Map) :
  (∀ m b, p (step m b) = p m) → p (foldl step m l) = p m.
Proof.
  intros Hstep. revert m.
  induction l as [|b l IH]; intros m; simpl; [done|].
  by rewrite IH, Hstep.
Qed.

(** ** Undo and redo change the cursor and the sprites only (C10) *)

Lemma restoreTile_marker m d :
  marker <$> tiles (restoreTile m d) = marker <$> tiles m.
Proof.
  unfold restoreTile. destruct (querySelector _ _ _) as [tile|]; [|done].
  rewrite !update_tiles, !fmap_alter_same; done.
Qed.

Lemma restoreTile_history m d : history (restoreTile m d) = history m.
Proof. unfold restoreTile. by destruct (querySelector _ _ _). Qed.

Lemma restoreTile_index m d :
  currentHistoryIndex (restoreTile m d) = currentHistoryIndex m.
Proof. unfold restoreTile. by destruct (querySelector _ _ _). Qed.

Lemma restoreTile_controller m d : controller (restoreTile m d) = controller m.
Proof. unfold restoreTile. by destruct (querySelector _ _ _). Qed.

Lemma restoreFromHistory_frame i m :
  let m' := state_of (restoreFromHistory i m) in
  history m' = history m
  ∧ currentHistoryIndex m' = currentHistoryIndex m
  ∧ controller m' = controller m
  ∧ marker <$> tiles m' = marker <$> tiles m.
Proof.
  unfold restoreFromHistory. destruct (index (history m) i) as [state|]; simpl; [|done].
  split_and!.
  - apply (foldl_keeps history), restoreTile_history.
  - apply (foldl_keeps currentHistoryIndex), restoreTile_index.
  - apply (foldl_keeps controller), restoreTile_controller.
  - apply (foldl_keeps (λ m, marker <$> tiles m)), restoreTile_marker.
Qed.

(** C10: [undo] and [redo] leave the history stack, the clipboard and
    every other field of the editor as they are, and on the tiles they
    leave the cell attributes and the selected marker as they are: only the
    cursor and the style of the tiles can differ afterwards, whether the
    call returns or is aborted. *)
Theorem undo_redo_frame (m : Map) :
  (history (state_of (undo m)) = history m
   ∧ controller (state_of (undo m)) = controller m
   ∧ marker <$> tiles (state_of (undo m)) = marker <$> tiles m)
  ∧ (history (state_of (redo m)) = history m
     ∧ controller (state_of (redo m)) = controller m
     ∧ marker <$> tiles (state_of (redo m)) = marker <$> tiles m).
Proof.
  split.
  - unfold undo. destruct (currentHistoryIndex m <=? 0); [done|].
    destruct (restoreFromHistory_frame
                (currentHistoryIndex m - 1)
                (with_currentHistoryIndex (currentHistoryIndex m - 1) m))
      as (Hh & _ & Hc & Ht).
    simpl in *. by rewrite Hh, Hc, Ht.
  - unfold redo.
    destruct (Z.of_nat (length (history m)) - 1 <=? currentHistoryIndex m); [done|].
    destruct (restoreFromHistory_frame
                (currentHistoryIndex m + 1)
                (with_currentHistoryIndex (currentHistoryIndex m + 1) m))
      as (Hh & _ & Hc & Ht).
    simpl in *. by rewrite Hh, Hc, Ht.
Qed.

(** ** The history stack and its cursor (C6) *)

Lemma slice0_take {A} (l : list A) (e : Z) :
  0 ≤ e → slice0 l e = take (Z.to_nat e) l.
Proof.
  intros He. unfold slice0.
  destruct (e <? 0) eqn:Hneg; [lia|].
  destruct (decide (e ≤ Z.of_nat (length l))) as [Hle|Hgt].
  - by rewrite Z.min_l.
  - rewrite Z.min_r, Nat2Z.id by lia.
    rewrite !take_ge; [done|lia|lia].
Qed.

Lemma slice0_nil {A} (e : Z) : slice0 (@nil A) e = [].
Proof. unfold slice0. by rewrite take_nil. Qed.

Lemma slice0_length {A} (l : list A) (e : Z) : (length (slice0 l e) ≤ length l)%nat.
Proof. unfold slice0. rewrite length_take. lia. Qed.

Lemma addToHistory_history m :
  history (addToHistory m)
  = slice0 (history m) (currentHistoryIndex m + 1) ++ [tileData <$> tiles m].
Proof. reflexivity. Qed.

Lemma addToHistory_index m :
  currentHistoryIndex (addToHistory m)
  = Z.of_nat (length (history (addToHistory m))) - 1.
Proof. reflexivity. Qed.

Lemma addToHistory_tiles m : tiles (addToHistory m) = tiles m.
Proof. reflexivity. Qed.

Lemma addToHistory_controller m : controller (addToHistory m) = controller m.
Proof. reflexivity. Qed.

Lemma addToHistory_cursor_valid m : cursor_valid (addToHistory m).
Proof.
  intros _. rewrite addToHistory_index, addToHistory_history, length_app. simpl. lia.
Qed.

Lemma init_cursor_valid : cursor_valid init.
Proof. intros H. by destruct H. Qed.

Lemma undo_cursor_valid m : cursor_valid m → cursor_valid (state_of (undo m)).
Proof.
  intros Hm. unfold undo.
  destruct (currentHistoryIndex m <=? 0) eqn:Hle; [done|].
  apply Z.leb_gt in Hle.
  destruct (restoreFromHistory_frame
              (currentHistoryIndex m - 1)
              (with_currentHistoryIndex (currentHistoryIndex m - 1) m))
    as (Hh & Hi & _ & _).
  simpl in *. unfold cursor_valid. rewrite Hh, Hi.
  intros Hne. specialize (Hm Hne). lia.
Qed.

Lemma redo_cursor_valid m : cursor_valid m → cursor_valid (state_of (redo m)).
Proof.
  intros Hm. unfold redo.
  destruct (Z.of_nat (length (history m)) - 1 <=? currentHistoryIndex m) eqn:Hle; [done|].
  apply Z.leb_gt in Hle.
  destruct (restoreFromHistory_frame
              (currentHistoryIndex m + 1)
              (with_currentHistoryIndex (currentHistoryIndex m + 1) m))
    as (Hh & Hi & _ & _).
  simpl in *. unfold cursor_valid. rewrite Hh, Hi.
  intros Hne. specialize (Hm Hne). lia.
Qed.

(** ** Loops that assign to the tiles of a list of references *)

Lemma foldl_update_snoc f (l : list HTMLDivElement) j m :
  foldl (λ m tile, update tile f m) m (l ++ [j])
  = update j f (foldl (λ m tile, update tile f m) m l).
Proof. by rewrite foldl_snoc. Qed.

Lemma foldl_update_tiles f (l : list HTMLDivElement) m :
  tiles (foldl (λ m tile, update tile f m) m l)
  = foldl (λ ts tile, alter f tile ts) (tiles m) l.
Proof. revert m. induction l as [|j l IH]; intros m; simpl; [done|]. by rewrite IH. Qed.

Lemma foldl_update_other f (l : list HTMLDivElement) m i :
  i ∉ l → tiles (foldl (λ m tile, update tile f m) m l) !! i = tiles m !! i.
Proof.
  induction l as [|j l IH] using rev_ind; intros Hi; [done|].
  rewrite foldl_update_snoc, update_tiles.
  rewrite not_elem_of_app, list_elem_of_singleton in Hi. destruct Hi as [Hl Hj].
  rewrite list_lookup_alter_ne by done. auto.
Qed.

Lemma foldl_update_elem (P : Tile → Prop) f (l : list HTMLDivElement) m i t :
  (∀ t, P (f t)) → i ∈ l →
  tiles (foldl (λ m tile, update tile f m) m l) !! i = Some t → P t.
Proof.
  intros Hf. revert t.
  induction l as [|j l IH] using rev_ind; intros t Hi; [by apply elem_of_nil in Hi|].
  rewrite foldl_update_snoc, update_tiles.
  destruct (decide (j = i)) as [->|Hne].
  - rewrite list_lookup_alter_eq.
    intros (t0 & _ & ->)%fmap_Some. apply Hf.
  - rewrite list_lookup_alter_ne by done.
    apply IH. apply elem_of_app in Hi as [Hi|Hi%list_elem_of_singleton]; done.
Qed.

Lemma foldl_update_fmap {B} (p : Tile → B) f (l : list HTMLDivElement) m :
  (∀ t, p (f t) = p t) →
  p <$> tiles (foldl (λ m tile, update tile f m) m l) = p <$> tiles m.
Proof.
  intros Hp. apply (foldl_keeps (λ m, p <$> tiles m)).
  intros m' b. rewrite update_tiles. by apply fmap_alter_same.
Qed.

(** ** Copy and cut (C5) *)

Lemma copySelected_selectedTiles m : selectedTiles (copySelected m) = selectedTiles m.
Proof.
  unfold copySelected. by rewrite (foldl_keeps selectedTiles).
Qed.

Lemma copySelected_history m :
  history (copySelected m) = history m
  ∧ currentHistoryIndex (copySelected m) = currentHistoryIndex m.
Proof.
  unfold copySelected.
  by rewrite (foldl_keeps history), (foldl_keeps currentHistoryIndex).
Qed.

Lemma copySelected_sprites m :
  sprite_of <$> tiles (copySelected m) = sprite_of <$> tiles m.
Proof. unfold copySelected. by rewrite foldl_update_fmap. Qed.

Lemma cutSelected_as_specified m : cutSelected m = cut_as_specified m.
Proof.
  unfold cutSelected, cut_as_specified. by rewrite copySelected_selectedTiles.
Qed.

Lemma cutSelected_tiles m :
  tiles (cutSelected m) = tiles (foldl clearSprite (copySelected m) (selectedTiles m)).
Proof. by rewrite cutSelected_as_specified. Qed.

Lemma cutSelected_history m :
  history (cutSelected m)
  = slice0 (history m) (currentHistoryIndex m + 1)
      ++ [tileData <$> tiles (cutSelected m)].
Proof.
  unfold cutSelected. rewrite addToHistory_history, addToHistory_tiles.
  rewrite (foldl_keeps history), (foldl_keeps currentHistoryIndex) by done.
  destruct (copySelected_history m) as [-> ->]. done.
Qed.

Lemma cutSelected_history_length m :
  length (history (cutSelected m))
  = S (length (slice0 (history m) (currentHistoryIndex m + 1))).
Proof. rewrite cutSelected_history, length_app. simpl. lia. Qed.

Lemma copySelected_empty m : selectedTiles m = [] → tiles (copySelected m) = tiles m.
Proof. intros Hs. unfold copySelected. simpl. by rewrite Hs. Qed.

(** C5: [copySelected] leaves the sprite of every tile as it is, and
    [cutSelected] is [copySelected], then the clearing of the sprite of
    every tile that was selected, then one commit: afterwards each of these
    tiles has the background [transparent] and renders no sprite position,
    every other tile has the sprite it had, and the history ends with
    one new snapshot, that of the tiles after the clearing. *)
Theorem copy_keeps_sprites_cut_is_copy_clear_commit (m : Map) :
  sprite_of <$> tiles (copySelected m) = sprite_of <$> tiles m
  ∧ cutSelected m = cut_as_specified m
  ∧ (∀ i t, i ∈ selectedTiles m → tiles (cutSelected m) !! i = Some t →
       style_background t = "transparent"
       ∧ computed_backgroundPosition t = "0% 0%")
  ∧ (∀ i, i ∉ selectedTiles m →
       sprite_of <$> tiles (cutSelected m) !! i = sprite_of <$> tiles m !! i)
  ∧ history (cutSelected m)
    = slice0 (history m) (currentHistoryIndex m + 1)
        ++ [tileData <$> tiles (cutSelected m)].
Proof.
  split_and!.
  - apply copySelected_sprites.
  - apply cutSelected_as_specified.
  - intros i t Hi. rewrite cutSelected_tiles.
    apply (foldl_update_elem
             (λ t, style_background t = "transparent"
                   ∧ computed_backgroundPosition t = "0% 0%")); done.
  - intros i Hi. rewrite cutSelected_tiles.
    unfold clearSprite. rewrite foldl_update_other by done.
    rewrite <- !list_lookup_fmap. by rewrite copySelected_sprites.
  - apply cutSelected_history.
Qed.

(** ** Decimal texts *)

Lemma parseInt_toString (z : Z) : parseInt (toString z) = Some z.
Proof.
  unfold parseInt, toString.
  rewrite NilZero.isi.
  - simpl. f_equal. apply DecimalZ.of_to.
  - destruct z; simpl; try discriminate.
    intros [= H]. by apply Unsigned.to_uint_nonnil in H.
  - destruct z; simpl; try discriminate.
    intros [= H]. by apply Unsigned.to_uint_nonnil in H.
Qed.

Lemma toString_inj (a b : Z) : toString a = toString b → a = b.
Proof.
  intros H. apply (f_equal parseInt) in H.
  rewrite !parseInt_toString in H. by injection H.
Qed.

Lemma number_toString_eq (n : number) (z : Z) :
  number_toString n = toString z ↔ n = Some z.
Proof.
  split; [|by intros ->].
  destruct n as [a|]; simpl; intros H.
  - by rewrite (toString_inj _ _ H).
  - apply (f_equal parseInt) in H. rewrite parseInt_toString in H. done.
Qed.

(** ** The grid of tiles *)

Lemma rows_lookup {A} (f : nat → nat → A) (cols s n r c : nat) :
  (r < n)%nat → (c < cols)%nat →
  flat_map (λ i, f i <$> seq 0 cols) (seq s n) !! (r * cols + c)%nat
  = Some (f (s + r)%nat c).
Proof.
  revert s r. induction n as [|n IH]; intros s r Hr Hc; [lia|].
  simpl. destruct r as [|r].
  - rewrite lookup_app_l by (rewrite length_fmap, length_seq; lia).
    rewrite list_lookup_fmap. simpl.
    rewrite (proj2 (lookup_seq 0 cols c c)) by lia.
    simpl. do 2 f_equal. lia.
  - rewrite lookup_app_r by (rewrite length_fmap, length_seq; lia).
    rewrite length_fmap, length_seq.
    replace (S r * cols + c - cols)%nat with (r * cols + c)%nat by lia.
    rewrite IH by lia. do 2 f_equal. lia.
Qed.

Lemma rows_length {A} (f : nat → nat → A) (cols s n : nat) :
  length (flat_map (λ i, f i <$> seq 0 cols) (seq s n)) = (n * cols)%nat.
Proof.
  revert s. induction n as [|n IH]; intros s; simpl; [done|].
  rewrite length_app, length_fmap, length_seq, IH. done.
Qed.

Lemma init_tiles_length : length init_tiles = (mapRowsCount * mapColsCount)%nat.
Proof. apply rows_length. Qed.

Lemma init_tiles_cell (r c : nat) :
  (r < mapRowsCount)%nat → (c < mapColsCount)%nat →
  init_tiles !! cell r c = Some (createTile r c).
Proof. intros Hr Hc. unfold init_tiles, cell. by rewrite rows_lookup. Qed.

Lemma cell_decompose (i : nat) :
  (i < mapRowsCount * mapColsCount)%nat →
  ∃ r c, (r < mapRowsCount)%nat ∧ (c < mapColsCount)%nat ∧ i = cell r c.
Proof.
  intros Hi.
  assert (mapColsCount ≠ 0)%nat as Hcols by (intros E; rewrite E in Hi; lia).
  exists (i / mapColsCount)%nat, (i mod mapColsCount)%nat. split_and!.
  - apply Nat.Div0.div_lt_upper_bound. lia.
  - by apply Nat.mod_upper_bound.
  - unfold cell. pose proof (Nat.div_mod_eq i mapColsCount). lia.
Qed.

Lemma cell_inj (r c r' c' : nat) :
  (c < mapColsCount)%nat → (c' < mapColsCount)%nat →
  cell r c = cell r' c' → r = r' ∧ c = c'.
Proof.
  unfold cell. intros Hc Hc' H.
  destruct (Nat.lt_trichotomy r r') as [Hlt|[->|Hlt]].
  - pose proof (Nat.mul_le_mono_r (S r) r' mapColsCount Hlt). lia.
  - lia.
  - pose proof (Nat.mul_le_mono_r (S r') r mapColsCount Hlt). lia.
Qed.

Lemma cell_lt (r c : nat) :
  (r < mapRowsCount)%nat → (c < mapColsCount)%nat →
  (cell r c < mapRowsCount * mapColsCount)%nat.
Proof. unfold cell. intros Hr Hc. nia. Qed.

Lemma grid_length ts : grid ts → length ts = (mapRowsCount * mapColsCount)%nat.
Proof.
  intros H. apply (f_equal length) in H.
  by rewrite !length_fmap, init_tiles_length in H.
Qed.

Lemma grid_cell ts (r c : nat) :
  grid ts → (r < mapRowsCount)%nat → (c < mapColsCount)%nat →
  ∃ t, ts !! cell r c = Some t
       ∧ data_col t = toString (Z.of_nat c) ∧ data_row t = toString (Z.of_nat r).
Proof.
  intros Hg Hr Hc.
  pose proof (f_equal (λ l, l !! cell r c) Hg) as H. simpl in H.
  rewrite !list_lookup_fmap, init_tiles_cell in H by done.
  simpl in H. apply fmap_Some in H as (t & Ht & Ha).
  exists t. injection Ha as H1 H2. done.
Qed.

Lemma grid_element ts (r c : nat) :
  grid ts → (r < mapRowsCount)%nat → (c < mapColsCount)%nat →
  data_col (ts !!! cell r c) = toString (Z.of_nat c)
  ∧ data_row (ts !!! cell r c) = toString (Z.of_nat r).
Proof.
  intros Hg Hr Hc. destruct (grid_cell ts r c) as (t & Ht & H); [done..|].
  by rewrite (list_lookup_total_correct _ _ _ Ht).
Qed.

Lemma grid_alter f i ts :
  (∀ t, attributes (f t) = attributes t) → grid ts → grid (alter f i ts).
Proof. intros Hf Hg. unfold grid. by rewrite fmap_alter_same. Qed.

Lemma init_grid : grid init_tiles.
Proof. reflexivity. Qed.

(** ** [querySelector] on a grid *)

Lemma querySelector_attributes (cs rs : string) (ts ts' : list Tile) :
  attributes <$> ts = attributes <$> ts' →
  querySelector cs rs ts = querySelector cs rs ts'.
Proof.
  unfold querySelector. revert ts'.
  induction ts as [|t ts IH]; intros [|t' ts'] H; try done.
  injection H as Hc Hr Hts. csimpl.
  assert (matches cs rs t = matches cs rs t') as ->
    by (unfold matches; by rewrite Hc, Hr).
  case_decide; [done|].
  specialize (IH ts' Hts).
  destruct (list_find _ ts) as [[i a]|], (list_find _ ts') as [[i' a']|];
    simpl in *; congruence.
Qed.

Lemma querySelector_Some (cs rs : string) (ts : list Tile) (i : nat) :
  querySelector cs rs ts = Some i →
  ∃ t, ts !! i = Some t ∧ data_col t = cs ∧ data_row t = rs.
Proof.
  unfold querySelector. intros ([j t] & H & Hi)%fmap_Some. simpl in Hi. subst j.
  apply list_find_Some in H as (Ht & Hm & _).
  exists t. unfold matches in Hm.
  apply andb_true_iff in Hm as [H1%String.eqb_eq H2%String.eqb_eq]. done.
Qed.

Lemma querySelector_cell ts (r c : nat) :
  grid ts → (r < mapRowsCount)%nat → (c < mapColsCount)%nat →
  querySelector (toString (Z.of_nat c)) (toString (Z.of_nat r)) ts = Some (cell r c).
Proof.
  intros Hg Hr Hc.
  rewrite (querySelector_attributes _ _ ts init_tiles Hg).
  unfold querySelector.
  assert (list_find
            (λ t, matches (toString (Z.of_nat c)) (toString (Z.of_nat r)) t = true)
            init_tiles = Some (cell r c, createTile r c)) as ->; [|done].
  apply list_find_Some. split_and!.
  - by apply init_tiles_cell.
  - unfold matches. simpl. by rewrite !String.eqb_refl.
  - intros j y Hy Hj.
    destruct (cell_decompose j) as (r' & c' & Hr' & Hc' & ->).
    { pose proof (cell_lt r c Hr Hc). lia. }
    rewrite init_tiles_cell in Hy by done. injection Hy as <-.
    unfold matches. simpl. intros [H1 H2]%andb_true_iff.
    apply String.eqb_eq, toString_inj in H1, H2.
    assert (r' = r ∧ c' = c) as [-> ->] by lia. lia.
Qed.

Lemma querySelector_None ts (cs rs : string) :
  grid ts →
  (∀ r c, (r < mapRowsCount)%nat → (c < mapColsCount)%nat →
          ¬ (cs = toString (Z.of_nat c) ∧ rs = toString (Z.of_nat r))) →
  querySelector cs rs ts = None.
Proof.
  intros Hg Hno.
  destruct (querySelector cs rs ts) as [i|] eqn:Hq; [|done].
  apply querySelector_Some in Hq as (t & Ht & Hc & Hr).
  destruct (cell_decompose i) as (r & c & Hr' & Hc' & ->).
  { rewrite <- (grid_length ts Hg). by eapply lookup_lt_Some. }
  destruct (grid_cell ts r c) as (t' & Ht' & H1 & H2); [done..|].
  assert (t' = t) as -> by congruence.
  destruct (Hno r c Hr' Hc'). by rewrite <- Hc, <- Hr.
Qed.

(** ** The selection after a drag (C9) *)

Lemma selectTile_selectedTiles selecting b m tile :
  selectedTiles (selectTile selecting b m tile)
  = selectedTiles m
      ++ (if intersects (tilePosition tile) b && negb selecting then [tile] else []).
Proof.
  unfold selectTile.
  destruct (negb (includes tile (selectedTiles m)) && classList_selected (element m tile));
    destruct (intersects (tilePosition tile) b), selecting; simpl;
    by rewrite ?app_nil_r.
Qed.

Lemma selectTile_tiles_length selecting b m tile :
  length (tiles (selectTile selecting b m tile)) = length (tiles m).
Proof.
  unfold selectTile.
  destruct (negb (includes tile (selectedTiles m)) && classList_selected (element m tile));
    destruct (intersects (tilePosition tile) b), selecting; simpl;
    by rewrite ?length_alter.
Qed.

Lemma selectTiles_loop_selectedTiles b (l : list HTMLDivElement) m :
  selectedTiles (foldl (selectTile false b) m l)
  = selectedTiles m ++ filter (λ tile, intersects (tilePosition tile) b = true) l.
Proof.
  revert m. induction l as [|tile l IH]; intros m; simpl.
  - by rewrite app_nil_r.
  - rewrite IH, selectTile_selectedTiles, <- app_assoc. f_equal.
    rewrite filter_cons. rewrite andb_true_r.
    destruct (intersects (tilePosition tile) b); by case_decide.
Qed.

Lemma mouseup_selectedTiles m s :
  dragStartPosition m = Some s →
  selectedTiles (mouseup m)
  = (if ctrlDown m then selectedTiles m else [])
      ++ hit (length (tiles m)) (selectionBounds s (mousePosition m)).
Proof.
  intros Hs. unfold mouseup, selectTiles. simpl. rewrite Hs.
  rewrite selectTiles_loop_selectedTiles. unfold hit.
  by destruct (ctrlDown m).
Qed.

Lemma hit_elem n b (tile : nat) :
  (tile < n)%nat → intersects (tilePosition tile) b = true → tile ∈ hit n b.
Proof.
  intros Hlt Hhit. apply list_elem_of_filter. split; [done|].
  apply elem_of_seq. lia.
Qed.

Lemma hit_NoDup n b : NoDup (hit n b).
Proof. apply NoDup_filter, NoDup_seq. Qed.

(** C9, as the code has it: after pointer-up the selection set is the
    previous set, when the modifier is held, followed by the tiles that
    intersect the drag rectangle.  Without the modifier no tile occurs
    twice.  With the modifier the set stays free of duplicates exactly when
    it was so before and none of its members intersects the rectangle. *)
Theorem mouseup_selection_duplicates (m : Map) (s : Position2D) :
  dragStartPosition m = Some s →
  let tilesHit := hit (length (tiles m)) (selectionBounds s (mousePosition m)) in
  selectedTiles (mouseup m) = (if ctrlDown m then selectedTiles m else []) ++ tilesHit
  ∧ (ctrlDown m = false → NoDup (selectedTiles (mouseup m)))
  ∧ (ctrlDown m = true →
       (NoDup (selectedTiles (mouseup m))
        ↔ NoDup (selectedTiles m) ∧ ∀ tile, tile ∈ selectedTiles m → tile ∉ tilesHit)).
Proof.
  intros Hs tilesHit. rewrite (mouseup_selectedTiles m s Hs). fold tilesHit.
  split_and!; [done| |].
  - intros ->. apply hit_NoDup.
  - intros ->. rewrite NoDup_app.
    pose proof (hit_NoDup (length (tiles m)) (selectionBounds s (mousePosition m))) as Hhit.
    split; [intros (? & ? & _); by split|intros [? ?]; by split_and!].
Qed.

(** ** Operations on an empty selection or clipboard (C7) *)

(** C7, as the code has it: [drawMap] on an empty selection and [paste]
    with an empty clipboard or without an anchor return the state as it is;
    [copySelected] on an empty selection changes no tile and commits no
    snapshot, and leaves an empty clipboard; [cutSelected] on an empty
    selection changes no tile and commits one snapshot. *)
Theorem empty_selection_or_clipboard (m : Map) :
  (∀ sprite, selectedTiles m = [] → drawMap sprite m = Returned m)
  ∧ (coppiedTileData m = [] ∨ tileUnderCoursor m = None → paste m = m)
  ∧ (selectedTiles m = [] →
       tiles (copySelected m) = tiles m
       ∧ history (copySelected m) = history m
       ∧ currentHistoryIndex (copySelected m) = currentHistoryIndex m
       ∧ coppiedTileData (copySelected m) = [])
  ∧ (selectedTiles m = [] →
       tiles (cutSelected m) = tiles m
       ∧ history (cutSelected m)
         = slice0 (history m) (currentHistoryIndex m + 1) ++ [tileData <$> tiles m]).
Proof.
  split_and!.
  - intros sprite Hs. unfold drawMap. by rewrite Hs.
  - intros [Hc|Ha]; unfold paste.
    + by rewrite Hc.
    + rewrite Ha. by destruct (coppiedTileData m).
  - intros Hs. destruct (copySelected_history m) as [Hh Hi].
    rewrite copySelected_empty by done. split_and!; [done..|].
    unfold copySelected. rewrite (foldl_keeps coppiedTileData) by done.
    simpl. by rewrite Hs.
  - intros Hs. rewrite cutSelected_history, cutSelected_tiles, Hs. simpl.
    by rewrite copySelected_empty.
Qed.

(** ** The sort of [drawMap] *)

Lemma sort_insert_perm ts a l : sort_insert ts a l ≡ₚ a :: l.
Proof.
  induction l as [|b l IH]; simpl; [done|].
  destruct (compareTiles (ts !!! a) (ts !!! b) <=? 0); [done|].
  rewrite IH. apply Permutation_swap.
Qed.

Lemma sort_perm ts l : sort ts l ≡ₚ l.
Proof.
  induction l as [|a l IH]; simpl; [done|].
  fold (sort ts l). by rewrite sort_insert_perm, IH.
Qed.

Lemma cell_le (ra ca rb cb : nat) :
  (ca < mapColsCount)%nat → (cb < mapColsCount)%nat →
  (cell ra ca ≤ cell rb cb)%nat ↔ (ra < rb)%nat ∨ (ra = rb ∧ (ca ≤ cb)%nat).
Proof.
  unfold cell. intros Ha Hb.
  destruct (Nat.lt_trichotomy ra rb) as [Hlt|[->|Hlt]].
  - pose proof (Nat.mul_le_mono_r (S ra) rb mapColsCount Hlt). lia.
  - lia.
  - pose proof (Nat.mul_le_mono_r (S rb) ra mapColsCount Hlt). lia.
Qed.

Lemma grid_parse ts (r c : nat) :
  grid ts → (r < mapRowsCount)%nat → (c < mapColsCount)%nat →
  parseInt (data_row (ts !!! cell r c)) = Some (Z.of_nat r)
  ∧ parseInt (data_col (ts !!! cell r c)) = Some (Z.of_nat c).
Proof.
  intros Hg Hr Hc. destruct (grid_element ts r c Hg Hr Hc) as [-> ->].
  by rewrite !parseInt_toString.
Qed.

(** ** A commit records the tiles (C6) *)

(** C6: [addToHistory] keeps the entries at the indices up to the cursor,
    appends one snapshot of all tiles and moves the cursor to the new last
    index.  The snapshot is the new last entry: it holds one record for every
    tile, in document order, with the parsed row and column, the background
    and the background position of the tile; on a grid the record at
    position [r * mapColsCount + c] carries the row [r], the column [c] and
    the style of the tile of this cell.  The tiles and every other field
    stay as they are.  The cursor is a valid index after every commit, and
    [undo] and [redo] keep it a valid index of a non-empty history. *)
Theorem addToHistory_truncates_appends_cursor_valid (m : Map) :
  (0 ≤ currentHistoryIndex m →
     history (addToHistory m)
     = take (Z.to_nat (currentHistoryIndex m + 1)) (history m)
         ++ [tileData <$> tiles m])
  ∧ (∃ snapshot : list TileData,
       last (history (addToHistory m)) = Some snapshot
       ∧ index (history (addToHistory m)) (currentHistoryIndex (addToHistory m))
         = Some snapshot
       ∧ length snapshot = length (tiles m)
       ∧ (∀ (tile : nat) t, tiles m !! tile = Some t →
            snapshot !! tile
            = Some {| row := parseInt (data_row t);
                      col := parseInt (data_col t);
                      bg := style_background t;
                      bgPos := style_backgroundPosition t |})
       ∧ (grid (tiles m) →
          length snapshot = (mapRowsCount * mapColsCount)%nat
          ∧ ∀ r c : nat, (r < mapRowsCount)%nat → (c < mapColsCount)%nat →
              ∃ t, tiles m !! (r * mapColsCount + c)%nat = Some t
                   ∧ snapshot !! (r * mapColsCount + c)%nat
                     = Some {| row := Some (Z.of_nat r);
                               col := Some (Z.of_nat c);
                               bg := style_background t;
                               bgPos := style_backgroundPosition t |}))
  ∧ tiles (addToHistory m) = tiles m
  ∧ controller (addToHistory m) = controller m
  ∧ currentHistoryIndex (addToHistory m)
    = Z.of_nat (length (history (addToHistory m))) - 1
  ∧ cursor_valid (addToHistory m)
  ∧ (cursor_valid m → cursor_valid (state_of (undo m)))
  ∧ (cursor_valid m → cursor_valid (state_of (redo m))).
Proof.
  split_and!.
  - intros Hi. rewrite addToHistory_history, slice0_take by lia. done.
  - exists (tileData <$> tiles m). split_and!.
    + by rewrite addToHistory_history, last_snoc.
    + rewrite addToHistory_index, addToHistory_history.
      unfold index. rewrite length_app. simpl.
      destruct (Z.ltb_spec (Z.of_nat (length (slice0 (history m) (currentHistoryIndex m + 1))
                                      + 1) - 1) 0) as [Hlt|_]; [lia|].
      replace (Z.to_nat (Z.of_nat (length (slice0 (history m) (currentHistoryIndex m + 1)) + 1)
                         - 1))
        with (length (slice0 (history m) (currentHistoryIndex m + 1))) by lia.
      by rewrite list_lookup_middle.
    + by rewrite length_fmap.
    + intros tile t Ht. by rewrite list_lookup_fmap, Ht.
    + intros Hg. split; [by rewrite length_fmap, grid_length|].
      intros r c Hr Hc.
      destruct (grid_cell (tiles m) r c Hg Hr Hc) as (t & Ht & _).
      exists t. split; [done|].
      rewrite list_lookup_fmap. fold (cell r c). rewrite Ht. simpl. unfold tileData.
      pose proof (grid_parse (tiles m) r c Hg Hr Hc) as [Hpr Hpc].
      rewrite (list_lookup_total_correct _ _ _ Ht) in Hpr, Hpc.
      by rewrite Hpr, Hpc.
  - apply addToHistory_tiles.
  - apply addToHistory_controller.
  - apply addToHistory_index.
  - apply addToHistory_cursor_valid.
  - apply undo_cursor_valid.
  - apply redo_cursor_valid.
Qed.

Lemma compareTiles_le ts (a b : nat) :
  grid ts → (a < length ts)%nat → (b < length ts)%nat →
  (compareTiles (ts !!! a) (ts !!! b) <=? 0) = true ↔ (a ≤ b)%nat.
Proof.
  intros Hg Ha Hb. rewrite (grid_length ts Hg) in Ha, Hb.
  destruct (cell_decompose a Ha) as (ra & ca & Hra & Hca & ->).
  destruct (cell_decompose b Hb) as (rb & cb & Hrb & Hcb & ->).
  rewrite cell_le by done. unfold compareTiles.
  destruct (grid_parse ts ra ca Hg Hra Hca) as [-> ->].
  destruct (grid_parse ts rb cb Hg Hrb Hcb) as [-> ->].
  unfold gt, lt.
  repeat (match goal with |- context [(?u <? ?v)] => destruct (Z.ltb_spec u v) end);
    rewrite Z.leb_le; lia.
Qed.

Lemma row_major_le_index ts (a b : nat) :
  grid ts → (a < length ts)%nat → (b < length ts)%nat →
  row_major_le ts a b ↔ (a ≤ b)%nat.
Proof.
  intros Hg Ha Hb. rewrite (grid_length ts Hg) in Ha, Hb.
  destruct (cell_decompose a Ha) as (ra & ca & Hra & Hca & ->).
  destruct (cell_decompose b Hb) as (rb & cb & Hrb & Hcb & ->).
  rewrite cell_le by done. unfold row_major_le.
  destruct (grid_parse ts ra ca Hg Hra Hca) as [-> ->].
  destruct (grid_parse ts rb cb Hg Hrb Hcb) as [-> ->].
  lia.
Qed.

Lemma sort_insert_sorted ts a l :
  grid ts → (a < length ts)%nat → valid ts l →
  StronglySorted le l → StronglySorted le (sort_insert ts a l).
Proof.
  intros Hg Ha Hl Hs. induction Hs as [|b l Hs IH Hb]; simpl.
  - by repeat constructor.
  - apply Forall_cons in Hl as [Hbv Hl].
    destruct (compareTiles (ts !!! a) (ts !!! b) <=? 0) eqn:Hcmp.
    + apply compareTiles_le in Hcmp; [|done..].
      constructor; [by constructor|].
      constructor; [done|]. eapply Forall_impl; [exact Hb|]. simpl. lia.
    + assert (b ≤ a)%nat as Hba.
      { destruct (decide (a ≤ b)%nat) as [Hab|]; [|lia].
        apply (compareTiles_le ts a b) in Hab; [congruence|done..]. }
      constructor; [by apply IH|].
      rewrite sort_insert_perm. by constructor.
Qed.

Lemma sort_sorted ts l :
  grid ts → valid ts l → StronglySorted le (sort ts l).
Proof.
  intros Hg Hl. induction Hl as [|a l Ha Hl IH]; simpl; [constructor|].
  fold (sort ts l). apply sort_insert_sorted; [done..| |done].
  unfold valid. by rewrite sort_perm.
Qed.

Lemma sort_row_major ts l :
  grid ts → valid ts l → StronglySorted (row_major_le ts) (sort ts l).
Proof.
  intros Hg Hl.
  assert (valid ts (sort ts l)) as Hv by (unfold valid; by rewrite sort_perm).
  pose proof (sort_sorted ts l Hg Hl) as Hs.
  induction Hs as [|a k Hs IH Ha]; [constructor|].
  apply Forall_cons in Hv as [Hav Hv].
  constructor; [by apply IH|].
  rewrite Forall_forall in Ha, Hv |- *. intros b Hb.
  apply row_major_le_index; auto.
Qed.

(** ** Drawing and auto-advance (C4) *)

Lemma update_update i f g m : update i f (update i g m) = update i (f ∘ g) m.
Proof. unfold update. simpl. by rewrite list_alter_alter_eq. Qed.

Lemma drawTile_update sprite m tile :
  drawTile sprite m tile
  = update tile (set_selected false ∘ set_backgroundPosition sprite
                 ∘ set_background spritesUrl) m.
Proof. unfold drawTile. by rewrite !update_update. Qed.

Lemma drawTiles_update sprite (l : list HTMLDivElement) m :
  foldl (drawTile sprite) m l
  = foldl (λ m tile, update tile (set_selected false ∘ set_backgroundPosition sprite
                                  ∘ set_background spritesUrl) m) m l.
Proof.
  revert m. induction l as [|tile l IH]; intros m; simpl; [done|].
  by rewrite drawTile_update, IH.
Qed.

Lemma drawTiles_grid sprite (l : list HTMLDivElement) m :
  grid (tiles m) → grid (tiles (foldl (drawTile sprite) m l)).
Proof.
  unfold grid. intros <-. rewrite drawTiles_update. by apply foldl_update_fmap.
Qed.

Lemma toString_0 : toString 0 = "0".
Proof. reflexivity. Qed.

Lemma selectNextTile_cell m (r c : nat) :
  grid (tiles m) → (r < mapRowsCount)%nat → (c < mapColsCount)%nat →
  last (selectedTiles m) = Some (cell r c) →
  ∃ m', selectNextTile m = Returned m'
        ∧ selectedTiles m' = next_cell r c
        ∧ Forall (λ tile, classList_selected <$> tiles m' !! tile = Some true)
                 (next_cell r c)
        ∧ sprite_of <$> tiles m' = sprite_of <$> tiles m
        ∧ history m' = history m
        ∧ currentHistoryIndex m' = currentHistoryIndex m.
Proof.
  intros Hg Hr Hc Hlast. unfold selectNextTile, element. rewrite Hlast.
  destruct (grid_parse (tiles m) r c Hg Hr Hc) as [-> ->].
  unfold next_cell, ge, add, number_toString.
  destruct (decide (c = mapColsCount - 1)%nat) as [Hcl|Hcl].
  - destruct (Z.leb_spec (Z.of_nat mapColsCount - 1) (Z.of_nat c)); [|lia].
    destruct (decide (r = mapRowsCount - 1)%nat) as [Hrl|Hrl].
    + destruct (Z.leb_spec (Z.of_nat mapRowsCount - 1) (Z.of_nat r)); [|lia].
      simpl. eexists. split_and!; done.
    + destruct (Z.leb_spec (Z.of_nat mapRowsCount - 1) (Z.of_nat r)); [lia|].
      simpl. rewrite <- toString_0.
      replace (Z.of_nat r + 1) with (Z.of_nat (S r)) by lia.
      change 0 with (Z.of_nat 0).
      rewrite querySelector_cell by (done || lia).
      destruct (grid_cell (tiles m) (S r) 0 Hg) as (t & Ht & _); [lia..|].
      eexists. split_and!; [done|done| | |done|done].
      * apply Forall_singleton. simpl. by rewrite list_lookup_alter_eq, Ht.
      * simpl. by rewrite fmap_alter_same.
  - destruct (Z.leb_spec (Z.of_nat mapColsCount - 1) (Z.of_nat c)); [lia|].
    simpl.
    replace (Z.of_nat c + 1) with (Z.of_nat (S c)) by lia.
    rewrite querySelector_cell by (done || lia).
    destruct (grid_cell (tiles m) r (S c) Hg) as (t & Ht & _); [lia..|].
    eexists. split_and!; [done|done| | |done|done].
    + apply Forall_singleton. simpl. by rewrite list_lookup_alter_eq, Ht.
    + simpl. by rewrite fmap_alter_same.
Qed.

(** C4: with auto-advance enabled, [drawMap] on a non-empty selection of a
    grid draws the selected tiles in row-major order, and afterwards the
    selection is the one cell that follows the tile drawn last, in the same
    row or, from the last column, at the start of the next row; after the
    final cell of the grid the selection is empty. *)
Theorem drawMap_auto_advance (sprite : string) (m : Map) :
  grid (tiles m) → valid (tiles m) (selectedTiles m) →
  selectedTiles m ≠ [] → isAutoEnabled m = true →
  let order := sort (tiles m) (selectedTiles m) in
  order ≡ₚ selectedTiles m
  ∧ StronglySorted (row_major_le (tiles m)) order
  ∧ ∃ (r c : nat) (m' : Map),
      (r < mapRowsCount)%nat ∧ (c < mapColsCount)%nat
      ∧ last order = Some (cell r c)
      ∧ drawMap sprite m = Returned m'
      ∧ sprite_of <$> tiles m' = sprite_of <$> tiles (foldl (drawTile sprite) m order)
      ∧ (∀ tile, tile ∈ selectedTiles m →
           sprite_of <$> tiles m' !! tile = Some (spritesUrl, sprite))
      ∧ selectedTiles m' = next_cell r c
      ∧ Forall (λ tile, classList_selected <$> tiles m' !! tile = Some true)
               (next_cell r c).
Proof.
  intros Hg Hv Hne Hauto order.
  assert (order ≡ₚ selectedTiles m) as Hperm by apply sort_perm.
  split_and!; [done|by apply sort_row_major|].
  assert (valid (tiles m) order) as Hvo by (unfold valid; by rewrite Hperm).
  destruct (last order) as [lastTile|] eqn:Hlast.
  2:{ apply last_None in Hlast. rewrite Hlast in Hperm.
      by apply Permutation_nil in Hperm. }
  assert (lastTile < mapRowsCount * mapColsCount)%nat as Hlt.
  { rewrite <- (grid_length _ Hg).
    apply last_Some_elem_of in Hlast. unfold valid in Hvo.
    rewrite Forall_forall in Hvo. auto. }
  destruct (cell_decompose lastTile Hlt) as (r & c & Hr & Hc & ->).
  set (m1 := with_selectedTiles order m).
  set (m2 := foldl (drawTile sprite) m1 order).
  assert (grid (tiles m2)) as Hg2 by by apply drawTiles_grid.
  assert (selectedTiles m2 = order) as Hsel2.
  { unfold m2. by rewrite (foldl_keeps selectedTiles). }
  assert (isAutoEnabled m2 = true) as Hauto2.
  { unfold m2. by rewrite (foldl_keeps isAutoEnabled). }
  destruct (selectNextTile_cell m2 r c Hg2 Hr Hc) as (m3 & Hnext & Hsel3 & Hmark3 & Hsp3 & _).
  { by rewrite Hsel2. }
  exists r, c, (addToHistory m3).
  assert (tiles m2 = tiles (foldl (drawTile sprite) m order)) as Htiles2.
  { unfold m2, m1. by rewrite !drawTiles_update, !foldl_update_tiles. }
  split_and!; [done|done|done| | | |done|done].
  - unfold drawMap.
    destruct (Z.leb_spec (Z.of_nat (length (selectedTiles m))) 0) as [Hlen|_].
    { destruct (selectedTiles m); [done|simpl in Hlen; lia]. }
    change (selectedTiles (with_selectedTiles (sort (tiles m) (selectedTiles m)) m))
      with order.
    fold order. fold m1. fold m2. by rewrite Hauto2, Hnext.
  - by rewrite addToHistory_tiles, Hsp3, Htiles2.
  - intros tile Htile. rewrite addToHistory_tiles.
    rewrite <- list_lookup_fmap, Hsp3, list_lookup_fmap.
    assert (tile ∈ order) as Hord by by rewrite Hperm.
    assert (tile < length (tiles m2))%nat as Hlen.
    { rewrite (grid_length _ Hg2), <- (grid_length _ Hg).
      unfold valid in Hvo. rewrite Forall_forall in Hvo. auto. }
    apply lookup_lt_is_Some in Hlen as [t Ht]. rewrite Ht. simpl. f_equal.
    unfold m2 in Ht. rewrite drawTiles_update in Ht.
    by apply (foldl_update_elem (λ t, sprite_of t = (spritesUrl, sprite))) in Ht.
Qed.

(** ** Paste (C3) *)

Lemma querySelector_number ts (r c : number) :
  grid ts → querySelector (number_toString c) (number_toString r) ts = cell_at r c.
Proof.
  intros Hg. unfold cell_at.
  destruct r as [zr|], c as [zc|]; simpl.
  - destruct ((0 <=? zr) && (zr <? Z.of_nat mapRowsCount)
              && (0 <=? zc) && (zc <? Z.of_nat mapColsCount)) eqn:Hin.
    + apply andb_true_iff in Hin as [Hin Hc2]. apply andb_true_iff in Hin as [Hin Hc1].
      apply andb_true_iff in Hin as [Hr1 Hr2].
      apply Z.leb_le in Hr1, Hc1. apply Z.ltb_lt in Hr2, Hc2.
      rewrite <- (Z2Nat.id zr) at 1 by done. rewrite <- (Z2Nat.id zc) at 1 by done.
      apply querySelector_cell; [done|lia|lia].
    + apply querySelector_None; [done|]. intros r c Hr Hc [H1 H2].
      apply toString_inj in H1, H2. subst.
      rewrite !andb_false_iff, !Z.leb_nle, !Z.ltb_nlt in Hin. lia.
  - apply querySelector_None; [done|]. intros r c Hr Hc [H1 _].
    by apply (number_toString_eq None) in H1.
  - apply querySelector_None; [done|]. intros r c Hr Hc [_ H2].
    by apply (number_toString_eq None) in H2.
  - apply querySelector_None; [done|]. intros r c Hr Hc [H1 _].
    by apply (number_toString_eq None) in H1.
Qed.

Lemma pasteTile_target ar ac rr rc m data :
  grid (tiles m) →
  pasteTile ar ac rr rc m data
  = match cell_at (add ar (sub (row data) rr)) (add ac (sub (col data) rc)) with
    | Some targetTile =>
        update targetTile
          (set_backgroundPosition (bgPos data) ∘ set_background (bg data)) m
    | None => m
    end.
Proof.
  intros Hg. unfold pasteTile. rewrite querySelector_number by done.
  destruct (cell_at _ _); [|done]. by rewrite update_update.
Qed.

Lemma pasteTile_marker ar ac rr rc m data :
  marker <$> tiles (pasteTile ar ac rr rc m data) = marker <$> tiles m.
Proof.
  unfold pasteTile. destruct (querySelector _ _ _); [|done].
  rewrite !update_tiles, !fmap_alter_same; done.
Qed.

Lemma marker_grid ts ts' : marker <$> ts = marker <$> ts' → grid ts' → grid ts.
Proof.
  unfold grid. intros Hm <-.
  apply (f_equal (fmap (λ p : string * string * bool, p.1))) in Hm.
  by rewrite <- !list_fmap_compose in Hm.
Qed.

Lemma pasteTiles_marker ar ac rr rc (l : list TileData) m :
  marker <$> tiles (foldl (pasteTile ar ac rr rc) m l) = marker <$> tiles m.
Proof.
  apply (foldl_keeps (λ m, marker <$> tiles m)). intros. apply pasteTile_marker.
Qed.

Lemma pasteTiles_lookup ar ac rr rc (l : list TileData) m (i : nat) (t : Tile) :
  grid (tiles m) → tiles m !! i = Some t →
  sprite_of <$> tiles (foldl (pasteTile ar ac rr rc) m l) !! i
  = Some (pasted_sprite
            (λ data, cell_at (add ar (sub (row data) rr)) (add ac (sub (col data) rc)))
            l i t).
Proof.
  intros Hg Ht. unfold pasted_sprite.
  induction l as [|data l IH] using rev_ind; simpl.
  - by rewrite Ht.
  - rewrite foldl_snoc, filter_app, pasteTile_target
      by (eapply marker_grid; [apply pasteTiles_marker|done]).
    rewrite filter_cons, filter_nil.
    destruct (cell_at _ _) as [j|] eqn:Hj.
    + destruct (decide (j = i)) as [->|Hne].
      * rewrite decide_True by done. rewrite last_snoc.
        rewrite update_tiles, list_lookup_alter_eq.
        destruct (tiles (foldl _ m l) !! i) as [t'|]; [done|].
        simpl in IH. by destruct (last _).
      * rewrite decide_False by congruence. rewrite app_nil_r.
        by rewrite update_tiles, list_lookup_alter_ne.
    + rewrite decide_False by done. by rewrite app_nil_r.
Qed.

Lemma paste_unfold m first rest anchorTile :
  coppiedTileData m = first :: rest → tileUnderCoursor m = Some anchorTile →
  paste m
  = addToHistory
      (foldl (pasteTile (parseInt (data_row (element m anchorTile)))
                        (parseInt (data_col (element m anchorTile)))
                        (row first) (col first))
             m (coppiedTileData m)).
Proof. intros Hc Ha. unfold paste. by rewrite Ha, Hc. Qed.


(** ** Export and import (C2) *)

Lemma loadTile_history m data :
  history (loadTile m data) = history m
  ∧ currentHistoryIndex (loadTile m data) = currentHistoryIndex m.
Proof.
  unfold loadTile. destruct (querySelector _ _ _); [|done].
  by destruct (negb _).
Qed.

Lemma loadTile_attributes m data :
  attributes <$> tiles (loadTile m data) = attributes <$> tiles m.
Proof.
  unfold loadTile. destruct (querySelector _ _ _); [|done].
  destruct (negb _); [|done].
  rewrite !update_tiles, !fmap_alter_same; done.
Qed.

Lemma loadMapFromFile_grid mapData m :
  grid (tiles m) → grid (tiles (loadMapFromFile mapData m)).
Proof.
  unfold grid, loadMapFromFile. intros <-.
  apply (foldl_keeps (λ m, attributes <$> tiles m)). intros. apply loadTile_attributes.
Qed.




Lemma grid_addressed ts : grid ts → addressed ts.
Proof.
  intros Hg k t G Ht HG.
  destruct (cell_decompose k) as (r & c & Hr & Hc & ->).
  { rewrite <- (grid_length ts Hg). by eapply lookup_lt_Some. }
  destruct (grid_cell ts r c Hg Hr Hc) as (t' & Ht' & H1 & H2).
  assert (t' = t) as -> by congruence.
  rewrite H1, H2. by apply querySelector_cell.
Qed.

Lemma loadTiles_lookup (l : list Tile) m (i : nat) :
  addressed l → grid (tiles m) →
  tiles (foldl loadTile m
           (imap (λ index tile,
                    {| id := index;
                       bgPosition := computed_backgroundPosition tile;
                       e_col := data_col tile;
                       e_row := data_row tile |}) l)) !! i
  = match l !! i with
    | Some t => imported t <$> tiles m !! i
    | None => tiles m !! i
    end.
Proof.
  intros Ha Hg. induction l as [|t l IH] using rev_ind; [done|].
  rewrite imap_app, foldl_app. simpl.
  assert (addressed l) as Hal.
  { intros k t' G Hk. apply Ha. by apply lookup_app_l_Some. }
  specialize (IH Hal).
  set (m1 := foldl loadTile m _) in *.
  assert (grid (tiles m1)) as Hg1 by by apply loadMapFromFile_grid.
  unfold loadTile. simpl.
  rewrite (Ha (length l) t (tiles m1)); [|by rewrite list_lookup_middle|done].
  destruct (decide (i = length l)) as [->|Hne].
  - rewrite list_lookup_middle by done.
    rewrite (lookup_ge_None_2 l (length l)) in IH by done.
    unfold imported.
    destruct (String.eqb (computed_backgroundPosition t) "0% 0%"); cbn [negb].
    + rewrite IH. by destruct (tiles m !! length l).
    + rewrite update_update, update_tiles, list_lookup_alter_eq, IH. done.
  - assert (tiles (if negb (String.eqb (computed_backgroundPosition t) "0% 0%")
                   then update (length l) (set_backgroundPosition (computed_backgroundPosition t))
                          (update (length l) (set_background spritesUrl) m1)
                   else m1) !! i = tiles m1 !! i) as ->.
    { destruct (negb _); [|done]. by rewrite !update_tiles, !list_lookup_alter_ne. }
    rewrite IH.
    destruct (decide (i < length l)%nat).
    + by rewrite lookup_app_l.
    + rewrite (lookup_ge_None_2 l i) by lia.
      rewrite (lookup_ge_None_2 (l ++ [t]) i); [done|].
      rewrite length_app. simpl. lia.
Qed.

Lemma import_export_lookup m (i : nat) :
  grid (tiles m) →
  tiles (loadMapFromFile (createMapJSON m) init) !! i
  = match tiles m !! i with
    | Some t => imported t <$> init_tiles !! i
    | None => None
    end.
Proof.
  intros Hg. unfold loadMapFromFile, createMapJSON.
  rewrite loadTiles_lookup; [|by apply grid_addressed|apply init_grid].
  destruct (tiles m !! i) eqn:Hi; [done|].
  apply lookup_ge_None. change (tiles init) with init_tiles.
  rewrite init_tiles_length, <- (grid_length _ Hg).
  by apply lookup_ge_None.
Qed.

(** ** The pointer handlers *)

Lemma content_fields m m' :
  content m' = content m →
  history m' = history m
  ∧ currentHistoryIndex m' = currentHistoryIndex m
  ∧ ctrlDown m' = ctrlDown m
  ∧ isAutoEnabled m' = isAutoEnabled m
  ∧ length (tiles m') = length (tiles m).
Proof.
  unfold content. intros H. simplify_eq.
  split_and!; try done.
  match goal with H : _ <$> tiles m' = _ <$> tiles m |- _ =>
    apply (f_equal length) in H; by rewrite !length_fmap in H end.
Qed.

Lemma selectTile_content selecting b m tile :
  content (selectTile selecting b m tile) = content m.
Proof. unfold selectTile, content. handler_cases; rewrite ?fmap_alter_same by done; done. Qed.

Lemma selectTile_pointer selecting b m tile :
  mouseDown (selectTile selecting b m tile) = mouseDown m
  ∧ mousePosition (selectTile selecting b m tile) = mousePosition m
  ∧ dragStartPosition (selectTile selecting b m tile) = dragStartPosition m.
Proof. unfold selectTile. handler_cases; rewrite ?fmap_alter_same by done; done. Qed.

Lemma selectTile_lookup_ne selecting b m (tile other : nat) :
  tile ≠ other →
  tiles (selectTile selecting b m tile) !! other = tiles m !! other.
Proof.
  intros Hne. unfold selectTile.
  repeat (match goal with |- context [if ?b then _ else _] => destruct b end);
    simpl; rewrite ?list_lookup_alter_ne by done; done.
Qed.

Lemma selectTile_marks selecting b m (tile : nat) :
  intersects (tilePosition tile) b = true → (tile < length (tiles m))%nat →
  classList_selected <$> tiles (selectTile selecting b m tile) !! tile = Some true.
Proof.
  intros Hhit Hlt. unfold selectTile. rewrite Hhit.
  destruct (lookup_lt_is_Some_2 (tiles m) tile Hlt) as [t Ht].
  destruct (negb _ && _), selecting; simpl;
    rewrite !list_lookup_alter_eq, Ht; done.
Qed.

Lemma selectTiles_loop_length selecting b (l : list HTMLDivElement) m :
  length (tiles (foldl (selectTile selecting b) m l)) = length (tiles m).
Proof.
  apply (foldl_keeps (λ m, length (tiles m))). intros. apply selectTile_tiles_length.
Qed.

Lemma selectTiles_loop_marks selecting b (l : list HTMLDivElement) m (tile : nat) :
  tile ∈ l → intersects (tilePosition tile) b = true → (tile < length (tiles m))%nat →
  classList_selected <$> tiles (foldl (selectTile selecting b) m l) !! tile = Some true.
Proof.
  intros Hin Hhit Hlen.
  induction l as [|j l IH] using rev_ind; [by apply elem_of_nil in Hin|].
  rewrite foldl_snoc.
  destruct (decide (j = tile)) as [->|Hne].
  - apply selectTile_marks; [done|]. by rewrite selectTiles_loop_length.
  - rewrite selectTile_lookup_ne by done. apply IH.
    apply elem_of_app in Hin as [Hin|Hin%list_elem_of_singleton]; done.
Qed.

Lemma selectTiles_preview m s :
  dragStartPosition m = Some s →
  selectedTiles (selectTiles true m) = (if ctrlDown m then selectedTiles m else [])
  ∧ content (selectTiles true m) = content m
  ∧ mouseDown (selectTiles true m) = mouseDown m
  ∧ mousePosition (selectTiles true m) = mousePosition m
  ∧ dragStartPosition (selectTiles true m) = Some s.
Proof.
  intros Hs. unfold selectTiles. simpl. rewrite Hs.
  split_and!.
  - rewrite (foldl_keeps selectedTiles); [by destruct (ctrlDown m)|].
    intros m' tile. rewrite selectTile_selectedTiles.
    by rewrite andb_false_r, app_nil_r.
  - rewrite (foldl_keeps content) by (intros; apply selectTile_content).
    by destruct (ctrlDown m).
  - rewrite (foldl_keeps mouseDown) by (intros; apply selectTile_pointer).
    by destruct (ctrlDown m).
  - rewrite (foldl_keeps mousePosition) by (intros; apply selectTile_pointer).
    by destruct (ctrlDown m).
  - rewrite (foldl_keeps dragStartPosition) by (intros; apply selectTile_pointer).
    by destruct (ctrlDown m).
Qed.

Lemma unmarkTile_keeps m tile :
  content (unmarkTile m tile) = content m
  ∧ selectedTiles (unmarkTile m tile) = selectedTiles m
  ∧ mousePosition (unmarkTile m tile) = mousePosition m.
Proof. unfold unmarkTile, content. handler_cases; rewrite ?fmap_alter_same by done; done. Qed.

Lemma mousedown_spec m :
  selectedTiles (mousedown m) = (if ctrlDown m then selectedTiles m else [])
  ∧ content (mousedown m) = content m
  ∧ mouseDown (mousedown m) = true
  ∧ mousePosition (mousedown m) = mousePosition m
  ∧ dragStartPosition (mousedown m) = Some (mousePosition m).
Proof.
  unfold mousedown.
  set (m1 := foldl unmarkTile m (querySelectorAll_selected m)).
  assert (content m1 = content m) as Hc
    by (apply (foldl_keeps content); intros; apply unmarkTile_keeps).
  assert (selectedTiles m1 = selectedTiles m) as Hs
    by (apply (foldl_keeps selectedTiles); intros; apply unmarkTile_keeps).
  assert (mousePosition m1 = mousePosition m) as Hp
    by (apply (foldl_keeps mousePosition); intros; apply unmarkTile_keeps).
  destruct (content_fields m m1 Hc) as (_ & _ & Hctrl & _).
  rewrite Hctrl. destruct (ctrlDown m); simpl; by rewrite ?Hs, ?Hp.
Qed.

Lemma mouseup_spec m s :
  dragStartPosition m = Some s →
  selectedTiles (mouseup m)
  = (if ctrlDown m then selectedTiles m else [])
      ++ hit (length (tiles m)) (selectionBounds s (mousePosition m))
  ∧ content (mouseup m) = content m
  ∧ mouseDown (mouseup m) = false
  ∧ ∀ tile, tile ∈ hit (length (tiles m)) (selectionBounds s (mousePosition m)) →
      classList_selected <$> tiles (mouseup m) !! tile = Some true.
Proof.
  intros Hs. split; [by apply mouseup_selectedTiles|].
  unfold mouseup, selectTiles. simpl. rewrite Hs.
  split_and!.
  - rewrite (foldl_keeps content) by (intros; apply selectTile_content).
    by destruct (ctrlDown m).
  - rewrite (foldl_keeps mouseDown) by (intros; apply selectTile_pointer).
    by destruct (ctrlDown m).
  - intros tile [Hhit Hseq]%list_elem_of_filter.
    assert (tile < length (tiles m))%nat as Hlen by (apply elem_of_seq in Hseq; lia).
    apply selectTiles_loop_marks; [|done|by destruct (ctrlDown m)].
    by destruct (ctrlDown m).
Qed.

Lemma mousemove_up p m :
  mouseDown m = false → mousemove p m = Returned (with_mousePosition p m).
Proof. intros H. unfold mousemove. simpl. by rewrite H. Qed.

Lemma mousemove_down p m s :
  mouseDown m = true → dragStartPosition m = Some s →
  mousemove p m = Returned (selectTiles true (with_mousePosition p m)).
Proof. intros H Hs. unfold mousemove. simpl. by rewrite H, Hs. Qed.

Lemma click_spec p m :
  mouseDown m = false →
  ∃ m', click p m = Returned m'
        ∧ selectedTiles m'
          = (if ctrlDown m then selectedTiles m else [])
              ++ hit (length (tiles m)) (selectionBounds p p)
        ∧ content m' = content m
        ∧ mouseDown m' = false
        ∧ ∀ tile, tile ∈ hit (length (tiles m)) (selectionBounds p p) →
            classList_selected <$> tiles m' !! tile = Some true.
Proof.
  intros Hup. unfold click. rewrite mousemove_up by done. cbn [and_then].
  set (m1 := with_mousePosition p m).
  destruct (mousedown_spec m1) as (Hsel & Hc & _ & Hp & Hs).
  destruct (mouseup_spec (mousedown m1) p Hs) as (Hsel' & Hc' & Hup' & Hmark).
  destruct (content_fields m1 (mousedown m1) Hc) as (_ & _ & Hctrl & _ & Hlen).
  exists (mouseup (mousedown m1)).
  rewrite Hsel' , Hctrl, Hsel, Hlen, Hp in *.
  split_and!; [done| |by rewrite Hc'|done|done].
  simpl. by destruct (ctrlDown m).
Qed.

Lemma drag_spec p q m :
  mouseDown m = false →
  ∃ m', drag p q m = Returned m'
        ∧ selectedTiles m'
          = (if ctrlDown m then selectedTiles m else [])
              ++ hit (length (tiles m)) (selectionBounds p q)
        ∧ content m' = content m
        ∧ mouseDown m' = false.
Proof.
  intros Hup. unfold drag. rewrite mousemove_up by done. cbn [and_then].
  set (m1 := with_mousePosition p m).
  destruct (mousedown_spec m1) as (Hsel & Hc & Hdown & Hp & Hs).
  rewrite (mousemove_down q (mousedown m1) p) by done. cbn [and_then].
  set (m2 := with_mousePosition q (mousedown m1)).
  destruct (selectTiles_preview m2 p Hs) as (Hsel2 & Hc2 & _ & Hp2 & Hs2).
  destruct (mouseup_spec (selectTiles true m2) p Hs2) as (Hsel3 & Hc3 & Hup3 & _).
  destruct (content_fields m1 (mousedown m1) Hc) as (_ & _ & Hctrl & _ & Hlen).
  destruct (content_fields m2 (selectTiles true m2) Hc2) as (_ & _ & Hctrl2 & _ & Hlen2).
  exists (mouseup (selectTiles true m2)).
  split_and!; [done| |by rewrite Hc3, Hc2|done].
  rewrite Hsel3, Hctrl2, Hsel2, Hlen2, Hp2.
  change (ctrlDown m2) with (ctrlDown (mousedown m1)).
  change (selectedTiles m2) with (selectedTiles (mousedown m1)).
  change (tiles m2) with (tiles (mousedown m1)).
  change (mousePosition m2) with q.
  rewrite Hctrl, Hsel, Hlen.
  change (ctrlDown m1) with (ctrlDown m).
  change (selectedTiles m1) with (selectedTiles m).
  change (tiles m1) with (tiles m).
  by destruct (ctrlDown m).
Qed.

(** ** What [undo] and [redo] restore *)

Lemma grid_recorded ts : grid ts → recorded ts.
Proof.
  intros Hg k t G Ht HG.
  destruct (cell_decompose k) as (r & c & Hr & Hc & ->).
  { rewrite <- (grid_length ts Hg). by eapply lookup_lt_Some. }
  destruct (grid_cell ts r c Hg Hr Hc) as (t' & Ht' & H1 & H2).
  assert (t' = t) as -> by congruence.
  unfold tileData. simpl. rewrite H1, H2, !parseInt_toString. simpl.
  by apply querySelector_cell.
Qed.

Lemma restoreTile_attributes m d :
  attributes <$> tiles (restoreTile m d) = attributes <$> tiles m.
Proof.
  unfold restoreTile. destruct (querySelector _ _ _); [|done].
  rewrite !update_tiles, !fmap_alter_same; done.
Qed.

Lemma restoreTiles_grid (state : list TileData) m :
  grid (tiles m) → grid (tiles (foldl restoreTile m state)).
Proof.
  unfold grid. intros <-.
  apply (foldl_keeps (λ m, attributes <$> tiles m)). intros. apply restoreTile_attributes.
Qed.

Lemma restoreTiles_lookup (l : list Tile) m (i : nat) :
  recorded l → grid (tiles m) →
  tiles (foldl restoreTile m (tileData <$> l)) !! i
  = match l !! i with
    | Some t => restored t <$> tiles m !! i
    | None => tiles m !! i
    end.
Proof.
  intros Hrec Hg. induction l as [|t l IH] using rev_ind; [done|].
  rewrite fmap_app, foldl_app. simpl.
  assert (recorded l) as Hrl.
  { intros k t' G Hk. apply Hrec. by apply lookup_app_l_Some. }
  specialize (IH Hrl).
  set (m1 := foldl restoreTile m _) in *.
  assert (grid (tiles m1)) as Hg1 by by apply restoreTiles_grid.
  unfold restoreTile.
  rewrite (Hrec (length l) t (tiles m1)); [|by rewrite list_lookup_middle|done].
  rewrite update_update, update_tiles.
  destruct (decide (i = length l)) as [->|Hne].
  - rewrite list_lookup_middle by done.
    rewrite (lookup_ge_None_2 l (length l)) in IH by done.
    by rewrite list_lookup_alter_eq, IH.
  - rewrite list_lookup_alter_ne by done. rewrite IH.
    destruct (decide (i < length l)%nat).
    + by rewrite lookup_app_l.
    + rewrite (lookup_ge_None_2 l i) by lia.
      rewrite (lookup_ge_None_2 (l ++ [t]) i); [done|].
      rewrite length_app. simpl. lia.
Qed.

Lemma restoreTiles_snapshot G m :
  grid G → grid (tiles m) →
  tileData <$> tiles (foldl restoreTile m (tileData <$> G)) = tileData <$> G.
Proof.
  intros HG Hg. apply list_eq. intros i.
  rewrite !list_lookup_fmap, restoreTiles_lookup by (done || by apply grid_recorded).
  pose proof (f_equal (λ l, l !! i) HG) as Ha.
  pose proof (f_equal (λ l, l !! i) Hg) as Hb.
  simpl in Ha, Hb. rewrite !list_lookup_fmap in Ha, Hb. rewrite <- Hb in Ha.
  destruct (G !! i) as [t|], (tiles m !! i) as [t0|]; simpl in *; try done.
  injection Ha as Hc Hr. unfold tileData, restored. simpl. by rewrite Hc, Hr.
Qed.

Lemma restoreFromHistory_restores (i : Z) m :
  grid (tiles m) → snapshots m →
  0 ≤ i < Z.of_nat (length (history m)) →
  ∃ m', restoreFromHistory i m = Returned m'
        ∧ index (history m) i = Some (tileData <$> tiles m')
        ∧ grid (tiles m')
        ∧ history m' = history m
        ∧ currentHistoryIndex m' = currentHistoryIndex m.
Proof.
  intros Hg Hs Hi. unfold restoreFromHistory, index.
  destruct (Z.ltb_spec i 0); [lia|].
  destruct (lookup_lt_is_Some_2 (history m) (Z.to_nat i)) as [state Hstate]; [lia|].
  rewrite Hstate.
  unfold snapshots in Hs. rewrite Forall_lookup in Hs.
  destruct (Hs _ _ Hstate) as (G & HG & ->).
  eexists. split_and!; [done| |by apply restoreTiles_grid| |].
  - by rewrite restoreTiles_snapshot.
  - apply (foldl_keeps history), restoreTile_history.
  - apply (foldl_keeps currentHistoryIndex), restoreTile_index.
Qed.

Lemma addToHistory_snapshots m : grid (tiles m) → snapshots m → snapshots (addToHistory m).
Proof.
  intros Hg Hs. unfold snapshots. rewrite addToHistory_history.
  apply Forall_app. split.
  - unfold slice0. by apply Forall_take.
  - apply Forall_singleton. by exists (tiles m).
Qed.

Lemma addToHistory_at_cursor m : at_cursor (addToHistory m).
Proof.
  unfold at_cursor, index.
  rewrite addToHistory_index, addToHistory_history, addToHistory_tiles, length_app.
  simpl. destruct (Z.ltb_spec (Z.of_nat (length (slice0 (history m)
    (currentHistoryIndex m + 1)) + 1) - 1) 0); [lia|].
  replace (Z.to_nat (Z.of_nat (length (slice0 (history m) (currentHistoryIndex m + 1)) + 1) - 1))
    with (length (slice0 (history m) (currentHistoryIndex m + 1))) by lia.
  by rewrite list_lookup_middle.
Qed.

(** Above the first entry, [undo] returns, moves the cursor one entry
    back and leaves the tiles as this entry recorded them. *)
Lemma undo_restores m :
  grid (tiles m) → snapshots m →
  0 < currentHistoryIndex m ≤ Z.of_nat (length (history m)) - 1 →
  ∃ m', undo m = Returned m'
        ∧ currentHistoryIndex m' = currentHistoryIndex m - 1
        ∧ history m' = history m
        ∧ at_cursor m'
        ∧ grid (tiles m').
Proof.
  intros Hg Hs Hi. unfold undo.
  destruct (Z.leb_spec (currentHistoryIndex m) 0); [lia|].
  destruct (restoreFromHistory_restores (currentHistoryIndex m - 1)
              (with_currentHistoryIndex (currentHistoryIndex m - 1) m))
    as (m' & Hret & Hidx & Hg' & Hh & Hc); [done|done|simpl; lia|].
  exists m'. simpl in *. split_and!; [done..| |done].
  unfold at_cursor. by rewrite Hh, Hc.
Qed.

(** Below the last entry, [redo] returns, moves the cursor one entry
    forward and leaves the tiles as this entry recorded them. *)
Lemma redo_restores m :
  grid (tiles m) → snapshots m →
  0 ≤ currentHistoryIndex m < Z.of_nat (length (history m)) - 1 →
  ∃ m', redo m = Returned m'
        ∧ currentHistoryIndex m' = currentHistoryIndex m + 1
        ∧ history m' = history m
        ∧ at_cursor m'
        ∧ grid (tiles m').
Proof.
  intros Hg Hs Hi. unfold redo.
  destruct (Z.leb_spec (Z.of_nat (length (history m)) - 1) (currentHistoryIndex m)); [lia|].
  destruct (restoreFromHistory_restores (currentHistoryIndex m + 1)
              (with_currentHistoryIndex (currentHistoryIndex m + 1) m))
    as (m' & Hret & Hidx & Hg' & Hh & Hc); [done|done|simpl; lia|].
  exists m'. simpl in *. split_and!; [done..| |done].
  unfold at_cursor. by rewrite Hh, Hc.
Qed.

(** X1: inside the stack [undo] and [redo] are inverses: from tiles that are
    as the entry at the cursor recorded them, an [undo] followed by a
    [redo], and a [redo] followed by an [undo], give back the cursor, the
    history and the row, column, background and position of every tile. *)
Theorem undo_redo_inverse (m : Map) :
  grid (tiles m) → snapshots m → at_cursor m →
  (0 < currentHistoryIndex m ≤ Z.of_nat (length (history m)) - 1 →
   ∃ m1 m2, undo m = Returned m1 ∧ redo m1 = Returned m2
            ∧ currentHistoryIndex m1 = currentHistoryIndex m - 1
            ∧ at_cursor m1
            ∧ currentHistoryIndex m2 = currentHistoryIndex m
            ∧ history m2 = history m
            ∧ tileData <$> tiles m2 = tileData <$> tiles m)
  ∧ (0 ≤ currentHistoryIndex m < Z.of_nat (length (history m)) - 1 →
     ∃ m1 m2, redo m = Returned m1 ∧ undo m1 = Returned m2
              ∧ currentHistoryIndex m1 = currentHistoryIndex m + 1
              ∧ at_cursor m1
              ∧ currentHistoryIndex m2 = currentHistoryIndex m
              ∧ history m2 = history m
              ∧ tileData <$> tiles m2 = tileData <$> tiles m).
Proof.
  intros Hg Hs Hat. split; intros Hi.
  - destruct (undo_restores m Hg Hs Hi) as (m1 & Hu & Hi1 & Hh1 & Hat1 & Hg1).
    destruct (redo_restores m1) as (m2 & Hr & Hi2 & Hh2 & Hat2 & Hg2);
      [done|by unfold snapshots; rewrite Hh1|rewrite Hh1; lia|].
    exists m1, m2. split_and!; [done..|lia|congruence|].
    unfold at_cursor in Hat, Hat2. rewrite Hh2, Hh1, Hi2, Hi1 in Hat2.
    replace (currentHistoryIndex m - 1 + 1) with (currentHistoryIndex m) in Hat2 by lia.
    congruence.
  - destruct (redo_restores m Hg Hs Hi) as (m1 & Hr & Hi1 & Hh1 & Hat1 & Hg1).
    destruct (undo_restores m1) as (m2 & Hu & Hi2 & Hh2 & Hat2 & Hg2);
      [done|by unfold snapshots; rewrite Hh1|rewrite Hh1; lia|].
    exists m1, m2. split_and!; [done..|lia|congruence|].
    unfold at_cursor in Hat, Hat2. rewrite Hh2, Hh1, Hi2, Hi1 in Hat2.
    replace (currentHistoryIndex m + 1 - 1) with (currentHistoryIndex m) in Hat2 by lia.
    congruence.
Qed.

(** ** The first draw, and copy, on the code *)

Lemma undo_at_first_entry m : currentHistoryIndex m = 0 → undo m = Returned m.
Proof. intros H. unfold undo. by rewrite H. Qed.

Lemma first_draw_general sprite m :
  history m = [] → currentHistoryIndex m = 0 →
  selectedTiles m ≠ [] → isAutoEnabled m = false →
  ∃ m', drawMap sprite m = Returned m'
        ∧ length (history m') = 1%nat
        ∧ undo m' = Returned m'
        ∧ ∀ tile, tile ∈ selectedTiles m → (tile < length (tiles m))%nat →
            sprite_of <$> tiles m' !! tile = Some (spritesUrl, sprite).
Proof.
  intros Hh Hi Hne Hauto. unfold drawMap.
  destruct (Z.leb_spec (Z.of_nat (length (selectedTiles m))) 0) as [Hlen|_].
  { destruct (selectedTiles m); [done|simpl in Hlen; lia]. }
  set (order := sort (tiles m) (selectedTiles m)).
  set (m1 := with_selectedTiles order m).
  change (selectedTiles m1) with order.
  set (m2 := foldl (drawTile sprite) m1 order).
  assert (isAutoEnabled m2 = false) as -> by (unfold m2; by rewrite (foldl_keeps isAutoEnabled)).
  assert (history m2 = []) as Hh2 by (unfold m2; by rewrite (foldl_keeps history)).
  assert (currentHistoryIndex m2 = 0) as Hi2
    by (unfold m2; by rewrite (foldl_keeps currentHistoryIndex)).
  simpl. eexists. split; [done|].
  split_and!.
  - rewrite addToHistory_history.
    change (history (with_selectedTiles [] m2)) with (history m2).
    by rewrite Hh2, slice0_nil.
  - apply undo_at_first_entry. rewrite addToHistory_index, addToHistory_history.
    change (history (with_selectedTiles [] m2)) with (history m2).
    by rewrite Hh2, slice0_nil.
  - intros tile Htile Hlt. rewrite addToHistory_tiles. simpl.
    assert (tile ∈ order) as Hord by (unfold order; by rewrite sort_perm).
    assert (tile < length (tiles m2))%nat as Hlt2.
    { unfold m2. rewrite drawTiles_update.
      rewrite (foldl_keeps (λ m, length (tiles m))); [done|].
      intros m' j. simpl. by rewrite length_alter. }
    apply lookup_lt_is_Some in Hlt2 as [t Ht]. rewrite Ht. simpl. f_equal.
    unfold m2 in Ht. rewrite drawTiles_update in Ht.
    by apply (foldl_update_elem (λ t, sprite_of t = (spritesUrl, sprite))) in Ht.
Qed.

Lemma copySelected_unmarks m (tile : nat) :
  tile ∈ selectedTiles m → (tile < length (tiles m))%nat →
  tile ∈ selectedTiles (copySelected m)
  ∧ classList_selected <$> tiles (copySelected m) !! tile = Some false.
Proof.
  intros Hin Hlt. split; [by rewrite copySelected_selectedTiles|].
  assert (tile < length (tiles (copySelected m)))%nat as Hlt2.
  { pose proof (f_equal length (copySelected_sprites m)) as H.
    rewrite !length_fmap in H. lia. }
  apply lookup_lt_is_Some in Hlt2 as [t Ht]. rewrite Ht. simpl. f_equal.
  unfold copySelected in Ht.
  by apply (foldl_update_elem (λ t, classList_selected t = false)) in Ht.
Qed.

(** ** Commits, then [undo] and [redo] to the ends of the stack *)

Lemma times_undo_to_first (k : nat) m :
  grid (tiles m) → snapshots m → at_cursor m →
  0 ≤ currentHistoryIndex m ≤ Z.of_nat (length (history m)) - 1 →
  currentHistoryIndex m ≤ Z.of_nat k →
  ∃ u, times k undo m = Returned u
       ∧ currentHistoryIndex u = 0
       ∧ history u = history m
       ∧ at_cursor u
       ∧ grid (tiles u).
Proof.
  revert m. induction k as [|k IH]; intros m Hg Hs Hat Hi Hk.
  - exists m. simpl. split_and!; [done|lia|done..].
  - simpl. destruct (decide (currentHistoryIndex m = 0)) as [H0|Hpos].
    + rewrite undo_at_first_entry by done. cbn [and_then].
      apply IH; [done..|lia].
    + destruct (undo_restores m Hg Hs) as (m1 & Hu & Hi1 & Hh1 & Hat1 & Hg1); [lia|].
      rewrite Hu. cbn [and_then].
      destruct (IH m1) as (u & Hret & Hiu & Hhu & Hatu & Hgu);
        [done|by unfold snapshots; rewrite Hh1|done|rewrite Hh1; lia|lia|].
      exists u. split_and!; [done|done|congruence|done|done].
Qed.

Lemma redo_at_last_entry m :
  Z.of_nat (length (history m)) - 1 ≤ currentHistoryIndex m → redo m = Returned m.
Proof.
  intros H. unfold redo.
  by destruct (Z.leb_spec (Z.of_nat (length (history m)) - 1) (currentHistoryIndex m)); [|lia].
Qed.

Lemma times_redo_to_last (k : nat) m :
  grid (tiles m) → snapshots m → at_cursor m →
  0 ≤ currentHistoryIndex m ≤ Z.of_nat (length (history m)) - 1 →
  Z.of_nat (length (history m)) - 1 - currentHistoryIndex m ≤ Z.of_nat k →
  ∃ r, times k redo m = Returned r
       ∧ currentHistoryIndex r = Z.of_nat (length (history m)) - 1
       ∧ history r = history m
       ∧ at_cursor r
       ∧ grid (tiles r).
Proof.
  revert m. induction k as [|k IH]; intros m Hg Hs Hat Hi Hk.
  - exists m. simpl. split_and!; [done|lia|done..].
  - simpl.
    destruct (decide (currentHistoryIndex m = Z.of_nat (length (history m)) - 1))
      as [Hlast|Hbelow].
    + rewrite redo_at_last_entry by lia. cbn [and_then].
      apply IH; [done..|lia].
    + destruct (redo_restores m Hg Hs) as (m1 & Hr & Hi1 & Hh1 & Hat1 & Hg1); [lia|].
      rewrite Hr. cbn [and_then].
      destruct (IH m1) as (r & Hret & Hir & Hhr & Hatr & Hgr);
        [done|by unfold snapshots; rewrite Hh1|done|rewrite Hh1; lia|rewrite Hh1; lia|].
      exists r. split_and!; [done|congruence|congruence|done|done].
Qed.

Lemma slice0_all {A} (l : list A) (e : Z) : Z.of_nat (length l) ≤ e → slice0 l e = l.
Proof.
  intros He. rewrite slice0_take by lia. apply take_ge. lia.
Qed.

Lemma committed_first f :
  mutation f → committed_state (tileData <$> tiles (committed init f)) (committed init f)
               ∧ length (history (committed init f)) = 1%nat.
Proof.
  intros Hf. destruct (Hf init init_grid) as (Hg & Hh & Hi).
  unfold committed_state, committed.
  assert (history (addToHistory (f init)) = [tileData <$> tiles (f init)]) as Hhist.
  { rewrite addToHistory_history, Hh. simpl. by rewrite slice0_nil. }
  split_and!.
  - by rewrite addToHistory_tiles.
  - apply addToHistory_snapshots; [done|]. unfold snapshots. rewrite Hh. apply Forall_nil_2.
  - apply addToHistory_at_cursor.
  - apply addToHistory_index.
  - by rewrite Hhist, addToHistory_tiles.
  - by rewrite Hhist.
Qed.

Lemma committed_next first m f :
  mutation f → committed_state first m → history m ≠ [] →
  committed_state first (committed m f)
  ∧ length (history (committed m f)) = S (length (history m)).
Proof.
  intros Hf (Hg & Hs & Hat & Hi & Hfirst) Hne.
  destruct (Hf m Hg) as (Hg' & Hh & Hi').
  unfold committed_state, committed.
  assert (history (addToHistory (f m)) = history m ++ [tileData <$> tiles (f m)]) as Hhist.
  { rewrite addToHistory_history, Hh, Hi', slice0_all by lia. done. }
  split_and!.
  - by rewrite addToHistory_tiles.
  - apply addToHistory_snapshots; [done|]. unfold snapshots. by rewrite Hh.
  - apply addToHistory_at_cursor.
  - apply addToHistory_index.
  - rewrite Hhist. by apply lookup_app_l_Some.
  - rewrite Hhist, length_app. simpl. lia.
Qed.

Lemma committed_all first (fs : list (Map → Map)) m :
  Forall mutation fs → committed_state first m → history m ≠ [] →
  committed_state first (foldl committed m fs)
  ∧ length (history (foldl committed m fs)) = (length (history m) + length fs)%nat.
Proof.
  intros Hfs. revert m. induction Hfs as [|f fs Hf Hfs IH]; intros m Hm Hne; simpl.
  - split; [done|lia].
  - destruct (committed_next first m f Hf Hm Hne) as [Hm' Hlen].
    destruct (IH (committed m f) Hm') as [Hall Hlen'].
    { intros Hnil. rewrite Hnil in Hlen. done. }
    split; [done|]. rewrite Hlen', Hlen. lia.
Qed.

(** X2: after [n] committed mutations on the fresh editor the history
    holds [n] snapshots; [n] calls of [undo] return and leave the tiles as
    they were after the first mutation, with the cursor on the first entry,
    and [n] calls of [redo] then return and leave the tiles as they were
    after the last mutation. *)
Theorem undo_all_then_redo_all (f : Map → Map) (fs : list (Map → Map)) :
  mutation f → Forall mutation fs →
  let first := committed init f in
  let final := foldl committed first fs in
  let n := S (length fs) in
  length (history final) = n
  ∧ ∃ u, times n undo final = Returned u
         ∧ currentHistoryIndex u = 0
         ∧ tileData <$> tiles u = tileData <$> tiles first
         ∧ ∃ r, times n redo u = Returned r
                ∧ currentHistoryIndex r = Z.of_nat n - 1
                ∧ tileData <$> tiles r = tileData <$> tiles final.
Proof.
  intros Hf Hfs first final n.
  destruct (committed_first f Hf) as [Hfirst Hlen1]. fold first in Hfirst, Hlen1.
  destruct (committed_all _ fs first Hfs Hfirst) as [Hfinal Hlen].
  { intros Hnil. by rewrite Hnil in Hlen1. }
  fold final in Hfinal, Hlen. rewrite Hlen1 in Hlen.
  destruct Hfinal as (Hg & Hs & Hat & Hi & H0).
  split; [by rewrite Hlen|].
  destruct (times_undo_to_first n final) as (u & Hu & Hiu & Hhu & Hatu & Hgu);
    [done|done|done|lia|unfold n; lia|].
  exists u. split_and!; [done|done| |].
  - unfold at_cursor in Hatu. rewrite Hiu, Hhu in Hatu.
    change (history final !! 0%nat = Some (tileData <$> tiles u)) in Hatu. congruence.
  - destruct (times_redo_to_last n u) as (r & Hr & Hir & Hhr & Hatr & Hgr);
      [done|by unfold snapshots; rewrite Hhu|done|rewrite Hhu; lia
      |rewrite Hhu; unfold n; lia|].
    exists r. split_and!; [done|rewrite Hir, Hhu, Hlen; unfold n; lia|].
    unfold at_cursor in Hat, Hatr. rewrite Hir, Hhr, Hhu, <- Hi, Hat in Hatr. congruence.
Qed.

(** An assignment to the style of one tile is a mutation. *)
Lemma update_mutation (tile : nat) (f : Tile → Tile) :
  (∀ t, attributes (f t) = attributes t) → mutation (update tile f).
Proof.
  intros Hattr m Hg. split_and!; [|done..].
  unfold grid in *. simpl. by rewrite fmap_alter_same.
Qed.

(** The cut and the delete of the editor are committed mutations. *)
Lemma cutSelected_committed :
  (∀ m, cutSelected m = committed m (λ m, foldl clearSprite (copySelected m) (selectedTiles m)))
  ∧ mutation (λ m, foldl clearSprite (copySelected m) (selectedTiles m)).
Proof.
  split; [apply cutSelected_as_specified|].
  intros m Hg. unfold clearSprite.
  rewrite (foldl_keeps history), (foldl_keeps currentHistoryIndex) by done.
  destruct (copySelected_history m) as [-> ->]. split_and!; [|done..].
  unfold grid in *. rewrite foldl_update_fmap by done. rewrite <- Hg.
  unfold copySelected. by rewrite foldl_update_fmap.
Qed.

Lemma deleteSelected_committed :
  (∀ m, deleteSelected m
        = committed m (λ m, with_selectedTiles []
                              (foldl (λ m tile, update tile (set_selected false)
                                                  (update tile (set_background "transparent") m))
                                     m (selectedTiles m))))
  ∧ mutation (λ m, with_selectedTiles []
                     (foldl (λ m tile, update tile (set_selected false)
                                         (update tile (set_background "transparent") m))
                            m (selectedTiles m))).
Proof.
  split; [done|].
  intros m Hg. simpl.
  rewrite (foldl_keeps history), (foldl_keeps currentHistoryIndex) by done.
  split_and!; [|done..].
  unfold grid in *. rewrite <- Hg.
  apply (foldl_keeps (λ m, attributes <$> tiles m)).
  intros m' tile. simpl. by rewrite !fmap_alter_same.
Qed.

(** ** Every state of the editor is well formed *)

Lemma content_tiles m m' :
  content m' = content m →
  attributes <$> tiles m' = attributes <$> tiles m
  ∧ sprite_of <$> tiles m' = sprite_of <$> tiles m.
Proof.
  intros Hc. apply (f_equal snd) in Hc. simpl in Hc.
  split.
  - apply (f_equal (fmap fst)) in Hc. by rewrite <- !list_fmap_compose in Hc.
  - apply (f_equal (fmap snd)) in Hc. by rewrite <- !list_fmap_compose in Hc.
Qed.

Lemma content_clipboard m m' :
  content m' = content m →
  coppiedTiles m' = coppiedTiles m
  ∧ tileUnderCoursor m' = tileUnderCoursor m
  ∧ beforePasteState m' = beforePasteState m
  ∧ coppiedTileData m' = coppiedTileData m.
Proof. unfold content. intros Hc. by simplify_eq. Qed.

Lemma valid_length ts ts' l : length ts' = length ts → valid ts l → valid ts' l.
Proof. unfold valid. by intros ->. Qed.

(** A handler that keeps the content keeps the state well formed, if the
    selection stays inside the tiles. *)
Lemma consistent_content m m' :
  content m' = content m → consistent m →
  valid (tiles m') (selectedTiles m') →
  (mouseDown m' = true → dragStartPosition m' ≠ None) →
  consistent m'.
Proof.
  intros Hc (Hg & Hsel & Hcop & Hanchor & Hbefore & Hdown & Hcur & Hsnap & Hclip) Hv Hd.
  destruct (content_tiles _ _ Hc) as [Hattr _].
  destruct (content_clipboard _ _ Hc) as (Hct & Htu & Hbp & Hcd).
  destruct (content_fields _ _ Hc) as (Hh & Hi & _ & _ & Hlen).
  unfold consistent, snapshots. rewrite Hct, Htu, Hbp, Hcd, Hh, Hi, Hlen.
  split_and!; try done; try (by destruct Hcur).
  - unfold grid. by rewrite Hattr.
  - by apply (valid_length (tiles m)).
Qed.

(** A handler that rewrites tiles of the grid and keeps every other field
    keeps the state well formed. *)
Lemma consistent_tiles m m' :
  consistent m → grid (tiles m') → controller m' = controller m →
  history m' = history m → currentHistoryIndex m' = currentHistoryIndex m →
  consistent m'.
Proof.
  intros (Hg & Hsel & Hcop & Hanchor & Hbefore & Hdown & Hcur & Hsnap & Hclip) Hg' Hc Hh Hi.
  assert (length (tiles m') = length (tiles m)) as Hlen
    by by rewrite !grid_length.
  unfold controller in Hc. simplify_eq.
  unfold consistent, snapshots.
  repeat match goal with H : _ m' = _ m |- _ => rewrite H; clear H end.
  split_and!; try done; try (by destruct Hcur);
    try (by apply (valid_length (tiles m))).
  by rewrite Hlen.
Qed.

Lemma consistent_selectedTiles l m :
  consistent m → valid (tiles m) l → consistent (with_selectedTiles l m).
Proof.
  intros (Hg & Hsel & Hcop & Hanchor & Hbefore & Hdown & Hcur & Hsnap & Hclip) Hv.
  unfold consistent. simpl. split_and!; try done; by destruct Hcur.
Qed.

Lemma addToHistory_consistent m : consistent m → consistent (addToHistory m).
Proof.
  intros (Hg & Hsel & Hcop & Hanchor & Hbefore & Hdown & Hcur & Hsnap & Hclip).
  pose proof (addToHistory_controller m) as Hc. unfold controller in Hc. simplify_eq.
  unfold consistent. rewrite addToHistory_tiles.
  repeat match goal with H : _ (addToHistory m) = _ m |- _ => rewrite H; clear H end.
  split_and!; try done.
  - rewrite addToHistory_index, addToHistory_history, length_app. simpl. lia.
  - rewrite addToHistory_index. lia.
  - by apply addToHistory_snapshots.
Qed.

Lemma init_consistent : consistent init.
Proof.
  unfold consistent, snapshots, valid. simpl.
  split_and!; done || apply Forall_nil_2.
Qed.


Lemma hit_valid ts b : valid ts (hit (length ts) b).
Proof.
  unfold valid, hit. apply Forall_forall. intros i Hi.
  apply list_elem_of_filter in Hi as [_ Hi]. apply elem_of_seq in Hi. lia.
Qed.

Lemma content_valid m m' l :
  content m' = content m → valid (tiles m) l → valid (tiles m') l.
Proof.
  intros Hc. apply valid_length. by destruct (content_fields _ _ Hc) as (_ & _ & _ & _ & ?).
Qed.

Lemma mousemove_consistent p m :
  consistent m → ∃ m', mousemove p m = Returned m' ∧ consistent m'.
Proof.
  intros Hm. pose proof Hm as (Hg & Hsel & _ & _ & _ & Hdown & _).
  destruct (mouseDown m) eqn:Hd.
  - destruct (dragStartPosition m) as [s|] eqn:Hs; [|by destruct Hdown].
    rewrite (mousemove_down p m s) by done.
    eexists. split; [done|].
    destruct (selectTiles_preview (with_mousePosition p m) s Hs)
      as (Hsel' & Hc & Hmd & _ & Hds).
    apply (consistent_content m); [done|done| |].
    + apply (content_valid m); [done|]. rewrite Hsel'. simpl.
      destruct (ctrlDown m); [done|apply Forall_nil_2].
    + intros _. by rewrite Hds.
  - rewrite mousemove_up by done. eexists. split; [done|].
    apply (consistent_content m); [done|done|done|]. simpl. by rewrite Hd.
Qed.

Lemma mousedown_consistent m : consistent m → consistent (mousedown m).
Proof.
  intros Hm. pose proof Hm as (Hg & Hsel & _).
  destruct (mousedown_spec m) as (Hsel' & Hc & _ & _ & Hds).
  apply (consistent_content m); [done|done| |].
  - apply (content_valid m); [done|]. rewrite Hsel'.
    destruct (ctrlDown m); [done|apply Forall_nil_2].
  - intros _. by rewrite Hds.
Qed.

Lemma mouseup_consistent m : consistent m → consistent (mouseup m).
Proof.
  intros Hm. pose proof Hm as (Hg & Hsel & _).
  destruct (dragStartPosition m) as [s|] eqn:Hs.
  - destruct (mouseup_spec m s Hs) as (Hsel' & Hc & Hmd & _).
    apply (consistent_content m); [done|done| |by rewrite Hmd].
    apply (content_valid m); [done|]. rewrite Hsel'. apply Forall_app. split.
    + destruct (ctrlDown m); [done|apply Forall_nil_2].
    + apply hit_valid.
  - unfold mouseup, selectTiles. simpl. rewrite Hs.
    apply (consistent_content m); done.
Qed.

Lemma mouseover_anchor tile m :
  beforePasteState m = [] → mouseover tile m = with_tileUnderCoursor (Some tile) m.
Proof. intros Hb. unfold mouseover. simpl. by rewrite Hb. Qed.

Lemma mouseover_consistent (i j : nat) m :
  (i < mapRowsCount)%nat → (j < mapColsCount)%nat →
  consistent m → consistent (mouseover (cell i j) m).
Proof.
  intros Hi Hj (Hg & Hsel & Hcop & Hanchor & Hbefore & Hdown & Hcur & Hsnap & Hclip).
  rewrite mouseover_anchor by done.
  unfold consistent. simpl. split_and!; try done; try (by destruct Hcur).
  intros tile [= <-]. rewrite (grid_length _ Hg). by apply cell_lt.
Qed.

Lemma element_cell ts (tile : nat) :
  grid ts → (tile < length ts)%nat →
  is_Some (cell_at (row (tileData (ts !!! tile))) (col (tileData (ts !!! tile)))).
Proof.
  intros Hg Hlt. rewrite (grid_length _ Hg) in Hlt.
  destruct (cell_decompose tile Hlt) as (r & c & Hr & Hc & ->).
  unfold tileData. simpl.
  destruct (grid_parse ts r c Hg Hr Hc) as [-> ->].
  unfold cell_at.
  destruct (Z.leb_spec 0 (Z.of_nat r)); [|lia].
  destruct (Z.ltb_spec (Z.of_nat r) (Z.of_nat mapRowsCount)); [|lia].
  destruct (Z.leb_spec 0 (Z.of_nat c)); [|lia].
  destruct (Z.ltb_spec (Z.of_nat c) (Z.of_nat mapColsCount)); [|lia].
  by eexists.
Qed.

Lemma copySelected_grid m : grid (tiles m) → grid (tiles (copySelected m)).
Proof.
  intros Hg. unfold grid in *. rewrite <- Hg. unfold copySelected.
  by rewrite foldl_update_fmap.
Qed.

Lemma copySelected_fields m :
  coppiedTiles (copySelected m) = selectedTiles m
  ∧ coppiedTileData (copySelected m)
    = (λ tile, tileData (element m tile)) <$> selectedTiles m
  ∧ tileUnderCoursor (copySelected m) = tileUnderCoursor m
  ∧ beforePasteState (copySelected m) = beforePasteState m
  ∧ mouseDown (copySelected m) = mouseDown m
  ∧ dragStartPosition (copySelected m) = dragStartPosition m
  ∧ isAutoEnabled (copySelected m) = isAutoEnabled m
  ∧ ctrlDown (copySelected m) = ctrlDown m.
Proof.
  unfold copySelected.
  split_and!;
    [rewrite (foldl_keeps coppiedTiles) by done
    |rewrite (foldl_keeps coppiedTileData) by done
    |rewrite (foldl_keeps tileUnderCoursor) by done
    |rewrite (foldl_keeps beforePasteState) by done
    |rewrite (foldl_keeps mouseDown) by done
    |rewrite (foldl_keeps dragStartPosition) by done
    |rewrite (foldl_keeps isAutoEnabled) by done
    |rewrite (foldl_keeps ctrlDown) by done]; done.
Qed.

Lemma copySelected_consistent m : consistent m → consistent (copySelected m).
Proof.
  intros (Hg & Hsel & Hcop & Hanchor & Hbefore & Hdown & Hcur & Hsnap & Hclip).
  assert (length (tiles (copySelected m)) = length (tiles m)) as Hlen.
  { rewrite !grid_length; [done|done|by apply copySelected_grid]. }
  unfold consistent, snapshots.
  destruct (copySelected_history m) as [-> ->].
  destruct (copySelected_fields m) as (-> & -> & -> & -> & -> & -> & _).
  rewrite copySelected_selectedTiles, Hlen.
  split_and!; try done; try (by destruct Hcur);
    try (by apply (valid_length (tiles m))).
  - by apply copySelected_grid.
  - apply Forall_fmap. apply Forall_forall. intros tile Htile. simpl.
    apply element_cell; [done|]. unfold valid in Hsel. rewrite Forall_forall in Hsel. auto.
Qed.

(** A loop that rewrites tiles and keeps their attributes and every other
    field keeps the state well formed. *)
Lemma foldl_consistent {B} (step : Map → B → Map) (l : list B) m :
  (∀ m b, attributes <$> tiles (step m b) = attributes <$> tiles m) →
  (∀ m b, controller (step m b) = controller m) →
  (∀ m b, history (step m b) = history m) →
  (∀ m b, currentHistoryIndex (step m b) = currentHistoryIndex m) →
  consistent m → consistent (foldl step m l).
Proof.
  intros Ha Hc Hh Hi Hm. pose proof Hm as (Hg & _).
  apply (consistent_tiles m); [done| |by apply (foldl_keeps controller)
    |by apply (foldl_keeps history)|by apply (foldl_keeps currentHistoryIndex)].
  unfold grid in *. rewrite <- Hg.
  by apply (foldl_keeps (λ m, attributes <$> tiles m)).
Qed.

Lemma update_attributes (tile : nat) f m :
  (∀ t, attributes (f t) = attributes t) →
  attributes <$> tiles (update tile f m) = attributes <$> tiles m.
Proof. intros Hf. simpl. by apply fmap_alter_same. Qed.

Lemma cutSelected_consistent m : consistent m → consistent (cutSelected m).
Proof.
  intros Hm. unfold cutSelected. apply addToHistory_consistent.
  apply foldl_consistent; [|done..|by apply copySelected_consistent].
  intros m' tile. by apply update_attributes.
Qed.

Lemma deleteSelected_consistent m : consistent m → consistent (deleteSelected m).
Proof.
  intros Hm. unfold deleteSelected. apply addToHistory_consistent.
  apply consistent_selectedTiles; [|apply Forall_nil_2].
  apply foldl_consistent; [|done..].
  intros m' tile. by rewrite !update_attributes.
Qed.

Lemma pasteTile_attributes ar ac rr rc m data :
  attributes <$> tiles (pasteTile ar ac rr rc m data) = attributes <$> tiles m.
Proof.
  unfold pasteTile. destruct (querySelector _ _ _); [|done].
  by rewrite !update_attributes.
Qed.

Lemma paste_consistent m : consistent m → consistent (paste m).
Proof.
  intros Hm. unfold paste.
  destruct (coppiedTileData m) as [|first rest] eqn:Hclip; [done|].
  destruct (tileUnderCoursor m) as [anchorTile|]; [|done].
  apply addToHistory_consistent.
  apply foldl_consistent; [apply pasteTile_attributes| | | |done];
    intros m' d; unfold pasteTile; by destruct (querySelector _ _ _).
Qed.

Lemma consistent_cursor (i : Z) m :
  consistent m → 0 ≤ i ≤ Z.max 0 (Z.of_nat (length (history m)) - 1) →
  consistent (with_currentHistoryIndex i m).
Proof.
  intros (Hg & Hsel & Hcop & Hanchor & Hbefore & Hdown & Hcur & Hsnap & Hclip) Hi.
  unfold consistent, snapshots. simpl. split_and!; try done; by destruct Hi.
Qed.

Lemma restoreFromHistory_consistent (i : Z) m :
  consistent m → 0 ≤ i < Z.of_nat (length (history m)) →
  ∃ m', restoreFromHistory i m = Returned m' ∧ consistent m'.
Proof.
  intros Hm Hi. unfold restoreFromHistory, index.
  destruct (Z.ltb_spec i 0); [lia|].
  destruct (lookup_lt_is_Some_2 (history m) (Z.to_nat i)) as [state ->]; [lia|].
  eexists. split; [done|].
  apply foldl_consistent;
    [apply restoreTile_attributes|apply restoreTile_controller
    |apply restoreTile_history|apply restoreTile_index|done].
Qed.

Lemma undo_consistent m : consistent m → ∃ m', undo m = Returned m' ∧ consistent m'.
Proof.
  intros Hm. pose proof Hm as (_ & _ & _ & _ & _ & _ & Hcur & _).
  unfold undo. destruct (Z.leb_spec (currentHistoryIndex m) 0); [by eexists|].
  apply restoreFromHistory_consistent.
  - apply consistent_cursor; [done|lia].
  - simpl. lia.
Qed.

Lemma redo_consistent m : consistent m → ∃ m', redo m = Returned m' ∧ consistent m'.
Proof.
  intros Hm. pose proof Hm as (_ & _ & _ & _ & _ & _ & Hcur & _).
  unfold redo.
  destruct (Z.leb_spec (Z.of_nat (length (history m)) - 1) (currentHistoryIndex m));
    [by eexists|].
  apply restoreFromHistory_consistent.
  - apply consistent_cursor; [done|lia].
  - simpl. lia.
Qed.

Lemma consistent_ctrlDown b m : consistent m → consistent (with_ctrlDown b m).
Proof.
  intros (Hg & Hsel & Hcop & Hanchor & Hbefore & Hdown & Hcur & Hsnap & Hclip).
  unfold consistent, snapshots. simpl. split_and!; try done; by destruct Hcur.
Qed.

Lemma keydown_consistent e m :
  consistent m → ∃ m', keydown e m = Returned m' ∧ consistent m'.
Proof.
  intros Hm. unfold keydown. cbv zeta.
  repeat match goal with |- context [if ?b then _ else _] => destruct b end;
    try (by apply undo_consistent); try (by apply redo_consistent);
    (eexists; split; [done|]);
    auto using deleteSelected_consistent, copySelected_consistent,
      cutSelected_consistent, paste_consistent, consistent_ctrlDown.
Qed.

Lemma keyup_consistent e m : consistent m → consistent (keyup e m).
Proof.
  intros Hm. unfold keyup. destruct (_ || _); [|done]. by apply consistent_ctrlDown.
Qed.

Lemma loadTile_controller m data : controller (loadTile m data) = controller m.
Proof.
  unfold loadTile. destruct (querySelector _ _ _); [|done]. by destruct (negb _).
Qed.

Lemma loadMapFromFile_consistent mapData m :
  consistent m → consistent (loadMapFromFile mapData m).
Proof.
  intros Hm. unfold loadMapFromFile.
  apply foldl_consistent;
    [apply loadTile_attributes|apply loadTile_controller
    |apply loadTile_history|apply loadTile_history|done].
Qed.

(** *** Drawing *)

Lemma next_cell_valid ts (r c : nat) :
  grid ts → (r < mapRowsCount)%nat → (c < mapColsCount)%nat → valid ts (next_cell r c).
Proof.
  intros Hg Hr Hc. unfold valid, next_cell. rewrite (grid_length _ Hg).
  destruct (decide (c = mapColsCount - 1)%nat);
    [destruct (decide (r = mapRowsCount - 1)%nat); [apply Forall_nil_2|]|];
    apply Forall_singleton; apply cell_lt; lia.
Qed.

(** The state [selectNextTile] leaves behind on a grid. *)
Lemma selectNextTile_returns m (r c : nat) :
  grid (tiles m) → (r < mapRowsCount)%nat → (c < mapColsCount)%nat →
  last (selectedTiles m) = Some (cell r c) →
  selectNextTile m
  = Returned (foldl selectNext (with_selectedTiles [] m) (next_cell r c)).
Proof.
  intros Hg Hr Hc Hlast. unfold selectNextTile, element. rewrite Hlast.
  destruct (grid_parse (tiles m) r c Hg Hr Hc) as [-> ->].
  unfold next_cell, ge, add, number_toString.
  destruct (decide (c = mapColsCount - 1)%nat) as [Hcl|Hcl].
  - destruct (Z.leb_spec (Z.of_nat mapColsCount - 1) (Z.of_nat c)); [|lia].
    destruct (decide (r = mapRowsCount - 1)%nat) as [Hrl|Hrl].
    + by destruct (Z.leb_spec (Z.of_nat mapRowsCount - 1) (Z.of_nat r)); [|lia].
    + destruct (Z.leb_spec (Z.of_nat mapRowsCount - 1) (Z.of_nat r)); [lia|].
      simpl. rewrite <- toString_0.
      replace (Z.of_nat r + 1) with (Z.of_nat (S r)) by lia.
      change 0 with (Z.of_nat 0).
      by rewrite querySelector_cell by (done || lia).
  - destruct (Z.leb_spec (Z.of_nat mapColsCount - 1) (Z.of_nat c)); [lia|].
    simpl.
    replace (Z.of_nat c + 1) with (Z.of_nat (S c)) by lia.
    by rewrite querySelector_cell by (done || lia).
Qed.

Lemma drawTile_attributes sprite m tile :
  attributes <$> tiles (drawTile sprite m tile) = attributes <$> tiles m.
Proof. unfold drawTile. by rewrite !update_attributes. Qed.

Lemma sort_valid ts l : valid ts l → valid ts (sort ts l).
Proof. unfold valid. by rewrite sort_perm. Qed.

Lemma sort_last ts l :
  l ≠ [] → ∃ lastTile, last (sort ts l) = Some lastTile ∧ lastTile ∈ l.
Proof.
  intros Hne. destruct (last (sort ts l)) as [lastTile|] eqn:Hlast.
  - exists lastTile. split; [done|].
    apply last_Some_elem_of in Hlast. by rewrite sort_perm in Hlast.
  - apply last_None in Hlast. pose proof (sort_perm ts l) as Hperm.
    rewrite Hlast in Hperm. by apply Permutation_nil in Hperm.
Qed.

Lemma select_next_consistent m (l : list HTMLDivElement) :
  consistent m → valid (tiles m) l →
  consistent (foldl selectNext (with_selectedTiles [] m) l).
Proof.
  intros Hm Hl.
  assert (consistent (with_selectedTiles [] m)) as H0
    by (apply consistent_selectedTiles; [done|apply Forall_nil_2]).
  change (tiles m) with (tiles (with_selectedTiles [] m)) in Hl.
  revert H0 Hl. generalize (with_selectedTiles [] m). clear Hm m.
  induction l as [|n l IH]; intros m Hm Hl; simpl; [done|].
  apply Forall_cons in Hl as [Hn Hl].
  pose proof Hm as (Hg & Hsel & _).
  assert (consistent (update n (set_selected true) m)) as Hu.
  { apply (consistent_tiles m); [done| |done..]. by apply grid_alter. }
  apply IH.
  - apply consistent_selectedTiles; [done|]. simpl.
    apply Forall_app. split; [|apply Forall_singleton];
      unfold valid; rewrite ?length_alter; done.
  - simpl. unfold valid. by rewrite length_alter.
Qed.

Lemma drawMap_consistent sprite m :
  consistent m → ∃ m', drawMap sprite m = Returned m' ∧ consistent m'.
Proof.
  intros Hm. pose proof Hm as (Hg & Hsel & _).
  unfold drawMap.
  destruct (Z.leb_spec (Z.of_nat (length (selectedTiles m))) 0) as [|Hlen]; [by eexists|].
  assert (selectedTiles m ≠ []) as Hne by (intros Hnil; rewrite Hnil in Hlen; simpl in Hlen; lia).
  set (m1 := with_selectedTiles (sort (tiles m) (selectedTiles m)) m).
  assert (consistent m1) as Hm1
    by (apply consistent_selectedTiles; [done|by apply sort_valid]).
  set (m2 := foldl (drawTile sprite) m1 (selectedTiles m1)).
  assert (consistent m2) as Hm2.
  { apply foldl_consistent; [apply drawTile_attributes|done..]. }
  assert (selectedTiles m2 = sort (tiles m) (selectedTiles m)) as Hsel2.
  { unfold m2. by rewrite (foldl_keeps selectedTiles). }
  destruct (isAutoEnabled m2).
  - destruct (sort_last (tiles m) (selectedTiles m) Hne) as (lastTile & Hlast & Hin).
    pose proof Hm2 as (Hg2 & _).
    assert (lastTile < mapRowsCount * mapColsCount)%nat as Hlt.
    { rewrite <- (grid_length _ Hg). unfold valid in Hsel.
      rewrite Forall_forall in Hsel. auto. }
    destruct (cell_decompose lastTile Hlt) as (r & c & Hr & Hc & ->).
    rewrite (selectNextTile_returns m2 r c) by (done || by rewrite Hsel2).
    eexists. split; [done|]. apply addToHistory_consistent.
    apply select_next_consistent; [done|by apply next_cell_valid].
  - eexists. split; [done|]. apply addToHistory_consistent.
    apply consistent_selectedTiles; [done|apply Forall_nil_2].
Qed.

(** On a well-formed state the handler of every event returns, and it leaves
    a well-formed state. *)
Lemma handle_consistent ev m :
  consistent m → enabled ev → ∃ m', handle ev m = Returned m' ∧ consistent m'.
Proof.
  intros Hm Hev. destruct ev as [p| | |i j|checked|e|e|i j|mapData]; simpl.
  - by apply mousemove_consistent.
  - eexists. split; [done|]. by apply mousedown_consistent.
  - eexists. split; [done|]. by apply mouseup_consistent.
  - destruct Hev. eexists. split; [done|]. by apply mouseover_consistent.
  - eexists. split; [done|].
    destruct Hm as (Hg & Hsel & Hcop & Hanchor & Hbefore & Hdown & Hcur & Hsnap & Hclip).
    unfold consistent, snapshots. simpl. split_and!; try done; by destruct Hcur.
  - by apply keydown_consistent.
  - eexists. split; [done|]. by apply keyup_consistent.
  - by apply drawMap_consistent.
  - eexists. split; [done|]. by apply loadMapFromFile_consistent.
Qed.

Lemma reachable_consistent m : reachable m → consistent m.
Proof.
  induction 1 as [|ev m _ IH Hev]; [apply init_consistent|].
  by destruct (handle_consistent ev m IH Hev) as (m' & -> & Hm').
Qed.

(** ** The marker and the selection *)

Lemma includes_app_ne (tile a : nat) (l : list HTMLDivElement) (b : bool) :
  tile ≠ a → includes tile (l ++ (if b then [a] else [])) = includes tile l.
Proof.
  intros Hne. unfold includes. apply bool_decide_ext.
  destruct b; [|by rewrite app_nil_r].
  rewrite elem_of_app, list_elem_of_singleton.
  split; [intros [?|?]; [done|congruence]|by left].
Qed.

(** The marker of a tile after its turn in the loop of [selectTiles]. *)
Lemma selectTile_marker selecting b m (tile : nat) t :
  tiles m !! tile = Some t →
  classList_selected <$> tiles (selectTile selecting b m tile) !! tile
  = Some (intersects (tilePosition tile) b
          || (includes tile (selectedTiles m) && classList_selected t)).
Proof.
  intros Ht. unfold selectTile, element.
  rewrite (list_lookup_total_correct _ _ _ Ht).
  destruct (includes tile (selectedTiles m)), (classList_selected t) eqn:Hsel,
    (intersects (tilePosition tile) b), selecting; simpl;
    rewrite ?list_lookup_alter_eq, ?Ht; simpl; by rewrite ?Hsel.
Qed.

(** The marker of a tile after the loop of [selectTiles]. *)
Lemma selectTiles_loop_marker selecting b (l : list HTMLDivElement) m (tile : nat) t :
  NoDup l → tiles m !! tile = Some t →
  classList_selected <$> tiles (foldl (selectTile selecting b) m l) !! tile
  = Some (if bool_decide (tile ∈ l)
          then intersects (tilePosition tile) b
               || (includes tile (selectedTiles m) && classList_selected t)
          else classList_selected t).
Proof.
  intros Hnd. revert m t.
  induction Hnd as [|a l Ha Hnd IH]; intros m t Ht; simpl.
  { by rewrite Ht. }
  destruct (decide (tile = a)) as [->|Hne].
  - pose proof (selectTile_marker selecting b m a t Ht) as Hm.
    destruct (tiles (selectTile selecting b m a) !! a) as [t'|] eqn:Ht'; [|done].
    rewrite (IH _ t' Ht').
    rewrite (bool_decide_eq_false_2 _ Ha), bool_decide_eq_true_2 by left.
    simpl in Hm. by injection Hm as ->.
  - rewrite (IH _ t) by by rewrite selectTile_lookup_ne.
    rewrite selectTile_selectedTiles, includes_app_ne by done.
    f_equal. rewrite (bool_decide_ext (tile ∈ a :: l) (tile ∈ l)); [done|].
    rewrite elem_of_cons. split; [intros [?|?]; [congruence|done]|by right].
Qed.

Lemma mouseup_unfold m s :
  dragStartPosition m = Some s →
  mouseup m
  = foldl (selectTile false (selectionBounds s (mousePosition m)))
      (if ctrlDown m
       then with_mouseDown false (with_dragEndPosition (Some (mousePosition m)) m)
       else with_selectedTiles []
              (with_mouseDown false (with_dragEndPosition (Some (mousePosition m)) m)))
      (seq 0 (length (tiles m))).
Proof.
  intros Hs. unfold mouseup, selectTiles. simpl. rewrite Hs. by destruct (ctrlDown m).
Qed.

Lemma preview_unfold m s :
  dragStartPosition m = Some s →
  selectTiles true m
  = foldl (selectTile true (selectionBounds s (mousePosition m)))
      (if ctrlDown m
       then with_dragEndPosition (Some (mousePosition m)) m
       else with_selectedTiles [] (with_dragEndPosition (Some (mousePosition m)) m))
      (seq 0 (length (tiles m))).
Proof.
  intros Hs. unfold selectTiles. simpl. rewrite Hs. by destruct (ctrlDown m).
Qed.

Lemma includes_nil (tile : nat) : includes tile [] = false.
Proof. unfold includes. apply bool_decide_eq_false_2. apply not_elem_of_nil. Qed.

Lemma includes_elem (tile : nat) (l : list HTMLDivElement) :
  includes tile l = true ↔ tile ∈ l.
Proof. unfold includes. apply bool_decide_eq_true. Qed.

Lemma seq_elem_lookup {A} (l : list A) (i : nat) (a : A) :
  l !! i = Some a → bool_decide (i ∈ seq 0 (length l)) = true.
Proof.
  intros Hi. apply bool_decide_eq_true_2, elem_of_seq.
  apply lookup_lt_Some in Hi. lia.
Qed.

Lemma mouseup_marker m s (tile : nat) t :
  dragStartPosition m = Some s → tiles m !! tile = Some t →
  classList_selected <$> tiles (mouseup m) !! tile
  = Some (intersects (tilePosition tile) (selectionBounds s (mousePosition m))
          || (ctrlDown m && includes tile (selectedTiles m) && classList_selected t)).
Proof.
  intros Hs Ht. rewrite (mouseup_unfold m s Hs).
  rewrite (selectTiles_loop_marker _ _ _ _ _ t);
    [|apply NoDup_seq|by destruct (ctrlDown m)].
  rewrite (seq_elem_lookup _ _ _ Ht).
  destruct (ctrlDown m); [done|].
  cbn [with_selectedTiles selectedTiles]. by rewrite includes_nil.
Qed.

Lemma preview_marker m s (tile : nat) t :
  dragStartPosition m = Some s → tiles m !! tile = Some t →
  classList_selected <$> tiles (selectTiles true m) !! tile
  = Some (intersects (tilePosition tile) (selectionBounds s (mousePosition m))
          || (ctrlDown m && includes tile (selectedTiles m) && classList_selected t)).
Proof.
  intros Hs Ht. rewrite (preview_unfold m s Hs).
  rewrite (selectTiles_loop_marker _ _ _ _ _ t);
    [|apply NoDup_seq|by destruct (ctrlDown m)].
  rewrite (seq_elem_lookup _ _ _ Ht).
  destruct (ctrlDown m); [done|].
  cbn [with_selectedTiles selectedTiles]. by rewrite includes_nil.
Qed.

Lemma hit_elem_iff n b (tile : nat) :
  tile ∈ hit n b ↔ intersects (tilePosition tile) b = true ∧ (tile < n)%nat.
Proof.
  unfold hit. rewrite list_elem_of_filter, elem_of_seq.
  split; intros [? ?]; (split; [done|lia]).
Qed.

Lemma mouseup_marker_inv m s (tile : nat) t' :
  dragStartPosition m = Some s → tiles (mouseup m) !! tile = Some t' →
  ∃ t, tiles m !! tile = Some t
       ∧ classList_selected t'
         = intersects (tilePosition tile) (selectionBounds s (mousePosition m))
           || (ctrlDown m && includes tile (selectedTiles m) && classList_selected t).
Proof.
  intros Hs Ht'.
  destruct (mouseup_spec m s Hs) as (_ & Hc & _ & _).
  destruct (content_fields _ _ Hc) as (_ & _ & _ & _ & Hlen).
  destruct (lookup_lt_is_Some_2 (tiles m) tile) as [t Ht].
  { rewrite <- Hlen. by apply lookup_lt_Some in Ht'. }
  exists t. split; [done|].
  pose proof (mouseup_marker m s tile t Hs Ht) as Hm.
  rewrite Ht' in Hm. simpl in Hm. by injection Hm.
Qed.

Lemma mouseup_marked_member m s (tile : nat) t' :
  dragStartPosition m = Some s → tiles (mouseup m) !! tile = Some t' →
  classList_selected t' = true → tile ∈ selectedTiles (mouseup m).
Proof.
  intros Hs Ht' Hsel'.
  destruct (mouseup_marker_inv m s tile t' Hs Ht') as (t & Ht & Heq).
  rewrite Hsel' in Heq.
  rewrite (mouseup_selectedTiles m s Hs), elem_of_app, hit_elem_iff.
  apply lookup_lt_Some in Ht.
  destruct (intersects (tilePosition tile) _); [by right|]. left.
  destruct (ctrlDown m); [|done]. simpl in Heq.
  apply includes_elem. by destruct (includes tile (selectedTiles m)).
Qed.

(** X3: after the pointer is released on the map, every tile that carries
    the marker is in the selection; without the modifier the tiles that
    carry the marker, the tiles of the selection and the tiles that
    intersect the drag rectangle are the same, whatever the markers and the
    selection were before; with the modifier a tile of the selection carries
    the marker if every tile of the previous selection did. *)
Theorem mouseup_marker_selection (m : Map) (s : Position2D) :
  dragStartPosition m = Some s →
  let b := selectionBounds s (mousePosition m) in
  let m' := mouseup m in
  (∀ tile t, tiles m !! tile = Some t →
     classList_selected <$> tiles m' !! tile
     = Some (intersects (tilePosition tile) b
             || (ctrlDown m && includes tile (selectedTiles m) && classList_selected t)))
  ∧ (∀ tile t', tiles m' !! tile = Some t' → classList_selected t' = true →
       tile ∈ selectedTiles m')
  ∧ (ctrlDown m = false →
       ∀ tile t', tiles m' !! tile = Some t' →
         (classList_selected t' = true ↔ tile ∈ selectedTiles m')
         ∧ (tile ∈ selectedTiles m' ↔ intersects (tilePosition tile) b = true))
  ∧ (ctrlDown m = true →
       (∀ tile t, tile ∈ selectedTiles m → tiles m !! tile = Some t →
                  classList_selected t = true) →
       ∀ tile t', tile ∈ selectedTiles m' → tiles m' !! tile = Some t' →
                  classList_selected t' = true).
Proof.
  intros Hs b m'.
  pose proof (mouseup_selectedTiles m s Hs) as Hsel.
  fold m' in Hsel. fold b in Hsel.
  split_and!.
  - intros tile t Ht. by apply mouseup_marker.
  - intros tile t'. by apply (mouseup_marked_member m s).
  - intros Hctrl tile t' Ht'.
    destruct (mouseup_marker_inv m s tile t' Hs Ht') as (t & Ht & Heq).
    fold b in Heq. rewrite Hctrl in Heq, Hsel.
    simpl in Heq, Hsel. rewrite orb_false_r in Heq.
    rewrite Hsel, hit_elem_iff, Heq. apply lookup_lt_Some in Ht.
    split; split; [by split|by intros [? _]|by intros [? _]|by split].
  - intros Hctrl Hprev tile t' Hin Ht'.
    destruct (mouseup_marker_inv m s tile t' Hs Ht') as (t & Ht & Heq).
    fold b in Heq. rewrite Hctrl in Heq, Hsel.
    rewrite Heq. rewrite Hsel, elem_of_app, hit_elem_iff in Hin.
    destruct Hin as [Hin|[-> _]]; [|done].
    rewrite (Hprev tile t Hin Ht). apply includes_elem in Hin. rewrite Hin.
    simpl. apply orb_true_r.
Qed.

(** X4: while the button is down, a move of the pointer to [p] marks
    exactly the tiles whose rectangle meets, edges apart, the rectangle
    between the start [s] of the drag and [p], besides the marked tiles of
    the selection that the modifier keeps; the marks are a preview: the move
    changes neither the selection, apart from emptying it without the
    modifier, nor the sprites, the clipboard or the history. *)
Theorem mousemove_preview (p : Position2D) (m : Map) (s : Position2D) :
  mouseDown m = true → dragStartPosition m = Some s →
  ∃ m', mousemove p m = Returned m'
        ∧ selectedTiles m' = (if ctrlDown m then selectedTiles m else [])
        ∧ content m' = content m
        ∧ ∀ tile t, tiles m !! tile = Some t →
            classList_selected <$> tiles m' !! tile
            = Some (bool_decide
                      (b_left (tilePosition tile) < Z.max (x s) (x p)
                       ∧ Z.min (x s) (x p) < b_right (tilePosition tile)
                       ∧ b_top (tilePosition tile) < Z.max (y s) (y p)
                       ∧ Z.min (y s) (y p) < b_bottom (tilePosition tile))
                    || (ctrlDown m && includes tile (selectedTiles m)
                        && classList_selected t)).
Proof.
  intros Hd Hs. rewrite (mousemove_down p m s Hd Hs).
  destruct (selectTiles_preview (with_mousePosition p m) s Hs) as (Hsel & Hc & _).
  eexists. split_and!; [done|done|done|].
  intros tile t Ht.
  rewrite (preview_marker (with_mousePosition p m) s tile t) by done.
  do 2 f_equal. unfold intersects, selectionBounds. simpl.
  destruct (Z.ltb_spec (b_left (tilePosition tile)) (Z.max (x s) (x p))),
    (Z.ltb_spec (Z.min (x s) (x p)) (b_right (tilePosition tile))),
    (Z.ltb_spec (b_top (tilePosition tile)) (Z.max (y s) (y p))),
    (Z.ltb_spec (Z.min (y s) (y p)) (b_bottom (tilePosition tile))); simpl;
    first [rewrite bool_decide_eq_true_2 by done; reflexivity
          |rewrite bool_decide_eq_false_2 by lia; reflexivity].
Qed.

(** *** The selection depends on the rectangle only *)

Lemma selectTile_view selecting b m n tile :
  view m = view n →
  view (selectTile selecting b m tile) = view (selectTile selecting b n tile).
Proof.
  unfold view. intros [= Ht Hs Hc]. unfold selectTile, element. rewrite Ht, Hs.
  destruct (negb _ && _), (intersects _ _), selecting; simpl; by rewrite ?Ht, ?Hs, ?Hc.
Qed.

Lemma unmarkTile_view m n tile :
  view m = view n → view (unmarkTile m tile) = view (unmarkTile n tile).
Proof.
  unfold view. intros [= Ht Hs Hc]. unfold unmarkTile, element. rewrite Ht, Hs.
  destruct (negb _ && _); simpl; by rewrite ?Ht, ?Hs, ?Hc.
Qed.

Lemma foldl_view {B} (step : Map → B → Map) (l : list B) m n :
  (∀ m n b, view m = view n → view (step m b) = view (step n b)) →
  view m = view n → view (foldl step m l) = view (foldl step n l).
Proof.
  intros Hstep. revert m n. induction l as [|b l IH]; intros m n Hv; simpl; [done|].
  by apply IH, Hstep.
Qed.

Lemma mousedown_view m n : view m = view n → view (mousedown m) = view (mousedown n).
Proof.
  intros Hv. unfold mousedown.
  assert (querySelectorAll_selected m = querySelectorAll_selected n) as ->.
  { unfold querySelectorAll_selected, element. unfold view in Hv.
    injection Hv as Ht _ _. by rewrite Ht. }
  pose proof (foldl_view unmarkTile (querySelectorAll_selected n) m n unmarkTile_view Hv)
    as Hf.
  revert Hf. generalize (foldl unmarkTile m (querySelectorAll_selected n)).
  generalize (foldl unmarkTile n (querySelectorAll_selected n)).
  intros n1 m1. unfold view. intros [= Ht Hs Hc]. rewrite Hc.
  destruct (ctrlDown n1) eqn:Hcn; simpl; by rewrite ?Ht, ?Hs, ?Hc, ?Hcn.
Qed.

Lemma preview_view m n s s' :
  view m = view n → dragStartPosition m = Some s → dragStartPosition n = Some s' →
  selectionBounds s (mousePosition m) = selectionBounds s' (mousePosition n) →
  view (selectTiles true m) = view (selectTiles true n).
Proof.
  intros Hv Hs Hs' Hb.
  rewrite (preview_unfold m s Hs), (preview_unfold n s' Hs'), Hb.
  unfold view in Hv. injection Hv as Ht Hsel Hc. rewrite Ht, Hc.
  apply foldl_view; [intros; by apply selectTile_view|].
  unfold view. destruct (ctrlDown n) eqn:Hcn; simpl; by rewrite ?Ht, ?Hsel, ?Hc, ?Hcn.
Qed.

Lemma mouseup_view m n s s' :
  view m = view n → dragStartPosition m = Some s → dragStartPosition n = Some s' →
  selectionBounds s (mousePosition m) = selectionBounds s' (mousePosition n) →
  view (mouseup m) = view (mouseup n).
Proof.
  intros Hv Hs Hs' Hb.
  rewrite (mouseup_unfold m s Hs), (mouseup_unfold n s' Hs'), Hb.
  unfold view in Hv. injection Hv as Ht Hsel Hc. rewrite Ht, Hc.
  apply foldl_view; [intros; by apply selectTile_view|].
  unfold view. destruct (ctrlDown n) eqn:Hcn; simpl; by rewrite ?Ht, ?Hsel, ?Hc, ?Hcn.
Qed.

Lemma drag_unfold p q m :
  mouseDown m = false →
  drag p q m
  = Returned (mouseup (selectTiles true
                         (with_mousePosition q (mousedown (with_mousePosition p m)))))
  ∧ dragStartPosition (with_mousePosition q (mousedown (with_mousePosition p m))) = Some p.
Proof.
  intros Hd. unfold drag. rewrite mousemove_up by done. cbn [and_then].
  destruct (mousedown_spec (with_mousePosition p m)) as (_ & _ & Hmd & _ & Hds).
  rewrite (mousemove_down q _ p) by done. done.
Qed.

Lemma selectionBounds_comm p q : selectionBounds p q = selectionBounds q p.
Proof. unfold selectionBounds. f_equal; lia. Qed.

Lemma view_mousePosition p m : view (with_mousePosition p m) = view m.
Proof. reflexivity. Qed.

Lemma drag_view a b a' b' m :
  mouseDown m = false → selectionBounds a b = selectionBounds a' b' →
  view (mouseup (selectTiles true
                   (with_mousePosition b (mousedown (with_mousePosition a m)))))
  = view (mouseup (selectTiles true
                     (with_mousePosition b' (mousedown (with_mousePosition a' m))))).
Proof.
  intros Hd Hb.
  destruct (drag_unfold a b m Hd) as [_ Hsa].
  destruct (drag_unfold a' b' m Hd) as [_ Hsa'].
  destruct (selectTiles_preview _ a Hsa) as (_ & _ & _ & Hpa & Hda).
  destruct (selectTiles_preview _ a' Hsa') as (_ & _ & _ & Hpa' & Hda').
  apply (mouseup_view _ _ a a'); [|exact Hda|exact Hda'|rewrite Hpa, Hpa'; exact Hb].
  apply (preview_view _ _ a a'); [|exact Hsa|exact Hsa'|exact Hb].
  rewrite !view_mousePosition. apply mousedown_view. reflexivity.
Qed.

Lemma view_eq m n : view m = view n → tiles m = tiles n ∧ selectedTiles m = selectedTiles n.
Proof. unfold view. intros [= Ht Hs _]. by split. Qed.

(** X5: a drag selects by its rectangle only: two drags whose start and
    end span the same rectangle, such as a drag and the drag back from its
    end to its start, leave the same tiles, with the same markers, and the
    same selection. *)
Theorem drag_rectangle_only (p q p' q' : Position2D) (m : Map) :
  mouseDown m = false →
  ∃ m1 m2, drag p q m = Returned m1 ∧ drag q p m = Returned m2
           ∧ tiles m1 = tiles m2 ∧ selectedTiles m1 = selectedTiles m2
           ∧ (selectionBounds p q = selectionBounds p' q' →
              ∃ m3, drag p' q' m = Returned m3
                    ∧ tiles m1 = tiles m3 ∧ selectedTiles m1 = selectedTiles m3).
Proof.
  intros Hd.
  destruct (drag_unfold p q m Hd) as [Hpq _].
  destruct (drag_unfold q p m Hd) as [Hqp _].
  destruct (view_eq _ _ (drag_view p q q p m Hd (selectionBounds_comm p q))) as [Ht Hs].
  eexists _, _. split; [exact Hpq|]. split; [exact Hqp|].
  split; [exact Ht|]. split; [exact Hs|].
  intros Hb. destruct (drag_unfold p' q' m Hd) as [Hpq' _].
  destruct (view_eq _ _ (drag_view p q p' q' m Hd Hb)) as [Ht' Hs'].
  eexists. split; [exact Hpq'|]. split; [exact Ht'|exact Hs'].
Qed.

(** ** What a loop of assignments leaves in a tile *)

Lemma foldl_update_lookup f (l : list HTMLDivElement) m (i : nat) :
  (∀ t, f (f t) = f t) →
  tiles (foldl (λ m tile, update tile f m) m l) !! i
  = if bool_decide (i ∈ l) then f <$> tiles m !! i else tiles m !! i.
Proof.
  intros Hf. revert m. induction l as [|a l IH]; intros m; simpl; [done|].
  rewrite IH, update_tiles. destruct (decide (i = a)) as [->|Hne].
  - rewrite (bool_decide_eq_true_2 (a ∈ a :: l)) by left.
    rewrite list_lookup_alter_eq.
    destruct (bool_decide (a ∈ l)); [|done].
    destruct (tiles m !! a); simpl; [|done]. by rewrite Hf.
  - rewrite list_lookup_alter_ne by done.
    rewrite (bool_decide_ext (i ∈ a :: l) (i ∈ l)); [done|].
    rewrite elem_of_cons. split; [intros [?|?]; [congruence|done]|by right].
Qed.

Lemma drawTiles_lookup sprite (l : list HTMLDivElement) m (i : nat) :
  tiles (foldl (drawTile sprite) m l) !! i
  = if bool_decide (i ∈ l) then drawn sprite <$> tiles m !! i else tiles m !! i.
Proof. rewrite drawTiles_update. by apply foldl_update_lookup. Qed.

Lemma deleteTiles_update (l : list HTMLDivElement) m :
  foldl (λ m tile, update tile (set_selected false)
                     (update tile (set_background "transparent") m)) m l
  = foldl (λ m tile, update tile deleted m) m l.
Proof.
  revert m. induction l as [|tile l IH]; intros m; simpl; [done|].
  by rewrite update_update, IH.
Qed.

Lemma bool_decide_perm (i : nat) (l l' : list HTMLDivElement) :
  l ≡ₚ l' → bool_decide (i ∈ l) = bool_decide (i ∈ l').
Proof. intros Hp. apply bool_decide_ext. by rewrite Hp. Qed.

Lemma drawMap_unfold sprite m :
  selectedTiles m ≠ [] →
  drawMap sprite m
  = (if isAutoEnabled m
     then selectNextTile
            (foldl (drawTile sprite)
               (with_selectedTiles (sort (tiles m) (selectedTiles m)) m)
               (sort (tiles m) (selectedTiles m)))
     else Returned
            (with_selectedTiles []
               (foldl (drawTile sprite)
                  (with_selectedTiles (sort (tiles m) (selectedTiles m)) m)
                  (sort (tiles m) (selectedTiles m)))))
    >>> λ m3, Returned (addToHistory m3).
Proof.
  intros Hne. unfold drawMap.
  destruct (Z.leb_spec (Z.of_nat (length (selectedTiles m))) 0) as [Hlen|_].
  { destruct (selectedTiles m); [done|simpl in Hlen; lia]. }
  cbv zeta. by rewrite (foldl_keeps isAutoEnabled).
Qed.

(** X6: without auto-advance, [drawMap] on a non-empty selection returns;
    every selected tile shows the sprite sheet at the given position and
    has lost the marker, every other tile is as before, the selection is
    empty and one snapshot of the result is appended after the entry at the
    cursor. *)
Theorem drawMap_draws_selection (sprite : string) (m : Map) :
  selectedTiles m ≠ [] → isAutoEnabled m = false →
  ∃ m', drawMap sprite m = Returned m'
        ∧ (∀ tile : nat,
             tiles m' !! tile
             = if bool_decide (tile ∈ selectedTiles m)
               then drawn sprite <$> tiles m !! tile
               else tiles m !! tile)
        ∧ selectedTiles m' = []
        ∧ history m'
          = slice0 (history m) (currentHistoryIndex m + 1) ++ [tileData <$> tiles m']
        ∧ currentHistoryIndex m' = Z.of_nat (length (history m')) - 1.
Proof.
  intros Hne Hauto. rewrite drawMap_unfold, Hauto by done. cbn [and_then].
  eexists. split; [done|].
  rewrite addToHistory_tiles, addToHistory_history, addToHistory_index.
  split_and!; [|done| |done].
  - intros tile. cbn [tiles with_selectedTiles].
    rewrite drawTiles_lookup. cbn [tiles with_selectedTiles].
    by rewrite (bool_decide_perm tile _ _ (sort_perm (tiles m) (selectedTiles m))).
  - cbn [history currentHistoryIndex with_selectedTiles].
    by rewrite (foldl_keeps history), (foldl_keeps currentHistoryIndex).
Qed.

Lemma deleteSelected_unfold m :
  deleteSelected m
  = addToHistory
      (with_selectedTiles []
         (foldl (λ m tile, update tile deleted m) m (selectedTiles m))).
Proof. unfold deleteSelected. by rewrite deleteTiles_update. Qed.

(** X7: the [Delete] key, with or without a modifier, makes every selected
    tile transparent and takes its marker away, leaves every other tile as
    it is, empties the selection and appends one snapshot of the result
    after the entry at the cursor, also when nothing is selected. *)
Theorem delete_clears_selection (e : KeyboardEvent) (m : Map) :
  key e = "Delete" →
  ∃ m', keydown e m = Returned m'
        ∧ (∀ tile : nat,
             tiles m' !! tile
             = if bool_decide (tile ∈ selectedTiles m)
               then deleted <$> tiles m !! tile
               else tiles m !! tile)
        ∧ selectedTiles m' = []
        ∧ history m'
          = slice0 (history m) (currentHistoryIndex m + 1) ++ [tileData <$> tiles m']
        ∧ currentHistoryIndex m' = Z.of_nat (length (history m')) - 1.
Proof.
  intros Hkey. unfold keydown. rewrite Hkey. cbn [String.eqb Ascii.eqb Bool.eqb].
  rewrite deleteSelected_unfold.
  eexists. split; [done|].
  rewrite addToHistory_tiles, addToHistory_history, addToHistory_index.
  split_and!; [|done| |done].
  - intros tile. cbn [tiles with_selectedTiles]. by apply foldl_update_lookup.
  - cbn [history currentHistoryIndex with_selectedTiles].
    by rewrite (foldl_keeps history), (foldl_keeps currentHistoryIndex).
Qed.

(** ** With the button up, the marked tiles are in the selection *)

Lemma marked_selected_marker m m' :
  marker <$> tiles m' = marker <$> tiles m → selectedTiles m' = selectedTiles m →
  mouseDown m' = mouseDown m → marked_selected m → marked_selected m'.
Proof.
  intros Hmark Hsel Hd Hm Hd' tile t' Ht' Hsel'. rewrite Hsel. rewrite Hd in Hd'.
  apply (f_equal (.!! tile)) in Hmark. rewrite !list_lookup_fmap, Ht' in Hmark.
  destruct (tiles m !! tile) as [t|] eqn:Ht; [|done].
  apply (Hm Hd' tile t Ht). simpl in Hmark. injection Hmark as _ _ Heq. congruence.
Qed.

Lemma marked_selected_down m : mouseDown m = true → marked_selected m.
Proof. intros Hd Hd'. congruence. Qed.

Lemma controller_fields m m' :
  controller m' = controller m →
  selectedTiles m' = selectedTiles m ∧ mouseDown m' = mouseDown m.
Proof. unfold controller. intros Hc. by simplify_eq. Qed.

(** After a loop that takes the marker from the tiles of the selection, no
    tile carries the marker. *)
Lemma unmarked_after f m :
  (∀ t, f (f t) = f t) → (∀ t, classList_selected (f t) = false) →
  marked_selected m → mouseDown m = false →
  ∀ (tile : nat) t',
    tiles (foldl (λ m tile, update tile f m) m (selectedTiles m)) !! tile = Some t' →
    classList_selected t' = false.
Proof.
  intros Hidem Hf Hm Hd tile t'. rewrite foldl_update_lookup by done.
  destruct (bool_decide (tile ∈ selectedTiles m)) eqn:Hin.
  - intros (t & _ & ->)%fmap_Some. apply Hf.
  - intros Ht'. apply bool_decide_eq_false in Hin.
    destruct (classList_selected t') eqn:Hsel'; [|done].
    destruct Hin. by apply (Hm Hd tile t').
Qed.

Lemma marked_selected_none m :
  (∀ (tile : nat) t, tiles m !! tile = Some t → classList_selected t = false) →
  marked_selected m.
Proof. intros Hnone _ tile t Ht Hsel. rewrite (Hnone tile t Ht) in Hsel. done. Qed.

Lemma deleteSelected_marked m :
  marked_selected m → marked_selected (deleteSelected m).
Proof.
  intros Hm. destruct (mouseDown m) eqn:Hd.
  - apply marked_selected_down. unfold deleteSelected.
    pose proof (addToHistory_controller
                  (with_selectedTiles []
                     (foldl (λ m tile, update tile (set_selected false)
                                         (update tile (set_background "transparent") m))
                        m (selectedTiles m)))) as Hc.
    apply controller_fields in Hc as [_ ->]. simpl.
    by rewrite (foldl_keeps mouseDown).
  - apply marked_selected_none. rewrite deleteSelected_unfold, addToHistory_tiles.
    by apply unmarked_after.
Qed.

Lemma copySelected_marked m : marked_selected m → marked_selected (copySelected m).
Proof.
  intros Hm. destruct (copySelected_fields m) as (_ & _ & _ & _ & Hmd & _).
  destruct (mouseDown m) eqn:Hd; [by apply marked_selected_down|].
  apply marked_selected_none. unfold copySelected.
  cbn [coppiedTiles with_coppiedTiles with_coppiedTileData].
  intros tile t'. rewrite foldl_update_tiles. cbn [tiles with_coppiedTiles with_coppiedTileData].
  rewrite <- foldl_update_tiles. by apply unmarked_after.
Qed.

Lemma cutSelected_marked m : marked_selected m → marked_selected (cutSelected m).
Proof.
  intros Hm. apply (marked_selected_marker (copySelected m));
    [| | |by apply copySelected_marked].
  - unfold cutSelected. rewrite addToHistory_tiles. by apply foldl_update_fmap.
  - unfold cutSelected.
    pose proof (addToHistory_controller
                  (foldl (λ m tile, update tile (set_background "transparent") m)
                     (copySelected m) (selectedTiles (copySelected m)))) as Hc.
    apply controller_fields in Hc as [-> _]. by rewrite (foldl_keeps selectedTiles).
  - unfold cutSelected.
    pose proof (addToHistory_controller
                  (foldl (λ m tile, update tile (set_background "transparent") m)
                     (copySelected m) (selectedTiles (copySelected m)))) as Hc.
    apply controller_fields in Hc as [_ ->]. by rewrite (foldl_keeps mouseDown).
Qed.

Lemma paste_marked m : marked_selected m → marked_selected (paste m).
Proof.
  intros Hm. unfold paste.
  destruct (coppiedTileData m) as [|first rest] eqn:Hclip; [done|].
  destruct (tileUnderCoursor m) as [anchorTile|]; [|done].
  match goal with |- marked_selected (addToHistory ?x) =>
    pose proof (addToHistory_controller x) as Hc end.
  apply controller_fields in Hc as [Hs Hd].
  assert (∀ ar ac rr rc m' d, controller (pasteTile ar ac rr rc m' d) = controller m') as Hk.
  { intros. unfold pasteTile. by destruct (querySelector _ _ _). }
  apply (marked_selected_marker m); [| | |done].
  - rewrite addToHistory_tiles. apply pasteTiles_marker.
  - rewrite Hs. apply (foldl_keeps selectedTiles). intros m' d.
    by destruct (controller_fields _ _ (Hk (parseInt (data_row (element m anchorTile)))
      (parseInt (data_col (element m anchorTile))) (row first) (col first) m' d)).
  - rewrite Hd. apply (foldl_keeps mouseDown). intros m' d.
    by destruct (controller_fields _ _ (Hk (parseInt (data_row (element m anchorTile)))
      (parseInt (data_col (element m anchorTile))) (row first) (col first) m' d)).
Qed.

Lemma restoreFromHistory_marked (i : Z) m :
  marked_selected m → marked_selected (state_of (restoreFromHistory i m)).
Proof.
  intros Hm. destruct (restoreFromHistory_frame i m) as (_ & _ & Hc & Hmark).
  apply controller_fields in Hc as [Hs Hd].
  by apply (marked_selected_marker m).
Qed.

Lemma undo_marked m : marked_selected m → marked_selected (state_of (undo m)).
Proof.
  intros Hm. unfold undo. destruct (_ <=? _); [done|].
  by apply restoreFromHistory_marked.
Qed.

Lemma redo_marked m : marked_selected m → marked_selected (state_of (redo m)).
Proof.
  intros Hm. unfold redo. destruct (_ <=? _); [done|].
  by apply restoreFromHistory_marked.
Qed.

Lemma keydown_marked e m :
  marked_selected m → marked_selected (state_of (keydown e m)).
Proof.
  intros Hm. unfold keydown. cbv zeta.
  repeat match goal with |- context [if ?b then _ else _] => destruct b end;
    cbn [state_of];
    auto using deleteSelected_marked, copySelected_marked, cutSelected_marked,
      paste_marked, undo_marked, redo_marked.
Qed.

Lemma loadTile_marker m data :
  marker <$> tiles (loadTile m data) = marker <$> tiles m.
Proof.
  unfold loadTile. destruct (querySelector _ _ _); [|done].
  destruct (negb _); [|done]. simpl. by rewrite !fmap_alter_same.
Qed.

Lemma loadMapFromFile_marked mapData m :
  marked_selected m → marked_selected (loadMapFromFile mapData m).
Proof.
  unfold loadMapFromFile. apply marked_selected_marker.
  - apply (foldl_keeps (λ m, marker <$> tiles m)). apply loadTile_marker.
  - apply (foldl_keeps selectedTiles). intros m' d.
    by destruct (controller_fields _ _ (loadTile_controller m' d)).
  - apply (foldl_keeps mouseDown). intros m' d.
    by destruct (controller_fields _ _ (loadTile_controller m' d)).
Qed.

(** *** The state [drawMap] leaves behind *)

Lemma next_cell_index (r c : nat) :
  (r < mapRowsCount)%nat → (c < mapColsCount)%nat →
  next_cell r c = next_index (cell r c).
Proof.
  intros Hr Hc. unfold next_cell, next_index, cell.
  assert (S r * mapColsCount ≤ mapRowsCount * mapColsCount)%nat as Hrows
    by (apply Nat.mul_le_mono_r; lia).
  simpl in Hrows.
  destruct (decide (c = mapColsCount - 1)%nat) as [Hcl|Hcl].
  - destruct (decide (r = mapRowsCount - 1)%nat) as [Hrl|Hrl].
    + destruct (decide _) as [Hlt|_]; [|done]. exfalso.
      assert (mapRowsCount = S r) as Heq by lia. rewrite Heq in Hlt. simpl in Hlt. lia.
    + assert (S (S r) * mapColsCount ≤ mapRowsCount * mapColsCount)%nat as Hnext
        by (apply Nat.mul_le_mono_r; lia).
      simpl in Hnext.
      destruct (decide _) as [_|Hge]; [f_equal; simpl; lia|]. exfalso. apply Hge. lia.
  - destruct (decide _) as [_|Hge]; [f_equal; lia|]. exfalso. apply Hge. lia.
Qed.

Lemma selectNext_fields (l : list HTMLDivElement) m :
  selectedTiles (foldl selectNext m l) = selectedTiles m ++ l
  ∧ tiles (foldl selectNext m l)
    = foldl (λ ts n, alter (set_selected true) n ts) (tiles m) l
  ∧ content (foldl selectNext m l) = content m
  ∧ mouseDown (foldl selectNext m l) = mouseDown m.
Proof.
  revert m. induction l as [|n l IH]; intros m; simpl.
  { by rewrite app_nil_r. }
  destruct (IH (with_selectedTiles (selectedTiles m ++ [n])
                  (update n (set_selected true) m))) as (-> & -> & -> & ->).
  split_and!; [simpl; by rewrite <- app_assoc|done| |done].
  unfold content. simpl. by rewrite fmap_alter_same.
Qed.

Lemma alter_all_lookup_ne {A} (f : A → A) (l : list nat) (ts : list A) (i : nat) :
  i ∉ l → foldl (λ ts n, alter f n ts) ts l !! i = ts !! i.
Proof.
  revert ts. induction l as [|n l IH]; intros ts Hi; simpl; [done|].
  apply not_elem_of_cons in Hi as [Hne Hi].
  rewrite IH by done. by rewrite list_lookup_alter_ne.
Qed.

Lemma drawMap_returns sprite m :
  grid (tiles m) → valid (tiles m) (selectedTiles m) → selectedTiles m ≠ [] →
  ∃ next,
    drawMap sprite m
    = Returned
        (addToHistory
           (foldl selectNext
              (with_selectedTiles []
                 (foldl (drawTile sprite)
                    (with_selectedTiles (sort (tiles m) (selectedTiles m)) m)
                    (sort (tiles m) (selectedTiles m))))
              next))
    ∧ valid (tiles m) next
    ∧ (isAutoEnabled m = false → next = [])
    ∧ (isAutoEnabled m = true →
         ∃ lastTile, last (sort (tiles m) (selectedTiles m)) = Some lastTile
                     ∧ (lastTile < length (tiles m))%nat
                     ∧ next = next_index lastTile).
Proof.
  intros Hg Hv Hne. rewrite drawMap_unfold by done.
  destruct (isAutoEnabled m) eqn:Hauto.
  - destruct (sort_last (tiles m) (selectedTiles m) Hne) as (lastTile & Hlast & Hin).
    assert (lastTile < length (tiles m))%nat as Hlt'.
    { unfold valid in Hv. rewrite Forall_forall in Hv. auto. }
    pose proof Hlt' as Hlt. rewrite (grid_length _ Hg) in Hlt.
    destruct (cell_decompose lastTile Hlt) as (r & c & Hr & Hc & ->).
    rewrite (selectNextTile_returns _ r c);
      [|by apply drawTiles_grid|done|done|by rewrite (foldl_keeps selectedTiles)].
    exists (next_cell r c). split_and!; [done|by apply next_cell_valid|done|].
    intros _. exists (cell r c). split_and!; [done|done|by apply next_cell_index].
  - exists []. split_and!; [done|apply Forall_nil_2|done|done].
Qed.

Lemma drawMap_marked sprite m :
  grid (tiles m) → valid (tiles m) (selectedTiles m) →
  marked_selected m → marked_selected (state_of (drawMap sprite m)).
Proof.
  intros Hg Hv Hm.
  destruct (decide (selectedTiles m = [])) as [Hnil|Hne].
  { unfold drawMap. by rewrite Hnil. }
  destruct (drawMap_returns sprite m Hg Hv Hne) as (next & -> & _ & _ & _).
  cbn [state_of].
  match goal with |- marked_selected (addToHistory ?x) =>
    pose proof (addToHistory_controller x) as Hc;
    destruct (selectNext_fields next
                (with_selectedTiles []
                   (foldl (drawTile sprite)
                      (with_selectedTiles (sort (tiles m) (selectedTiles m)) m)
                      (sort (tiles m) (selectedTiles m))))) as (Hsel & Htiles & _ & Hmd)
  end.
  apply controller_fields in Hc as [Hs Hd].
  intros Hd' tile t' Ht' Hsel'. rewrite Hs, Hsel. cbn [selectedTiles with_selectedTiles app].
  rewrite Hd, Hmd in Hd'. cbn [mouseDown with_selectedTiles] in Hd'.
  rewrite (foldl_keeps mouseDown) in Hd' by done. cbn [mouseDown with_selectedTiles] in Hd'.
  destruct (decide (tile ∈ next)) as [|Hnot]; [done|]. exfalso.
  rewrite addToHistory_tiles, Htiles, alter_all_lookup_ne in Ht' by done.
  cbn [tiles with_selectedTiles] in Ht'. rewrite drawTiles_lookup in Ht'.
  cbn [tiles with_selectedTiles] in Ht'.
  rewrite (bool_decide_perm tile _ _ (sort_perm (tiles m) (selectedTiles m))) in Ht'.
  destruct (bool_decide (tile ∈ selectedTiles m)) eqn:Hin.
  - apply fmap_Some in Ht' as (t & _ & ->). done.
  - apply bool_decide_eq_false in Hin. destruct Hin. by apply (Hm Hd' tile t').
Qed.

Lemma handle_marked_selected ev m :
  consistent m → marked_selected m → enabled ev →
  marked_selected (state_of (handle ev m)).
Proof.
  intros Hc Hm Hev. pose proof Hc as (Hg & Hv & _ & _ & Hbefore & Hdown & _).
  destruct ev as [p| | |i j|checked|e|e|i j|mapData]; cbn [handle state_of].
  - destruct (mouseDown m) eqn:Hd.
    + destruct (dragStartPosition m) as [s|] eqn:Hs; [|by destruct Hdown].
      rewrite (mousemove_down p m s) by done. cbn [state_of].
      apply marked_selected_down.
      destruct (selectTiles_preview (with_mousePosition p m) s Hs) as (_ & _ & -> & _).
      done.
    + rewrite mousemove_up by done. cbn [state_of].
      by apply (marked_selected_marker m).
  - apply marked_selected_down. by destruct (mousedown_spec m) as (_ & _ & -> & _).
  - destruct (dragStartPosition m) as [s|] eqn:Hs.
    + intros _ tile t'. by apply (mouseup_marked_member m s).
    + assert (mouseDown m = false) as Hd.
      { destruct (mouseDown m); [|done]. by destruct Hdown. }
      unfold mouseup, selectTiles. simpl. rewrite Hs.
      by apply (marked_selected_marker m).
  - rewrite mouseover_anchor by done. by apply (marked_selected_marker m).
  - by apply (marked_selected_marker m).
  - by apply keydown_marked.
  - unfold keyup. destruct (_ || _); [|done]. by apply (marked_selected_marker m).
  - by apply drawMap_marked.
  - by apply loadMapFromFile_marked.
Qed.

Lemma init_unmarked (tile : nat) t :
  init_tiles !! tile = Some t → classList_selected t = false.
Proof.
  intros Ht. assert (tile < mapRowsCount * mapColsCount)%nat as Hlt.
  { rewrite <- init_tiles_length. by apply lookup_lt_Some in Ht. }
  destruct (cell_decompose tile Hlt) as (r & c & Hr & Hc & ->).
  rewrite init_tiles_cell in Ht by done. by injection Ht as <-.
Qed.

Lemma reachable_marked_selected m : reachable m → marked_selected m.
Proof.
  induction 1 as [|ev m Hr IH Hev].
  { intros _ tile t Ht Hsel. by rewrite (init_unmarked tile t Ht) in Hsel. }
  apply handle_marked_selected; [by apply reachable_consistent|done|done].
Qed.

(** ** The states of the editor *)

Lemma cell_at_Some (r c : number) :
  is_Some (cell_at r c) →
  ∃ nr nc : nat, (nr < mapRowsCount)%nat ∧ (nc < mapColsCount)%nat
                 ∧ r = Some (Z.of_nat nr) ∧ c = Some (Z.of_nat nc).
Proof.
  unfold cell_at. destruct r as [zr|], c as [zc|]; try by intros [? ?].
  destruct (Z.leb_spec 0 zr), (Z.ltb_spec zr (Z.of_nat mapRowsCount)),
    (Z.leb_spec 0 zc), (Z.ltb_spec zc (Z.of_nat mapColsCount));
    simpl; try by intros [? ?].
  intros _. exists (Z.to_nat zr), (Z.to_nat zc).
  split_and!; [lia|lia|f_equal; lia|f_equal; lia].
Qed.

(** X8: in every state of the editor the handler of every event returns,
    the load of a file provided that the column and the row of its records
    stand for themselves in the selector built from them: no access to a
    missing tile, history entry or drag start aborts a handler with a
    [TypeError]. *)
Theorem handlers_return (ev : Event) (m : Map) :
  reachable m → enabled ev → wellformed ev → returned (handle ev m) = true.
Proof.
  intros Hr Hev _.
  by destruct (handle_consistent ev m (reachable_consistent m Hr) Hev) as (m' & -> & _).
Qed.

(** X9: the editor never adds, removes or moves a tile, and never changes
    the cell a tile names: in every state the document holds
    [mapRowsCount * mapColsCount] tiles, and the tile at position
    [r * mapColsCount + c] carries row [r] and column [c]. *)
Theorem tiles_stay_grid (m : Map) :
  reachable m →
  length (tiles m) = (mapRowsCount * mapColsCount)%nat
  ∧ ∀ r c : nat, (r < mapRowsCount)%nat → (c < mapColsCount)%nat →
      ∃ t, tiles m !! (r * mapColsCount + c)%nat = Some t
           ∧ data_row t = toString (Z.of_nat r)
           ∧ data_col t = toString (Z.of_nat c).
Proof.
  intros Hr. destruct (reachable_consistent m Hr) as (Hg & _).
  split; [by apply grid_length|].
  intros r c Hrow Hcol.
  destruct (grid_cell (tiles m) r c Hg Hrow Hcol) as (t & Ht & Hc & Hrw).
  by exists t.
Qed.

(** X10: in every state of the editor the selection, the copied tiles and
    the paste anchor refer to tiles of the document, and every clipboard
    entry names a row and a column of the grid, so that [paste] computes
    its targets from numbers. *)
Theorem references_stay_valid (m : Map) :
  reachable m →
  (∀ tile, tile ∈ selectedTiles m → (tile < length (tiles m))%nat)
  ∧ (∀ tile, tile ∈ coppiedTiles m → (tile < length (tiles m))%nat)
  ∧ (∀ tile, tileUnderCoursor m = Some tile → (tile < length (tiles m))%nat)
  ∧ (∀ data, data ∈ coppiedTileData m →
       ∃ r c : nat, (r < mapRowsCount)%nat ∧ (c < mapColsCount)%nat
                    ∧ row data = Some (Z.of_nat r) ∧ col data = Some (Z.of_nat c)).
Proof.
  intros Hr.
  destruct (reachable_consistent m Hr) as (_ & Hsel & Hcop & Hanchor & _ & _ & _ & _ & Hclip).
  unfold valid in Hsel, Hcop.
  rewrite Forall_forall in Hsel. rewrite Forall_forall in Hcop.
  rewrite Forall_forall in Hclip.
  split_and!; [done|done|done|].
  intros data Hdata. by apply cell_at_Some, Hclip.
Qed.

(** X11: in every state of the editor the cursor is not negative and,
    once a snapshot was committed, is the index of an entry; every entry of
    the history holds one record for every tile, in document order, with the
    row and column of the tile. *)
Theorem history_stays_wellformed (m : Map) :
  reachable m →
  0 ≤ currentHistoryIndex m
  ∧ (history m ≠ [] → currentHistoryIndex m < Z.of_nat (length (history m)))
  ∧ ∀ state, state ∈ history m →
      length state = (mapRowsCount * mapColsCount)%nat
      ∧ ∀ r c : nat, (r < mapRowsCount)%nat → (c < mapColsCount)%nat →
          ∃ data, state !! (r * mapColsCount + c)%nat = Some data
                  ∧ row data = Some (Z.of_nat r) ∧ col data = Some (Z.of_nat c).
Proof.
  intros Hr.
  destruct (reachable_consistent m Hr) as (_ & _ & _ & _ & _ & _ & Hcur & Hsnap & _).
  split_and!; [lia| |].
  - intros Hne. destruct (history m); [done|]. simpl in *. lia.
  - intros state Hstate. unfold snapshots in Hsnap. rewrite Forall_forall in Hsnap.
    destruct (Hsnap state Hstate) as (G & HG & ->).
    split; [by rewrite length_fmap, grid_length|].
    intros r c Hrow Hcol.
    destruct (grid_cell G r c HG Hrow Hcol) as (t & Ht & _).
    exists (tileData t). rewrite list_lookup_fmap. fold (cell r c). rewrite Ht.
    split; [done|].
    pose proof (grid_parse G r c HG Hrow Hcol) as [Hpr Hpc].
    rewrite (list_lookup_total_correct _ _ _ Ht) in Hpr, Hpc. done.
Qed.

(** X12: [beforePasteState] is never assigned, so it is empty in every
    state of the editor, and the [mouseover] listener of a tile only records
    the tile as the paste anchor: it changes no tile. *)
Theorem mouseover_records_anchor_only (i j : nat) (m : Map) :
  reachable m → (i < mapRowsCount)%nat → (j < mapColsCount)%nat →
  beforePasteState m = []
  ∧ handle (Mouseover i j) m
    = Returned (with_tileUnderCoursor (Some (i * mapColsCount + j)%nat) m).
Proof.
  intros Hr Hi Hj.
  destruct (reachable_consistent m Hr) as (_ & _ & _ & _ & Hbefore & _).
  split; [done|]. simpl. by rewrite mouseover_anchor.
Qed.

(** X13: in every state of the editor in which the button is up, every
    tile that carries the marker is in the selection. *)
Theorem marked_tiles_are_selected (m : Map) :
  reachable m → mouseDown m = false →
  ∀ (tile : nat) t, tiles m !! tile = Some t → classList_selected t = true →
                    tile ∈ selectedTiles m.
Proof. intros Hr. by apply reachable_marked_selected. Qed.

(** ** Drawing with auto-advance, one tile after the other *)

Lemma addToHistory_fields m :
  selectedTiles (addToHistory m) = selectedTiles m
  ∧ isAutoEnabled (addToHistory m) = isAutoEnabled m
  ∧ mouseDown (addToHistory m) = mouseDown m
  ∧ coppiedTileData (addToHistory m) = coppiedTileData m
  ∧ tileUnderCoursor (addToHistory m) = tileUnderCoursor m.
Proof. done. Qed.

Lemma drawMap_single sprite m (tile : nat) :
  grid (tiles m) → isAutoEnabled m = true → selectedTiles m = [tile] →
  (tile < mapRowsCount * mapColsCount)%nat →
  ∃ m1, drawMap sprite m = Returned m1
        ∧ grid (tiles m1) ∧ isAutoEnabled m1 = true
        ∧ selectedTiles m1 = next_index tile
        ∧ sprite_of <$> tiles m1 !! tile = Some (spritesUrl, sprite)
        ∧ (∀ k : nat, k ≠ tile → sprite_of <$> tiles m1 !! k = sprite_of <$> tiles m !! k)
        ∧ history m1
          = slice0 (history m) (currentHistoryIndex m + 1) ++ [tileData <$> tiles m1]
        ∧ currentHistoryIndex m1 = Z.of_nat (length (history m1)) - 1.
Proof.
  intros Hg Hauto Hsel Hlt.
  assert (valid (tiles m) (selectedTiles m)) as Hv.
  { rewrite Hsel. apply Forall_singleton. by rewrite grid_length. }
  destruct (drawMap_returns sprite m Hg Hv) as (next & Hret & _ & _ & Hnext).
  { by rewrite Hsel. }
  destruct (Hnext Hauto) as (lastTile & Hlast & _ & ->).
  rewrite Hsel in Hlast, Hret. cbn [sort foldr sort_insert last] in Hlast, Hret.
  injection Hlast as <-.
  set (m2 := foldl (drawTile sprite) (with_selectedTiles [tile] m) [tile]) in *.
  destruct (selectNext_fields (next_index tile) (with_selectedTiles [] m2))
    as (Hs3 & _ & Hc3 & _).
  destruct (content_tiles _ _ Hc3) as [Hattr Hsprite].
  destruct (content_fields _ _ Hc3) as (Hh & Hi & _ & Ha & _).
  assert (∀ k : nat, tiles m2 !! k
                     = if bool_decide (k ∈ [tile]) then drawn sprite <$> tiles m !! k
                       else tiles m !! k) as Hm2.
  { intros k. unfold m2. by rewrite drawTiles_lookup. }
  eexists. split; [exact Hret|].
  rewrite addToHistory_tiles, addToHistory_history, addToHistory_index.
  match goal with |- context [addToHistory ?x] =>
    destruct (addToHistory_fields x) as (Hcs & Hca & _) end.
  split_and!.
  - unfold grid. rewrite Hattr. cbn [tiles with_selectedTiles].
    by apply drawTiles_grid.
  - rewrite Hca, Ha. cbn [isAutoEnabled with_selectedTiles]. unfold m2.
    by rewrite (foldl_keeps isAutoEnabled).
  - by rewrite Hcs, Hs3.
  - rewrite <- list_lookup_fmap, Hsprite, list_lookup_fmap.
    cbn [tiles with_selectedTiles]. rewrite Hm2.
    rewrite bool_decide_eq_true_2 by apply list_elem_of_singleton, eq_refl.
    rewrite <- (grid_length _ Hg) in Hlt. apply lookup_lt_is_Some in Hlt as [t ->]. done.
  - intros k Hk. rewrite <- list_lookup_fmap, Hsprite, list_lookup_fmap.
    cbn [tiles with_selectedTiles]. rewrite Hm2.
    by rewrite bool_decide_eq_false_2 by by rewrite list_elem_of_singleton.
  - rewrite Hh, Hi. cbn [history currentHistoryIndex with_selectedTiles]. unfold m2.
    by rewrite (foldl_keeps history), (foldl_keeps currentHistoryIndex).
  - done.
Qed.

(** X14: with auto-advance enabled and one tile selected, drawing a list
    of sprites one after the other returns and fills the tiles that follow
    the selected one in document order, one sprite to a tile; it leaves the
    other tiles as they are, selects the tile after the last one drawn, or
    nothing after the final tile of the grid, and commits one snapshot for
    each sprite. *)
Theorem auto_advance_fills_cells (draws : list string) (m : Map) (tile : nat) :
  grid (tiles m) → isAutoEnabled m = true → selectedTiles m = [tile] →
  (tile < mapRowsCount * mapColsCount)%nat →
  (tile + length draws ≤ mapRowsCount * mapColsCount)%nat →
  ∃ m', draw_all draws m = Returned m'
        ∧ (∀ (i : nat) sprite, draws !! i = Some sprite →
             sprite_of <$> tiles m' !! (tile + i)%nat = Some (spritesUrl, sprite))
        ∧ (∀ k : nat, (k < tile ∨ tile + length draws ≤ k)%nat →
             sprite_of <$> tiles m' !! k = sprite_of <$> tiles m !! k)
        ∧ selectedTiles m'
          = (if decide (tile + length draws < mapRowsCount * mapColsCount)%nat
             then [(tile + length draws)%nat] else [])
        ∧ (Z.of_nat (length (history m)) - 1 ≤ currentHistoryIndex m →
             length (history m') = (length (history m) + length draws)%nat).
Proof.
  revert m tile. induction draws as [|sprite rest IH]; intros m tile Hg Hauto Hsel Hlt Hfit.
  { exists m. simpl. split_and!; [done|done|done| |intros _; lia].
    rewrite Nat.add_0_r. by destruct (decide _). }
  simpl in Hfit. simpl.
  destruct (drawMap_single sprite m tile Hg Hauto Hsel Hlt)
    as (m1 & -> & Hg1 & Hauto1 & Hsel1 & Hdrawn & Hother & Hh1 & Hi1).
  cbn [and_then].
  assert (Z.of_nat (length (history m)) - 1 ≤ currentHistoryIndex m →
          length (history m1) = S (length (history m))) as Hlen1.
  { intros Hcur. rewrite Hh1, length_app, slice0_all by lia. simpl. lia. }
  destruct rest as [|sprite' rest].
  { exists m1. simpl. split_and!; [done| | | |].
    - intros [|i] s' Hs'; [|done]. injection Hs' as <-. by rewrite Nat.add_0_r.
    - intros k Hk. apply Hother. lia.
    - rewrite Hsel1. unfold next_index.
      replace (tile + 1)%nat with (S tile) by lia. done.
    - intros Hcur. rewrite Hlen1 by done. lia. }
  assert (S tile < mapRowsCount * mapColsCount)%nat as Hlt1 by (simpl in Hfit; lia).
  destruct (IH m1 (S tile)) as (m' & Hret & Hfill & Hrest & Hsel' & Hlen');
    [done|done| |done|simpl in *; lia|].
  { rewrite Hsel1. unfold next_index. by destruct (decide _). }
  exists m'. split_and!; [done| | | |].
  - intros [|i] s' Hs'.
    + injection Hs' as <-. rewrite Nat.add_0_r, Hrest by lia. done.
    + replace (tile + S i)%nat with (S tile + i)%nat by lia. by apply Hfill.
  - intros k Hk. rewrite Hrest by (simpl in *; lia). apply Hother. simpl in Hk. lia.
  - rewrite Hsel'.
    replace (S tile + length (sprite' :: rest))%nat
      with (tile + length (sprite :: sprite' :: rest))%nat by (simpl; lia).
    done.
  - intros Hcur. rewrite Hlen' by lia. rewrite Hlen1 by done. simpl. lia.
Qed.

(** ** A commit, then [undo] *)

Lemma mutation_compose f g : mutation f → mutation g → mutation (g ∘ f).
Proof.
  intros Hf Hg m Hm. destruct (Hf m Hm) as (Hgf & Hhf & Hif).
  destruct (Hg (f m) Hgf) as (Hgg & Hhg & Hig).
  unfold compose. split_and!; [done|congruence|congruence].
Qed.

Lemma loadMapFromFile_mutation mapData : mutation (loadMapFromFile mapData).
Proof.
  intros m Hg. split; [by apply loadMapFromFile_grid|].
  unfold loadMapFromFile. split.
  - apply (foldl_keeps history). intros m' d. by destruct (loadTile_history m' d).
  - apply (foldl_keeps currentHistoryIndex). intros m' d. by destruct (loadTile_history m' d).
Qed.

(** X15: when the tiles are as the history entry at the cursor recorded
    them, everything that changed the tiles since, up to and including a
    committed mutation, is undone by one [undo]: it returns and leaves the
    tiles as they were recorded, and a following [redo] leaves them as the
    commit recorded them.  The commit drops the entries above the cursor,
    and [redo] directly after it does nothing. *)
Theorem commit_then_undo (f : Map → Map) (m : Map) :
  grid (tiles m) → snapshots m → at_cursor m →
  0 ≤ currentHistoryIndex m ≤ Z.of_nat (length (history m)) - 1 →
  mutation f →
  let m1 := committed m f in
  redo m1 = Returned m1
  ∧ history m1
    = take (Z.to_nat (currentHistoryIndex m + 1)) (history m) ++ [tileData <$> tiles (f m)]
  ∧ ∃ u, undo m1 = Returned u
         ∧ tileData <$> tiles u = tileData <$> tiles m
         ∧ currentHistoryIndex u = currentHistoryIndex m
         ∧ ∃ r, redo u = Returned r
                ∧ tileData <$> tiles r = tileData <$> tiles (f m).
Proof.
  intros Hg Hs Hat Hi Hf m1.
  destruct (Hf m Hg) as (Hgf & Hhf & Hif).
  assert (history m1
          = take (Z.to_nat (currentHistoryIndex m + 1)) (history m)
              ++ [tileData <$> tiles (f m)]) as Hh1.
  { unfold m1, committed. by rewrite addToHistory_history, Hhf, Hif, slice0_take by lia. }
  assert (length (history m1) = S (Z.to_nat (currentHistoryIndex m + 1))) as Hlen1.
  { rewrite Hh1, length_app, length_take. simpl. lia. }
  assert (currentHistoryIndex m1 = currentHistoryIndex m + 1) as Hi1.
  { unfold m1, committed. rewrite addToHistory_index. fold (committed m f). fold m1. lia. }
  assert (snapshots m1) as Hs1.
  { apply addToHistory_snapshots; [done|]. unfold snapshots. by rewrite Hhf. }
  assert (grid (tiles m1)) as Hg1 by (unfold m1, committed; by rewrite addToHistory_tiles).
  split_and!; [apply redo_at_last_entry; lia|done|].
  destruct (undo_restores m1 Hg1 Hs1) as (u & Hu & Hiu & Hhu & Hatu & Hgu); [lia|].
  exists u. split_and!; [done| |lia|].
  - unfold at_cursor, index in Hatu, Hat.
    rewrite Hiu, Hhu, Hi1, Hh1 in Hatu.
    destruct (Z.ltb_spec (currentHistoryIndex m) 0); [lia|].
    replace (currentHistoryIndex m + 1 - 1) with (currentHistoryIndex m) in Hatu by lia.
    destruct (Z.ltb_spec (currentHistoryIndex m) 0); [lia|].
    rewrite lookup_app_l in Hatu by (rewrite length_take; lia).
    rewrite lookup_take_lt in Hatu by lia. congruence.
  - destruct (redo_restores u Hgu) as (r & Hr & Hir & Hhr & Hatr & _).
    { unfold snapshots. by rewrite Hhu. }
    { rewrite Hhu. lia. }
    exists r. split; [done|].
    unfold at_cursor, index in Hatr. rewrite Hir, Hiu, Hhr, Hhu, Hi1, Hh1 in Hatr.
    replace (currentHistoryIndex m + 1 - 1 + 1) with (currentHistoryIndex m + 1) in Hatr by lia.
    destruct (Z.ltb_spec (currentHistoryIndex m + 1) 0); [lia|].
    rewrite lookup_app_r in Hatr by (rewrite length_take; lia).
    rewrite length_take in Hatr.
    replace (Z.to_nat (currentHistoryIndex m + 1)
             - Z.to_nat (currentHistoryIndex m + 1) `min` length (history m))%nat
      with 0%nat in Hatr by lia.
    simpl in Hatr. congruence.
Qed.

(** ** Copy or cut, then paste in place *)

(** The last entry with a given target, in a clipboard whose entries each
    have the tile they were copied from as target. *)
Lemma last_own_target (target : TileData → option HTMLDivElement)
    (g : HTMLDivElement → TileData) (l : list HTMLDivElement) (i : nat) :
  (∀ j, j ∈ l → target (g j) = Some j) →
  last (filter (λ data, target data = Some i) (g <$> l))
  = if bool_decide (i ∈ l) then Some (g i) else None.
Proof.
  induction l as [|j l IH] using rev_ind; intros Hown; [done|].
  rewrite fmap_app, filter_app, last_app. simpl.
  assert (target (g j) = Some j) as Hj
    by (apply Hown, elem_of_app; right; by apply list_elem_of_singleton).
  destruct (decide (j = i)) as [->|Hne].
  - rewrite filter_cons_True by done. simpl.
    rewrite bool_decide_eq_true_2; [done|].
    apply elem_of_app. right. by apply list_elem_of_singleton.
  - rewrite filter_cons_False by congruence. simpl.
    rewrite IH by (intros k Hk; apply Hown, elem_of_app; by left).
    apply (f_equal (λ b : bool, if b then Some (g i) else None)).
    apply bool_decide_ext. rewrite elem_of_app, list_elem_of_singleton.
    split; [by left|]. intros [?|?]; [done|congruence].
Qed.

Lemma cell_at_cell (r c : nat) :
  (r < mapRowsCount)%nat → (c < mapColsCount)%nat →
  cell_at (Some (Z.of_nat r)) (Some (Z.of_nat c)) = Some (cell r c).
Proof.
  intros Hr Hc. unfold cell_at.
  destruct (Z.leb_spec 0 (Z.of_nat r)); [|lia].
  destruct (Z.ltb_spec (Z.of_nat r) (Z.of_nat mapRowsCount)); [|lia].
  destruct (Z.leb_spec 0 (Z.of_nat c)); [|lia].
  destruct (Z.ltb_spec (Z.of_nat c) (Z.of_nat mapColsCount)); [|lia].
  simpl. by rewrite !Nat2Z.id.
Qed.

(** Pasting entries that were copied from tiles of the grid, with the
    anchor on the tile of the first entry: every entry is written to the
    tile it was copied from. *)
Lemma paste_own_data (M m : Map) (first : HTMLDivElement) (rest : list HTMLDivElement)
    (i : nat) (t : Tile) :
  grid (tiles m) → grid (tiles M) → valid (tiles m) (first :: rest) →
  coppiedTileData M = (λ j, tileData (element m j)) <$> (first :: rest) →
  tileUnderCoursor M = Some first →
  tiles M !! i = Some t →
  sprite_of <$> tiles (paste M) !! i
  = Some (if bool_decide (i ∈ first :: rest) then sprite_of (element m i) else sprite_of t).
Proof.
  intros Hg HG Hv Hclip Hanchor Ht.
  assert (first < mapRowsCount * mapColsCount)%nat as Hfirst.
  { rewrite <- (grid_length _ Hg). by apply Forall_cons in Hv as [? _]. }
  destruct (cell_decompose first Hfirst) as (r & c & Hr & Hc & Hcell).
  rewrite (paste_unfold M (tileData (element m first))
             ((λ j, tileData (element m j)) <$> rest) first) by done.
  rewrite addToHistory_tiles. unfold element. rewrite Hcell.
  destruct (grid_parse (tiles M) r c HG Hr Hc) as [-> ->].
  unfold tileData at 1 2. cbn [row col].
  destruct (grid_parse (tiles m) r c Hg Hr Hc) as [-> ->].
  rewrite (pasteTiles_lookup _ _ _ _ _ _ i t HG Ht).
  unfold pasted_sprite. rewrite Hclip, <- Hcell.
  rewrite last_own_target.
  - by destruct (bool_decide _).
  - intros j Hj. unfold valid in Hv. rewrite Forall_forall in Hv.
    assert (j < mapRowsCount * mapColsCount)%nat as Hlt
      by (rewrite <- (grid_length _ Hg); auto).
    destruct (cell_decompose j Hlt) as (rj & cj & Hrj & Hcj & ->).
    unfold tileData, element. cbn [row col].
    destruct (grid_parse (tiles m) rj cj Hg Hrj Hcj) as [-> ->].
    unfold sub, add.
    replace (Z.of_nat r + (Z.of_nat rj - Z.of_nat r)) with (Z.of_nat rj) by lia.
    replace (Z.of_nat c + (Z.of_nat cj - Z.of_nat c)) with (Z.of_nat cj) by lia.
    by apply cell_at_cell.
Qed.

Lemma cutSelected_fields m :
  coppiedTileData (cutSelected m) = (λ tile, tileData (element m tile)) <$> selectedTiles m
  ∧ tileUnderCoursor (cutSelected m) = tileUnderCoursor m.
Proof.
  unfold cutSelected.
  match goal with |- context [addToHistory ?x] =>
    destruct (addToHistory_fields x) as (_ & _ & _ & -> & ->) end.
  rewrite (foldl_keeps coppiedTileData), (foldl_keeps tileUnderCoursor) by done.
  by destruct (copySelected_fields m) as (_ & -> & -> & _).
Qed.

Lemma cutSelected_grid m : grid (tiles m) → grid (tiles (cutSelected m)).
Proof.
  intros Hg. rewrite cutSelected_tiles. unfold grid, clearSprite.
  rewrite foldl_update_fmap by done. by apply copySelected_grid.
Qed.

Lemma cutSelected_other m (i : nat) :
  i ∉ selectedTiles m →
  sprite_of <$> tiles (cutSelected m) !! i = sprite_of <$> tiles m !! i.
Proof.
  intros Hi. rewrite cutSelected_tiles. unfold clearSprite.
  rewrite foldl_update_other by done.
  by rewrite <- !list_lookup_fmap, copySelected_sprites.
Qed.

(** X16: with the pointer over the first tile of a selection, copy and
    then paste leaves every tile with the sprite it had, and so does cut and
    then paste: every copied sprite is written back to the tile it was taken
    from.  The paste after the cut commits one more snapshot. *)
Theorem paste_in_place (m : Map) (first : HTMLDivElement) (rest : list HTMLDivElement) :
  grid (tiles m) → selectedTiles m = first :: rest →
  valid (tiles m) (selectedTiles m) → tileUnderCoursor m = Some first →
  sprite_of <$> tiles (paste (copySelected m)) = sprite_of <$> tiles m
  ∧ sprite_of <$> tiles (paste (cutSelected m)) = sprite_of <$> tiles m
  ∧ length (history (paste (cutSelected m))) = S (length (history (cutSelected m))).
Proof.
  intros Hg Hsel Hv Hanchor. rewrite Hsel in Hv.
  assert (∀ M, grid (tiles M) → length (tiles (paste M)) = length (tiles m)) as Hlen.
  { intros M HM. rewrite <- (length_fmap marker (tiles (paste M))).
    assert (marker <$> tiles (paste M) = marker <$> tiles M) as ->.
    { unfold paste. destruct (coppiedTileData M); [done|].
      destruct (tileUnderCoursor M); [|done].
      rewrite addToHistory_tiles. apply pasteTiles_marker. }
    by rewrite length_fmap, !grid_length. }
  split_and!.
  - apply list_eq. intros i. rewrite !list_lookup_fmap.
    destruct (tiles (copySelected m) !! i) as [t|] eqn:Ht.
    + rewrite (paste_own_data (copySelected m) m first rest i t);
        [|done|by apply copySelected_grid|done|
         |by destruct (copySelected_fields m) as (_ & _ & -> & _)|done].
      2:{ destruct (copySelected_fields m) as (_ & -> & _). by rewrite Hsel. }
      assert (sprite_of <$> tiles m !! i = Some (sprite_of t)) as Hm.
      { by rewrite <- list_lookup_fmap, <- copySelected_sprites, list_lookup_fmap, Ht. }
      destruct (tiles m !! i) as [t0|] eqn:Ht0; [|done].
      unfold element. rewrite (list_lookup_total_correct _ _ _ Ht0).
      simpl in *. destruct (bool_decide _); congruence.
    + apply lookup_ge_None in Ht.
      rewrite (grid_length _ (copySelected_grid m Hg)), <- (grid_length _ Hg) in Ht.
      rewrite (lookup_ge_None_2 (tiles m)) by done.
      by rewrite lookup_ge_None_2 by (rewrite Hlen; [done|by apply copySelected_grid]).
  - apply list_eq. intros i. rewrite !list_lookup_fmap.
    destruct (tiles (cutSelected m) !! i) as [t|] eqn:Ht.
    + rewrite (paste_own_data (cutSelected m) m first rest i t);
        [|done|by apply cutSelected_grid|done|
         |by destruct (cutSelected_fields m) as [_ ->]|done].
      2:{ destruct (cutSelected_fields m) as [-> _]. by rewrite Hsel. }
      rewrite <- Hsel.
      destruct (bool_decide (i ∈ selectedTiles m)) eqn:Hin.
      * apply lookup_lt_Some in Ht.
        rewrite (grid_length _ (cutSelected_grid m Hg)), <- (grid_length _ Hg) in Ht.
        apply lookup_lt_is_Some in Ht as [t0 Ht0]. unfold element.
        by rewrite (list_lookup_total_correct _ _ _ Ht0), Ht0.
      * apply bool_decide_eq_false in Hin.
        by rewrite <- (cutSelected_other m i Hin), Ht.
    + apply lookup_ge_None in Ht.
      rewrite (grid_length _ (cutSelected_grid m Hg)), <- (grid_length _ Hg) in Ht.
      rewrite (lookup_ge_None_2 (tiles m)) by done.
      by rewrite lookup_ge_None_2 by (rewrite Hlen; [done|by apply cutSelected_grid]).
  - destruct (cutSelected_fields m) as [Hclip Hanchor'].
    rewrite (paste_unfold (cutSelected m) (tileData (element m first))
               ((λ j, tileData (element m j)) <$> rest) first);
      [|by rewrite Hclip, Hsel|by rewrite Hanchor'].
    rewrite addToHistory_history, length_app.
    rewrite (foldl_keeps history), (foldl_keeps currentHistoryIndex);
      [|intros m' d; unfold pasteTile; by destruct (querySelector _ _ _)..].
    unfold cutSelected at 1 2. rewrite addToHistory_index. fold (cutSelected m).
    rewrite slice0_all by lia. simpl. lia.
Qed.

(** ** Import, record by record *)

Lemma loaded_attributes G G' mapData (i : nat) t :
  attributes <$> G = attributes <$> G' → loaded G mapData i t = loaded G' mapData i t.
Proof.
  intros Hattr. unfold loaded.
  rewrite (list_filter_iff _
             (λ data, bool_decide (querySelector (e_col data) (e_row data) G' = Some i)
                      && negb (String.eqb (bgPosition data) "0% 0%") = true)); [done|].
  intros data. by rewrite (querySelector_attributes _ _ G G' Hattr).
Qed.

Lemma loaded_snoc G mapData data (i : nat) t :
  loaded G (mapData ++ [data]) i t
  = if bool_decide (querySelector (e_col data) (e_row data) G = Some i)
       && negb (String.eqb (bgPosition data) "0% 0%")
    then set_backgroundPosition (bgPosition data) (set_background spritesUrl t)
    else loaded G mapData i t.
Proof.
  unfold loaded. rewrite filter_app, last_app.
  destruct (bool_decide _ && negb _) eqn:Hp.
  - by rewrite filter_cons_True by done.
  - by rewrite filter_cons_False by by rewrite Hp.
Qed.

Lemma set_background_loaded v G mapData (i : nat) t :
  set_background v (loaded G mapData i t) = set_background v t.
Proof. unfold loaded. by destruct (last _). Qed.

Lemma loadTiles_attributes mapData m :
  attributes <$> tiles (foldl loadTile m mapData) = attributes <$> tiles m.
Proof. apply (foldl_keeps (λ m, attributes <$> tiles m)). apply loadTile_attributes. Qed.

Lemma loadTiles_loaded (mapData : list ExportTile) m (i : nat) t :
  tiles m !! i = Some t →
  tiles (foldl loadTile m mapData) !! i = Some (loaded (tiles m) mapData i t).
Proof.
  intros Ht. induction mapData as [|data mapData IH] using rev_ind; [done|].
  rewrite foldl_snoc, loaded_snoc.
  pose proof (loadTiles_attributes mapData m) as Hattr.
  set (M := foldl loadTile m mapData) in *. unfold loadTile.
  rewrite (querySelector_attributes _ _ _ _ Hattr).
  destruct (querySelector (e_col data) (e_row data) (tiles m)) as [k|]; [|done].
  destruct (negb (String.eqb (bgPosition data) "0% 0%")).
  2:{ by rewrite andb_false_r. }
  rewrite andb_true_r, !update_tiles.
  destruct (decide (k = i)) as [->|Hne].
  - rewrite bool_decide_eq_true_2 by done.
    rewrite !list_lookup_alter_eq.
    rewrite IH. simpl. by rewrite set_background_loaded.
  - rewrite bool_decide_eq_false_2 by congruence.
    by rewrite !list_lookup_alter_ne.
Qed.

(** X17: [loadMapFromFile] overlays the records of a file of the editor,
    whose columns and rows stand for themselves in the selector and whose
    positions are the sentinel or positions of the palette, on the tiles: a
    tile takes the sprite sheet at the position of the last record that
    selects it and does not carry the sentinel position, and stays as it is
    when there is no such record; the markers, the selection, the clipboard
    and the history stay as they are, and loading the same records a second
    time changes nothing. *)
Theorem import_overlays (mapData : list ExportTile) (m : Map) :
  Forall sprite_record mapData →
  (∀ (tile : nat) t, tiles m !! tile = Some t →
     tiles (loadMapFromFile mapData m) !! tile
     = Some (loaded (tiles m) mapData tile t))
  ∧ marker <$> tiles (loadMapFromFile mapData m) = marker <$> tiles m
  ∧ controller (loadMapFromFile mapData m) = controller m
  ∧ history (loadMapFromFile mapData m) = history m
  ∧ tiles (loadMapFromFile mapData (loadMapFromFile mapData m))
    = tiles (loadMapFromFile mapData m).
Proof.
  intros _. unfold loadMapFromFile. split_and!.
  - intros tile t. apply loadTiles_loaded.
  - apply (foldl_keeps (λ m, marker <$> tiles m)). apply loadTile_marker.
  - apply (foldl_keeps controller). apply loadTile_controller.
  - apply (foldl_keeps history). intros m' d. by destruct (loadTile_history m' d).
  - pose proof (loadTiles_attributes mapData m) as Hattr.
    apply list_eq. intros i.
    destruct (tiles m !! i) as [t|] eqn:Ht.
    + rewrite (loadTiles_loaded mapData _ i (loaded (tiles m) mapData i t))
        by by apply loadTiles_loaded.
      rewrite (loadTiles_loaded mapData m i t Ht). f_equal.
      rewrite (loaded_attributes _ (tiles m)) by done.
      unfold loaded. by destruct (last _).
    + apply lookup_ge_None in Ht.
      assert (length (tiles (foldl loadTile m mapData)) = length (tiles m)) as Hlen.
      { by rewrite <- (length_fmap attributes), Hattr, length_fmap. }
      rewrite !lookup_ge_None_2; [done|by rewrite Hlen|].
      rewrite <- (length_fmap attributes), loadTiles_attributes, length_fmap. by rewrite Hlen.
Qed.

(** X18: on a grid, [createMapJSON] emits one record for every tile, in
    document order: the record at position [r * mapColsCount + c] has this
    position as [id], names row [r] and column [c], and carries the computed
    background position of the tile. *)
Theorem export_lists_every_cell (m : Map) :
  grid (tiles m) →
  length (createMapJSON m) = (mapRowsCount * mapColsCount)%nat
  ∧ ∀ r c : nat, (r < mapRowsCount)%nat → (c < mapColsCount)%nat →
      ∃ t, tiles m !! (r * mapColsCount + c)%nat = Some t
           ∧ createMapJSON m !! (r * mapColsCount + c)%nat
             = Some {| id := (r * mapColsCount + c)%nat;
                       bgPosition := computed_backgroundPosition t;
                       e_col := toString (Z.of_nat c);
                       e_row := toString (Z.of_nat r) |}.
Proof.
  intros Hg. unfold createMapJSON. split; [by rewrite length_imap, grid_length|].
  intros r c Hr Hc.
  destruct (grid_cell (tiles m) r c Hg Hr Hc) as (t & Ht & Hcol & Hrow).
  exists t. split; [done|].
  rewrite list_lookup_imap. fold (cell r c). rewrite Ht. simpl. by rewrite Hcol, Hrow.
Qed.

(** ** The palette *)

Lemma uint_prefix (d d' : uint) (s s' : string) :
  (NilEmpty.string_of_uint d ++ String "p" s
   = NilEmpty.string_of_uint d' ++ String "p" s')%string →
  d = d' ∧ s = s'.
Proof.
  revert d'. induction d as [|d IH|d IH|d IH|d IH|d IH|d IH|d IH|d IH|d IH|d IH];
    intros [|d'|d'|d'|d'|d'|d'|d'|d'|d'|d']; simpl; intros Heq;
    try discriminate Heq;
    try (injection Heq as Heq; destruct (IH d' Heq) as [-> ->]; done).
  by injection Heq as ->.
Qed.

Lemma toString_uint (z : Z) : 0 ≤ z → ∃ d, toString z = NilEmpty.string_of_uint d.
Proof.
  intros Hz. unfold toString. destruct z as [|p|p]; simpl; [by exists (D0 Nil)| |lia].
  destruct (Pos.to_uint p) as [|d|d|d|d|d|d|d|d|d|d]; [by exists (D0 Nil)|by eexists..].
Qed.

Lemma spritePosition_inj (i j i' j' : nat) :
  spritePosition i j = spritePosition i' j' → i = i' ∧ j = j'.
Proof.
  unfold spritePosition, spriteBorderSize, spriteSize.
  destruct (toString_uint (1 * (Z.of_nat j + 1) + 47 * Z.of_nat j)) as [dj Hj]; [lia|].
  destruct (toString_uint (1 * (Z.of_nat j' + 1) + 47 * Z.of_nat j')) as [dj' Hj']; [lia|].
  destruct (toString_uint (1 * (Z.of_nat i + 1) + 47 * Z.of_nat i)) as [di Hi]; [lia|].
  destruct (toString_uint (1 * (Z.of_nat i' + 1) + 47 * Z.of_nat i')) as [di' Hi']; [lia|].
  intros Heq.
  assert (dj = dj' ∧ di = di') as [-> ->].
  { rewrite Hj, Hj', Hi, Hi' in Heq. simpl in Heq. injection Heq as Heq.
    apply uint_prefix in Heq as [-> Heq]. split; [done|].
    injection Heq as Heq. by apply uint_prefix in Heq as [-> _]. }
  rewrite <- Hj' in Hj. rewrite <- Hi' in Hi.
  apply toString_inj in Hj. apply toString_inj in Hi. lia.
Qed.

Lemma rows_decompose (cols n i : nat) :
  (i < n * cols)%nat → ∃ r c, (r < n)%nat ∧ (c < cols)%nat ∧ i = (r * cols + c)%nat.
Proof.
  intros Hi. assert (cols ≠ 0)%nat as Hcols by lia.
  exists (i / cols)%nat, (i mod cols)%nat. split_and!.
  - apply Nat.Div0.div_lt_upper_bound. lia.
  - by apply Nat.mod_upper_bound.
  - pose proof (Nat.div_mod_eq i cols). lia.
Qed.

Lemma palette_lookup (i j : nat) :
  (i < spritesRowsCount)%nat → (j < spritesColsCount)%nat →
  palette !! (i * spritesColsCount + j)%nat = Some (spritePosition i j).
Proof. intros Hi Hj. unfold palette. by rewrite rows_lookup. Qed.

Lemma palette_elem p :
  p ∈ palette →
  ∃ i j, (i < spritesRowsCount)%nat ∧ (j < spritesColsCount)%nat ∧ p = spritePosition i j.
Proof.
  intros (k & Hk)%list_elem_of_lookup_1.
  assert (k < spritesRowsCount * spritesColsCount)%nat as Hlt.
  { apply lookup_lt_Some in Hk. unfold palette in Hk. by rewrite rows_length in Hk. }
  destruct (rows_decompose _ _ _ Hlt) as (i & j & Hi & Hj & ->).
  rewrite palette_lookup in Hk by done. exists i, j. by injection Hk as <-.
Qed.

(** X19: the palette holds 640 entries with pairwise different positions,
    so no two entries draw the same sprite; no entry has the position that
    the import takes as the sentinel, and a tile drawn with an entry shows
    the position of the entry as its computed background position, so that
    the export records it. *)
Theorem palette_sprites_distinct :
  length palette = 640%nat
  ∧ NoDup palette
  ∧ (∀ i j i' j', spritePosition i j = spritePosition i' j' → i = i' ∧ j = j')
  ∧ ∀ p t, p ∈ palette →
      p ≠ "0% 0%" ∧ computed_backgroundPosition (drawn p t) = p.
Proof.
  split_and!.
  - unfold palette. by rewrite rows_length.
  - apply NoDup_alt. intros a b p Ha Hb.
    assert (a < spritesRowsCount * spritesColsCount)%nat as Hlta.
    { apply lookup_lt_Some in Ha. unfold palette in Ha. by rewrite rows_length in Ha. }
    assert (b < spritesRowsCount * spritesColsCount)%nat as Hltb.
    { apply lookup_lt_Some in Hb. unfold palette in Hb. by rewrite rows_length in Hb. }
    destruct (rows_decompose _ _ _ Hlta) as (i & j & Hi & Hj & ->).
    destruct (rows_decompose _ _ _ Hltb) as (i' & j' & Hi' & Hj' & ->).
    rewrite palette_lookup in Ha, Hb by done.
    assert (spritePosition i j = spritePosition i' j') as Heq by congruence.
    by apply spritePosition_inj in Heq as [-> ->].
  - apply spritePosition_inj.
  - intros p t (i & j & _ & _ & ->)%palette_elem. by split.
Qed.

(** ** Export, then import into a fresh grid (C2) *)

Lemma verbatim_uint (d : uint) : verbatim (NilEmpty.string_of_uint d) = true.
Proof. induction d; done. Qed.

Lemma verbatim_toString (z : Z) : 0 ≤ z → verbatim (toString z) = true.
Proof. intros Hz. destruct (toString_uint z Hz) as [d ->]. apply verbatim_uint. Qed.

Lemma palette_computed t :
  style_backgroundPosition t ∈ palette →
  computed_backgroundPosition t = style_backgroundPosition t
  ∧ style_backgroundPosition t ≠ "0% 0%".
Proof.
  intros (i & j & _ & _ & Hp)%palette_elem.
  unfold computed_backgroundPosition. rewrite Hp. by split.
Qed.

Lemma imported_sprite_tile t t0 :
  sprite_tile t → sprite_of (imported t t0) = sprite_of t.
Proof.
  intros [Hbg Hp]. destruct (palette_computed t Hp) as [Hc Hne].
  unfold imported. rewrite Hc.
  destruct (String.eqb_spec (style_backgroundPosition t) "0% 0%"); [done|].
  unfold sprite_of. simpl. by rewrite Hbg.
Qed.

Lemma imported_empty_tile t t0 : empty_tile t → imported t t0 = t0.
Proof.
  unfold empty_tile, sprite_of, imported, computed_backgroundPosition.
  by intros [H|H]; injection H as _ Hp; rewrite Hp.
Qed.

Lemma sprite_shown_sprite_tile t :
  sprite_tile t → sprite_shown t = Some (style_backgroundPosition t).
Proof. intros [Hbg _]. unfold sprite_shown. by rewrite Hbg, String.eqb_refl. Qed.

Lemma sprite_shown_empty_tile t : empty_tile t → sprite_shown t = None.
Proof.
  unfold empty_tile, sprite_of, sprite_shown.
  by intros [H|H]; injection H as Hb _; rewrite Hb.
Qed.

(** The records of the export of a grid of empty tiles and palette sprites
    are records of the editor. *)
Lemma export_sprite_records m :
  grid (tiles m) → Forall editor_tile (tiles m) →
  Forall sprite_record (createMapJSON m).
Proof.
  intros Hg Hts. apply Forall_lookup_2. intros i data. unfold createMapJSON.
  rewrite list_lookup_imap.
  destruct (tiles m !! i) as [t|] eqn:Ht; [|done]. intros [= <-].
  destruct (cell_decompose i) as (r & c & Hr & Hc & ->).
  { rewrite <- (grid_length _ Hg). by eapply lookup_lt_Some. }
  destruct (grid_cell (tiles m) r c Hg Hr Hc) as (t' & Ht' & Hcol & Hrow).
  assert (t' = t) as -> by congruence.
  split; [split; simpl|simpl].
  - rewrite Hcol. apply verbatim_toString. lia.
  - rewrite Hrow. apply verbatim_toString. lia.
  - destruct (Forall_lookup_1 _ _ _ _ Hts Ht) as [He|[_ Hp]].
    + left. unfold empty_tile, sprite_of in He. unfold computed_backgroundPosition.
      by destruct He as [H|H]; injection H as _ Hp; rewrite Hp.
    + right. by destruct (palette_computed t Hp) as [-> _].
Qed.

Lemma grid_init_tile m (i : nat) t :
  grid (tiles m) → tiles m !! i = Some t →
  ∃ r c, init_tiles !! i = Some (createTile r c)
         ∧ data_col t = data_col (createTile r c)
         ∧ data_row t = data_row (createTile r c).
Proof.
  intros Hg Ht.
  destruct (cell_decompose i) as (r & c & Hr & Hc & ->).
  { rewrite <- (grid_length _ Hg). by eapply lookup_lt_Some. }
  exists r, c. rewrite init_tiles_cell by done.
  destruct (grid_cell (tiles m) r c Hg Hr Hc) as (t' & Ht' & H1 & H2).
  assert (t' = t) as -> by congruence. done.
Qed.

Lemma import_export_sprite_tile m (i : nat) t :
  grid (tiles m) → tiles m !! i = Some t → sprite_tile t →
  sprite_of <$> tiles (loadMapFromFile (createMapJSON m) init) !! i = Some (sprite_of t).
Proof.
  intros Hg Ht Hs. rewrite import_export_lookup, Ht by done.
  destruct (grid_init_tile m i t Hg Ht) as (r & c & -> & _). simpl.
  by rewrite imported_sprite_tile.
Qed.

Lemma import_export_empty_tile m (i : nat) t :
  grid (tiles m) → tiles m !! i = Some t → empty_tile t →
  tiles (loadMapFromFile (createMapJSON m) init) !! i = init_tiles !! i.
Proof.
  intros Hg Ht He. rewrite import_export_lookup, Ht by done.
  destruct (grid_init_tile m i t Hg Ht) as (r & c & -> & _). simpl.
  by rewrite imported_empty_tile.
Qed.

Lemma import_export_shown m :
  grid (tiles m) → Forall editor_tile (tiles m) →
  sprite_shown <$> tiles (loadMapFromFile (createMapJSON m) init)
  = sprite_shown <$> tiles m.
Proof.
  intros Hg Hts. apply list_eq. intros i. rewrite !list_lookup_fmap.
  destruct (tiles m !! i) as [t|] eqn:Ht.
  - destruct (Forall_lookup_1 _ _ _ _ Hts Ht) as [He|Hs].
    + rewrite (import_export_empty_tile m i t Hg Ht He).
      destruct (grid_init_tile m i t Hg Ht) as (r & c & -> & _). simpl.
      by rewrite (sprite_shown_empty_tile t He).
    + pose proof (import_export_sprite_tile m i t Hg Ht Hs) as Hi.
      destruct (tiles (loadMapFromFile (createMapJSON m) init) !! i) as [t'|]; [|done].
      simpl in Hi. injection Hi as Hbg Hp. simpl.
      rewrite (sprite_shown_sprite_tile t Hs). unfold sprite_shown.
      destruct Hs as [Hs _]. by rewrite Hbg, Hs, String.eqb_refl, Hp.
  - by rewrite import_export_lookup, Ht.
Qed.


(** ** The sprites of the editor are those of the palette *)

Lemma editor_tile_ext t t' : sprite_of t' = sprite_of t → editor_tile t → editor_tile t'.
Proof.
  unfold editor_tile, empty_tile, sprite_tile, sprite_of.
  intros [= -> ->]. done.
Qed.

Lemma editor_tile_marker b t : editor_tile t → editor_tile (set_selected b t).
Proof. by apply editor_tile_ext. Qed.

Lemma editor_tile_cleared t : editor_tile (set_background "transparent" t).
Proof. left. by right. Qed.

Lemma editor_tile_drawn p t :
  p ∈ palette → editor_tile (set_backgroundPosition p (set_background spritesUrl t)).
Proof. intros Hp. right. by split. Qed.

Lemma editor_tile_data t : editor_tile t → editor_data (tileData t).
Proof.
  unfold editor_tile, empty_tile, sprite_tile, sprite_of, editor_data. simpl.
  intros [[H|H]|H]; [by left|right; by left|right; by right].
Qed.

Lemma editor_data_tile data t :
  editor_data data →
  editor_tile (set_backgroundPosition (bgPos data) (set_background (bg data) t)).
Proof.
  unfold editor_data, editor_tile, empty_tile, sprite_tile, sprite_of. simpl.
  intros [H|[H|H]]; [left; by left|left; by right|by right].
Qed.

Lemma editor_tile_inhabitant : editor_tile inhabitant.
Proof. left. by left. Qed.

Lemma editor_tiles_ext (ts ts' : list Tile) :
  sprite_of <$> ts' = sprite_of <$> ts → Forall editor_tile ts → Forall editor_tile ts'.
Proof.
  intros Hs Hts. apply Forall_lookup_2. intros i t' Ht'.
  pose proof (f_equal (λ l, l !! i) Hs) as Hi. simpl in Hi.
  rewrite !list_lookup_fmap, Ht' in Hi. simpl in Hi.
  destruct (ts !! i) as [t|] eqn:Ht; [|done].
  simpl in Hi.
  apply (editor_tile_ext t); [congruence|]. by apply (Forall_lookup_1 _ _ _ _ Hts Ht).
Qed.

Lemma own_element m tile : own_sprites m → editor_tile (element m tile).
Proof.
  intros (Hts & _). unfold element. rewrite list_lookup_total_alt.
  destruct (tiles m !! tile) as [t|] eqn:Ht; simpl.
  - by apply (Forall_lookup_1 _ _ _ _ Hts Ht).
  - apply editor_tile_inhabitant.
Qed.

Lemma own_update i f m :
  (∀ t, editor_tile t → editor_tile (f t)) → own_sprites m → own_sprites (update i f m).
Proof.
  intros Hf (Hts & Hclip & Hh). split_and!; [|done|done].
  rewrite update_tiles. apply Forall_alter; [done|]. intros t _. apply Hf.
Qed.

Lemma own_fields m m' :
  sprite_of <$> tiles m' = sprite_of <$> tiles m →
  coppiedTileData m' = coppiedTileData m → history m' = history m →
  own_sprites m → own_sprites m'.
Proof.
  intros Hs Hc Hh (Hts & Hclip & Hhist). unfold own_sprites. rewrite Hc, Hh.
  split_and!; [|done|done]. by apply (editor_tiles_ext (tiles m)).
Qed.

Lemma own_content m m' : content m' = content m → own_sprites m → own_sprites m'.
Proof.
  intros Hc. destruct (content_tiles _ _ Hc) as [_ Hs].
  destruct (content_clipboard _ _ Hc) as (_ & _ & _ & Hcd).
  destruct (content_fields _ _ Hc) as (Hh & _). by apply own_fields.
Qed.

Lemma own_commit m : own_sprites m → own_sprites (addToHistory m).
Proof.
  intros (Hts & Hclip & Hh). split_and!; [done|done|].
  rewrite addToHistory_history. apply Forall_app. split.
  - unfold slice0. by apply Forall_take.
  - apply Forall_singleton. apply Forall_fmap.
    eapply Forall_impl; [exact Hts|]. intros t. apply editor_tile_data.
Qed.

Lemma own_foldl {B} (Q : B → Prop) (step : Map → B → Map) (l : list B) m :
  (∀ m b, Q b → own_sprites m → own_sprites (step m b)) →
  Forall Q l → own_sprites m → own_sprites (foldl step m l).
Proof.
  intros Hstep. revert m.
  induction l as [|b l IH]; intros m Hl Hm; simpl; [done|].
  apply Forall_cons in Hl as [Hb Hl]. apply IH; [done|]. by apply Hstep.
Qed.

Lemma own_foldl_all {B} (step : Map → B → Map) (l : list B) m :
  (∀ m b, own_sprites m → own_sprites (step m b)) →
  own_sprites m → own_sprites (foldl step m l).
Proof.
  intros Hstep Hm. apply (own_foldl (λ _, True)); [by intros m' b _; apply Hstep| |done].
  by apply Forall_true.
Qed.

Lemma init_own : own_sprites init.
Proof.
  split_and!; [|apply Forall_nil_2..].
  apply Forall_lookup_2. intros i t Ht.
  destruct (cell_decompose i) as (r & c & Hr & Hc & ->).
  { rewrite <- init_tiles_length. by eapply lookup_lt_Some. }
  change (tiles init) with init_tiles in Ht.
  rewrite init_tiles_cell in Ht by done. injection Ht as <-. left. by left.
Qed.

Lemma copySelected_own m : own_sprites m → own_sprites (copySelected m).
Proof.
  intros Hm. unfold copySelected. apply own_foldl_all.
  - intros m' tile. apply own_update. intros t. apply editor_tile_marker.
  - pose proof Hm as (Hts & _ & Hh). split_and!; [done| |done]. simpl.
    apply Forall_fmap, Forall_forall. intros tile _. simpl.
    apply editor_tile_data. by apply own_element.
Qed.

Lemma cutSelected_own m : own_sprites m → own_sprites (cutSelected m).
Proof.
  intros Hm. unfold cutSelected. apply own_commit, own_foldl_all.
  - intros m' tile. apply own_update. intros t _. apply editor_tile_cleared.
  - by apply copySelected_own.
Qed.

Lemma deleteSelected_own m : own_sprites m → own_sprites (deleteSelected m).
Proof.
  intros Hm. unfold deleteSelected. apply own_commit.
  apply (own_fields (foldl (λ m tile, update tile (set_selected false)
                                        (update tile (set_background "transparent") m))
                           m (selectedTiles m))); [done..|].
  apply own_foldl_all; [|done].
  intros m' tile Hm'. apply own_update; [intros t; apply editor_tile_marker|].
  apply own_update; [|done]. intros t _. apply editor_tile_cleared.
Qed.

Lemma pasteTile_own anchorRow anchorCol refRow refCol m data :
  editor_data data → own_sprites m →
  own_sprites (pasteTile anchorRow anchorCol refRow refCol m data).
Proof.
  intros Hd Hm. unfold pasteTile. destruct (querySelector _ _ _) as [target|]; [|done].
  rewrite update_update. apply own_update; [|done].
  intros t _. by apply editor_data_tile.
Qed.

Lemma paste_own m : own_sprites m → own_sprites (paste m).
Proof.
  intros Hm. unfold paste.
  destruct (coppiedTileData m) as [|first rest] eqn:Hclip; [done|].
  destruct (tileUnderCoursor m); [|done].
  apply own_commit. rewrite <- Hclip.
  apply (own_foldl editor_data); [apply pasteTile_own|by destruct Hm as (_ & ? & _)|done].
Qed.

Lemma restoreTile_own m data :
  editor_data data → own_sprites m → own_sprites (restoreTile m data).
Proof.
  intros Hd Hm. unfold restoreTile. destruct (querySelector _ _ _) as [tile|]; [|done].
  rewrite update_update. apply own_update; [|done].
  intros t _. by apply editor_data_tile.
Qed.

Lemma restoreFromHistory_own (i : Z) m :
  own_sprites m → own_sprites (state_of (restoreFromHistory i m)).
Proof.
  intros Hm. unfold restoreFromHistory.
  destruct (index (history m) i) as [state|] eqn:Hi; [|done]. simpl.
  apply (own_foldl editor_data); [apply restoreTile_own| |done].
  destruct Hm as (_ & _ & Hh). unfold index in Hi.
  destruct (i <? 0); [done|]. by apply (Forall_lookup_1 _ _ _ _ Hh Hi).
Qed.

Lemma undo_own m : own_sprites m → own_sprites (state_of (undo m)).
Proof.
  intros Hm. unfold undo. destruct (currentHistoryIndex m <=? 0); [done|].
  apply restoreFromHistory_own. by apply (own_fields m).
Qed.

Lemma redo_own m : own_sprites m → own_sprites (state_of (redo m)).
Proof.
  intros Hm. unfold redo.
  destruct (Z.of_nat (length (history m)) - 1 <=? currentHistoryIndex m); [done|].
  apply restoreFromHistory_own. by apply (own_fields m).
Qed.

Lemma keydown_own e m : own_sprites m → own_sprites (state_of (keydown e m)).
Proof.
  intros Hm. unfold keydown. cbv zeta.
  repeat match goal with |- context [if ?b then _ else _] => destruct b end;
    cbn [state_of];
    auto using deleteSelected_own, copySelected_own, cutSelected_own, paste_own,
      undo_own, redo_own.
Qed.

Lemma selectNextTile_own m : own_sprites m → own_sprites (state_of (selectNextTile m)).
Proof.
  intros Hm.
  assert (own_sprites (with_selectedTiles [] m)) as Hm1 by by apply (own_fields m).
  unfold selectNextTile.
  destruct (last (selectedTiles m)) as [lastTile|]; [|done].
  repeat match goal with
         | |- context [if ?b then _ else _] => destruct b
         | |- context [match ?q with Some _ => _ | None => _ end] => destruct q
         end;
    cbn [state_of]; try done;
    (match goal with
     | |- own_sprites (with_selectedTiles _ ?x) => apply (own_fields x); [done..|]
     end;
     apply own_update; [intros t; apply editor_tile_marker|done]).
Qed.

Lemma drawMap_own sprite m :
  sprite ∈ palette → own_sprites m → own_sprites (state_of (drawMap sprite m)).
Proof.
  intros Hp Hm. unfold drawMap.
  destruct (Z.of_nat (length (selectedTiles m)) <=? 0); [done|].
  set (m1 := with_selectedTiles (sort (tiles m) (selectedTiles m)) m).
  assert (own_sprites (foldl (drawTile sprite) m1 (selectedTiles m1))) as Hm2.
  { apply own_foldl_all; [|by apply (own_fields m)].
    intros m' tile Hm'. unfold drawTile.
    apply own_update; [intros t; apply editor_tile_marker|].
    rewrite update_update. apply own_update; [|done].
    intros t _. by apply editor_tile_drawn. }
  destruct (isAutoEnabled _).
  - pose proof (selectNextTile_own _ Hm2) as Hnext.
    destruct (selectNextTile _); cbn [and_then state_of] in *; [by apply own_commit|done].
  - cbn [and_then state_of]. apply own_commit.
    by apply (own_fields (foldl (drawTile sprite) m1 (selectedTiles m1))).
Qed.

Lemma loadTile_own m data :
  sprite_record data → own_sprites m → own_sprites (loadTile m data).
Proof.
  intros [_ Hpos] Hm. unfold loadTile.
  destruct (querySelector _ _ _) as [tile|]; [|done].
  destruct (String.eqb_spec (bgPosition data) "0% 0%") as [|Hne]; [done|]. simpl.
  rewrite update_update. apply own_update; [|done].
  intros t _. apply editor_tile_drawn. by destruct Hpos.
Qed.

Lemma authored_reachable m : authored m → reachable m.
Proof. induction 1; [apply reachable_init|by apply reachable_handle]. Qed.

Lemma handle_own ev m :
  reachable m → enabled ev → own_file ev →
  own_sprites m → own_sprites (state_of (handle ev m)).
Proof.
  intros Hr Hev Hfile Hm. pose proof (reachable_consistent m Hr) as Hc.
  pose proof Hc as (_ & _ & _ & _ & Hbefore & Hdown & _).
  destruct ev as [p| | |i j|checked|e|e|i j|mapData]; cbn [handle state_of].
  - destruct (mouseDown m) eqn:Hd.
    + destruct (dragStartPosition m) as [s|] eqn:Hs; [|by destruct Hdown].
      rewrite (mousemove_down p m s) by done. cbn [state_of].
      destruct (selectTiles_preview (with_mousePosition p m) s Hs) as (_ & Hcont & _).
      by apply (own_content m).
    + rewrite mousemove_up by done. by apply (own_content m).
  - destruct (mousedown_spec m) as (_ & Hcont & _). by apply (own_content m).
  - destruct (dragStartPosition m) as [s|] eqn:Hs.
    + destruct (mouseup_spec m s Hs) as (_ & Hcont & _). by apply (own_content m).
    + unfold mouseup, selectTiles. simpl. rewrite Hs. by apply (own_content m).
  - rewrite mouseover_anchor by done. done.
  - done.
  - by apply keydown_own.
  - unfold keyup. by destruct (_ || _).
  - apply drawMap_own; [|done]. destruct Hev as [Hi Hj].
    apply (list_elem_of_lookup_2 _ (i * spritesColsCount + j)%nat).
    by apply palette_lookup.
  - unfold loadMapFromFile. by apply (own_foldl sprite_record); [apply loadTile_own|..].
Qed.

Lemma authored_own m : authored m → own_sprites m.
Proof.
  induction 1 as [|ev m Ha IH Hev Hfile]; [apply init_own|].
  apply handle_own; [by apply authored_reachable|done..].
Qed.

(** X28: in every state the editor reaches when the files it loads hold
    records of the editor, every tile is empty or holds a sprite of the
    palette: drawing, cut, [Delete], paste, [undo], [redo] and the load of
    such a file bring no other style to a tile.  The export of such a state
    holds records of the editor, so that it can be loaded in turn, and
    loaded into the grid that [init] builds it shows on every tile the
    sprite that the tile shows. *)
Theorem editor_sprites_round_trip (m : Map) :
  authored m →
  reachable m
  ∧ Forall editor_tile (tiles m)
  ∧ own_file (FileLoad (createMapJSON m))
  ∧ sprite_shown <$> tiles (loadMapFromFile (createMapJSON m) init)
    = sprite_shown <$> tiles m.
Proof.
  intros Ha. pose proof (authored_reachable m Ha) as Hr.
  destruct (reachable_consistent m Hr) as (Hg & _).
  destruct (authored_own m Ha) as (Hts & _).
  split_and!; [done..| |].
  - by apply export_sprite_records.
  - by apply import_export_shown.
Qed.

(** ** A click *)

(** X20: a press and release of the pointer at one point, without the
    modifier, selects exactly the tiles that hold the point strictly inside
    their rectangle: a point on the edge of a tile does not select it.  The
    click changes neither the sprites nor the clipboard nor the history. *)
Theorem click_selects_interior (p : Position2D) (m : Map) :
  mouseDown m = false → ctrlDown m = false →
  ∃ m', click p m = Returned m'
        ∧ content m' = content m
        ∧ ∀ tile : nat,
            tile ∈ selectedTiles m' ↔
            (tile < length (tiles m))%nat
            ∧ b_left (tilePosition tile) < x p < b_right (tilePosition tile)
            ∧ b_top (tilePosition tile) < y p < b_bottom (tilePosition tile).
Proof.
  intros Hd Hctrl.
  destruct (click_spec p m Hd) as (m' & Hret & Hsel & Hc & _).
  exists m'. split_and!; [done|done|].
  intros tile. rewrite Hsel, Hctrl. simpl. rewrite hit_elem_iff.
  unfold intersects, selectionBounds. simpl.
  rewrite !Z.min_id, !Z.max_id, !andb_true_iff, !Z.ltb_lt. lia.
Qed.

(** ** The order of the selection *)

Lemma sort_permutation ts (l l' : list HTMLDivElement) :
  grid ts → valid ts l → l ≡ₚ l' → sort ts l = sort ts l'.
Proof.
  intros Hg Hv Hp.
  assert (valid ts l') as Hv' by (unfold valid; by rewrite <- Hp).
  apply (StronglySorted_unique le); [by apply sort_sorted..|].
  by rewrite !sort_perm.
Qed.

(** X21: [drawMap] does not depend on the order in which the tiles were
    selected: for two selections of the same tiles it leaves the same state,
    also with auto-advance, which continues after the last tile in row-major
    order and not after the tile selected last. *)
Theorem drawMap_order_independent (sprite : string) (m : Map)
    (l l' : list HTMLDivElement) :
  grid (tiles m) → valid (tiles m) l → l ≡ₚ l' →
  drawMap sprite (with_selectedTiles l m) = drawMap sprite (with_selectedTiles l' m).
Proof.
  intros Hg Hv Hp. unfold drawMap.
  cbn [selectedTiles tiles with_selectedTiles].
  rewrite (sort_permutation (tiles m) l l' Hg Hv Hp), (Permutation_length Hp).
  destruct (Z.leb_spec (Z.of_nat (length l')) 0) as [Hlen|_]; [|reflexivity].
  destruct l' as [|tile l']; [|simpl in Hlen; lia].
  by apply Permutation_nil_r in Hp as ->.
Qed.

(** ** [undo] and [redo] in the states of the editor *)

(** X22: in every state of the editor, [undo] from a cursor above the
    first entry returns, moves the cursor one entry back and leaves the
    tiles exactly as that entry recorded them; [redo] from a cursor below
    the last entry does the same one entry forward.  Neither changes the
    history. *)
Theorem undo_redo_restore_snapshots (m : Map) :
  reachable m →
  (0 < currentHistoryIndex m →
     ∃ u, undo m = Returned u
          ∧ currentHistoryIndex u = currentHistoryIndex m - 1
          ∧ history u = history m
          ∧ index (history m) (currentHistoryIndex m - 1) = Some (tileData <$> tiles u))
  ∧ (currentHistoryIndex m < Z.of_nat (length (history m)) - 1 →
     ∃ r, redo m = Returned r
          ∧ currentHistoryIndex r = currentHistoryIndex m + 1
          ∧ history r = history m
          ∧ index (history m) (currentHistoryIndex m + 1) = Some (tileData <$> tiles r)).
Proof.
  intros Hr.
  destruct (reachable_consistent m Hr) as (Hg & _ & _ & _ & _ & _ & Hcur & Hsnap & _).
  split; intros Hi.
  - destruct (undo_restores m Hg Hsnap) as (u & Hu & Hiu & Hhu & Hat & _); [lia|].
    exists u. split_and!; [done..|].
    unfold at_cursor in Hat. by rewrite Hiu, Hhu in Hat.
  - destruct (redo_restores m Hg Hsnap) as (r & Hre & Hir & Hhr & Hat & _); [lia|].
    exists r. split_and!; [done..|].
    unfold at_cursor in Hat. by rewrite Hir, Hhr in Hat.
Qed.

(** ** Import of an export into any grid *)

(** X23: loading the export of one grid into another grid merges the two:
    a tile takes the sprite sheet at the exported position where the
    exported tile shows a sprite position, and stays as it is where the
    exported tile shows none. *)
Theorem import_merges_export (m n : Map) :
  grid (tiles m) → grid (tiles n) →
  ∀ (tile : nat) t, tiles m !! tile = Some t →
    tiles (loadMapFromFile (createMapJSON m) n) !! tile = imported t <$> tiles n !! tile.
Proof.
  intros Hm Hn tile t Ht. unfold loadMapFromFile, createMapJSON.
  rewrite (loadTiles_lookup (tiles m) n tile (grid_addressed _ Hm) Hn). by rewrite Ht.
Qed.

(** ** Cut and [Delete] *)

(** X24: [cutSelected] changes the tiles and the history exactly as the
    [Delete] key does; the two differ in that the cut fills the clipboard,
    with the selected tiles and one record for each of them that holds its
    row, its column and its style before the cut, and keeps the selection,
    while [Delete] empties the selection and leaves the clipboard alone. *)
Theorem cut_changes_tiles_as_delete (m : Map) :
  tiles (cutSelected m) = tiles (deleteSelected m)
  ∧ history (cutSelected m) = history (deleteSelected m)
  ∧ currentHistoryIndex (cutSelected m) = currentHistoryIndex (deleteSelected m)
  ∧ selectedTiles (cutSelected m) = selectedTiles m
  ∧ selectedTiles (deleteSelected m) = []
  ∧ coppiedTileData (deleteSelected m) = coppiedTileData m
  ∧ coppiedTiles (deleteSelected m) = coppiedTiles m
  ∧ coppiedTiles (cutSelected m) = selectedTiles m
  ∧ coppiedTileData (cutSelected m)
    = (λ tile, {| row := parseInt (data_row (element m tile));
                  col := parseInt (data_col (element m tile));
                  bg := style_background (element m tile);
                  bgPos := style_backgroundPosition (element m tile) |})
        <$> selectedTiles m.
Proof.
  assert (tiles (cutSelected m) = tiles (deleteSelected m)) as Ht.
  { rewrite cutSelected_tiles, deleteSelected_unfold, addToHistory_tiles.
    cbn [tiles with_selectedTiles]. unfold clearSprite.
    apply list_eq. intros i.
    rewrite !foldl_update_lookup by done.
    unfold copySelected. cbn [coppiedTiles with_coppiedTiles with_coppiedTileData].
    rewrite foldl_update_lookup by done.
    cbn [tiles with_coppiedTiles with_coppiedTileData].
    destruct (bool_decide (i ∈ selectedTiles m)); [|done].
    by destruct (tiles m !! i). }
  assert (history (cutSelected m) = history (deleteSelected m)) as Hh.
  { rewrite cutSelected_history, Ht. unfold deleteSelected.
    rewrite addToHistory_history, addToHistory_tiles.
    cbn [history currentHistoryIndex tiles with_selectedTiles].
    by rewrite (foldl_keeps history), (foldl_keeps currentHistoryIndex). }
  split_and!; [done|done| | | | | | |].
  - unfold cutSelected, deleteSelected. rewrite !addToHistory_index.
    fold (cutSelected m). fold (deleteSelected m). by rewrite Hh.
  - unfold cutSelected.
    match goal with |- context [addToHistory ?x] =>
      destruct (addToHistory_fields x) as (-> & _) end.
    rewrite (foldl_keeps selectedTiles) by done. apply copySelected_selectedTiles.
  - done.
  - unfold deleteSelected.
    match goal with |- context [addToHistory ?x] =>
      destruct (addToHistory_fields x) as (_ & _ & _ & -> & _) end.
    cbn [coppiedTileData with_selectedTiles]. by rewrite (foldl_keeps coppiedTileData).
  - unfold deleteSelected.
    change (coppiedTiles (addToHistory ?x)) with (coppiedTiles x).
    cbn [coppiedTiles with_selectedTiles]. by rewrite (foldl_keeps coppiedTiles).
  - unfold cutSelected.
    change (coppiedTiles (addToHistory ?x)) with (coppiedTiles x).
    rewrite (foldl_keeps coppiedTiles) by done.
    by destruct (copySelected_fields m) as (-> & _).
  - by destruct (cutSelected_fields m) as [-> _].
Qed.

(** ** The button goes down *)

Lemma unmarkTile_marker m (tile : nat) t :
  tiles m !! tile = Some t →
  classList_selected <$> tiles (unmarkTile m tile) !! tile
  = Some (classList_selected t && includes tile (selectedTiles m)).
Proof.
  intros Ht. unfold unmarkTile, element.
  rewrite (list_lookup_total_correct _ _ _ Ht).
  destruct (includes tile (selectedTiles m)), (classList_selected t) eqn:Hsel; simpl;
    rewrite ?list_lookup_alter_eq, ?Ht; simpl; by rewrite ?Hsel.
Qed.

Lemma unmarkTile_lookup_ne m (tile other : nat) :
  tile ≠ other → tiles (unmarkTile m tile) !! other = tiles m !! other.
Proof.
  intros Hne. unfold unmarkTile. destruct (negb _ && _); [|done].
  simpl. by rewrite list_lookup_alter_ne.
Qed.

Lemma unmark_loop_marker (l : list HTMLDivElement) m (tile : nat) t :
  NoDup l → tiles m !! tile = Some t →
  classList_selected <$> tiles (foldl unmarkTile m l) !! tile
  = Some (if bool_decide (tile ∈ l)
          then classList_selected t && includes tile (selectedTiles m)
          else classList_selected t).
Proof.
  intros Hnd. revert m t.
  induction Hnd as [|a l Ha Hnd IH]; intros m t Ht; simpl.
  { by rewrite Ht. }
  destruct (decide (tile = a)) as [->|Hne].
  - pose proof (unmarkTile_marker m a t Ht) as Hm.
    destruct (tiles (unmarkTile m a) !! a) as [t'|] eqn:Ht'; [|done].
    rewrite (IH _ t' Ht').
    rewrite (bool_decide_eq_false_2 _ Ha), bool_decide_eq_true_2 by left.
    simpl in Hm. by injection Hm as ->.
  - rewrite (IH _ t) by by rewrite unmarkTile_lookup_ne.
    destruct (unmarkTile_keeps m a) as (_ & -> & _).
    f_equal. rewrite (bool_decide_ext (tile ∈ a :: l) (tile ∈ l)); [done|].
    rewrite elem_of_cons. split; [intros [?|?]; [congruence|done]|by right].
Qed.

(** X25: when the button goes down on the map, every tile outside the
    selection loses the marker and the tiles of the selection keep theirs;
    then the selection is emptied unless the modifier is held, so that
    without the modifier its tiles stay marked until the pointer moves or is
    released.  The drag starts at the pointer; no sprite, clipboard or
    history entry changes. *)
Theorem mousedown_unmarks_unselected (m : Map) :
  (∀ (tile : nat) t, tiles m !! tile = Some t →
     classList_selected <$> tiles (mousedown m) !! tile
     = Some (classList_selected t && includes tile (selectedTiles m)))
  ∧ selectedTiles (mousedown m) = (if ctrlDown m then selectedTiles m else [])
  ∧ content (mousedown m) = content m
  ∧ mouseDown (mousedown m) = true
  ∧ dragStartPosition (mousedown m) = Some (mousePosition m).
Proof.
  destruct (mousedown_spec m) as (Hsel & Hc & Hd & _ & Hs).
  split_and!; [|done..].
  intros tile t Ht.
  assert (tiles (mousedown m) = tiles (foldl unmarkTile m (querySelectorAll_selected m)))
    as ->.
  { unfold mousedown. cbv zeta.
    destruct (ctrlDown (foldl unmarkTile m (querySelectorAll_selected m)));
      reflexivity. }
  rewrite (unmark_loop_marker _ _ _ t) by (done || apply NoDup_filter, NoDup_seq).
  f_equal. destruct (bool_decide _) eqn:Hin; [done|].
  apply bool_decide_eq_false in Hin.
  destruct (classList_selected t) eqn:Hmark; [|done].
  destruct Hin. apply list_elem_of_filter. split.
  - unfold element. by rewrite (list_lookup_total_correct _ _ _ Ht).
  - apply elem_of_seq. apply lookup_lt_Some in Ht. lia.
Qed.

(** ** The path of a drag *)

Lemma moves_down (path : list Position2D) n s :
  mouseDown n = true → dragStartPosition n = Some s →
  ∃ n', moves path n = Returned n'
        ∧ mouseDown n' = true ∧ dragStartPosition n' = Some s
        ∧ content n' = content n
        ∧ mousePosition n' = default (mousePosition n) (last path).
Proof.
  revert n. induction path as [|p path IH]; intros n Hd Hs; simpl.
  { by exists n. }
  rewrite (mousemove_down p n s Hd Hs). cbn [and_then].
  destruct (selectTiles_preview (with_mousePosition p n) s Hs) as (_ & Hc & Hd' & Hp & Hs').
  destruct (IH (selectTiles true (with_mousePosition p n))) as (n' & Hret & Hd1 & Hs1 & Hc1 & Hp1);
    [by rewrite Hd'|done|].
  exists n'. split_and!; [done|done|done|by rewrite Hc1, Hc|].
  rewrite Hp1, Hp. destruct path as [|p' path]; [done|].
  change (last (p :: p' :: path)) with (last (p' :: path)).
  destruct (last (p' :: path)) eqn:Hlast; [done|]. by apply last_None in Hlast.
Qed.

Lemma tiles_ext (ts ts' : list Tile) :
  (λ t, (attributes t, sprite_of t)) <$> ts = (λ t, (attributes t, sprite_of t)) <$> ts' →
  classList_selected <$> ts = classList_selected <$> ts' →
  ts = ts'.
Proof.
  intros Hc Hm. apply list_eq. intros i.
  apply (f_equal (.!! i)) in Hc. apply (f_equal (.!! i)) in Hm.
  rewrite !list_lookup_fmap in Hc. rewrite !list_lookup_fmap in Hm.
  destruct (ts !! i) as [[c r b p sel]|], (ts' !! i) as [[c' r' b' p' sel']|];
    simpl in *; try done.
  unfold attributes, sprite_of in Hc. simpl in Hc. by simplify_eq.
Qed.

(** After the button is released without the modifier, the tiles and the
    selection depend on the content, the start of the drag and the pointer
    only. *)
Lemma mouseup_content n1 n2 s :
  content n1 = content n2 →
  dragStartPosition n1 = Some s → dragStartPosition n2 = Some s →
  mousePosition n1 = mousePosition n2 →
  ctrlDown n1 = false →
  tiles (mouseup n1) = tiles (mouseup n2)
  ∧ selectedTiles (mouseup n1) = selectedTiles (mouseup n2).
Proof.
  intros Hc Hs1 Hs2 Hp Hctrl.
  destruct (content_fields _ _ Hc) as (_ & _ & Hctrl' & _ & Hlen).
  rewrite Hctrl in Hctrl'.
  destruct (mouseup_spec n1 s Hs1) as (Hsel1 & Hc1 & _).
  destruct (mouseup_spec n2 s Hs2) as (Hsel2 & Hc2 & _).
  split.
  - apply tiles_ext.
    + apply (f_equal snd) in Hc1, Hc2, Hc. simpl in Hc1, Hc2, Hc. congruence.
    + apply list_eq. intros i. rewrite !list_lookup_fmap.
      destruct (tiles n1 !! i) as [t1|] eqn:Ht1.
      * destruct (lookup_lt_is_Some_2 (tiles n2) i) as [t2 Ht2].
        { rewrite <- Hlen. by apply lookup_lt_Some in Ht1. }
        rewrite (mouseup_marker n1 s i t1 Hs1 Ht1), (mouseup_marker n2 s i t2 Hs2 Ht2).
        by rewrite Hctrl, <- Hctrl', Hp.
      * apply lookup_ge_None in Ht1.
        destruct (content_fields _ _ Hc1) as (_ & _ & _ & _ & Hlen1).
        destruct (content_fields _ _ Hc2) as (_ & _ & _ & _ & Hlen2).
        by rewrite !lookup_ge_None_2 by lia.
  - by rewrite Hsel1, Hsel2, Hctrl, <- Hctrl', Hlen, Hp.
Qed.

(** X26: without the modifier, the result of a drag depends on where the
    button was pressed and where it was released, not on the path of the
    pointer in between: a drag that passes any positions leaves the same
    tiles, with the same markers, and the same selection as the direct
    drag. *)
Theorem drag_path_independent (p q : Position2D) (path : list Position2D) (m : Map) :
  mouseDown m = false → ctrlDown m = false →
  ∃ m1 m2, drag_via p path q m = Returned m1 ∧ drag p q m = Returned m2
           ∧ tiles m1 = tiles m2 ∧ selectedTiles m1 = selectedTiles m2.
Proof.
  intros Hd Hctrl. unfold drag_via.
  destruct (drag_unfold p q m Hd) as [-> Hsq].
  rewrite mousemove_up by done. cbn [and_then].
  destruct (mousedown_spec (with_mousePosition p m)) as (_ & Hc0 & Hd0 & _ & Hs0).
  destruct (moves_down (path ++ [q]) (mousedown (with_mousePosition p m)) p Hd0 Hs0)
    as (n1 & -> & _ & Hs1 & Hc1 & Hp1).
  cbn [and_then]. rewrite last_snoc in Hp1. simpl in Hp1.
  destruct (selectTiles_preview _ p Hsq) as (_ & Hc2 & _ & Hp2 & Hs2).
  destruct (mouseup_content n1
              (selectTiles true (with_mousePosition q (mousedown (with_mousePosition p m))))
              p) as [Ht Hs]; [by rewrite Hc1, Hc2|done|done|by rewrite Hp1, Hp2| |].
  { by destruct (content_fields _ _ (eq_trans Hc1 Hc0)) as (_ & _ & -> & _). }
  by eexists _, _.
Qed.

(** ** Every change of a sprite is committed, except by the load of a file *)










End Editor.

(** * The editor as the source configures it

    100 columns and 50 rows of tiles, here laid out as squares of 16 pixels,
    with the sprite sheet at [sprites.png]. *)

Local Abbreviation layout := (squareLayout 16 100).
Local Abbreviation editor := (init 100 50).
Local Abbreviation sheet := "sprites.png".

Lemma editor_tiles_length : length (tiles editor) = 5000%nat.
Proof. change (tiles editor) with (init_tiles 100 50). by rewrite init_tiles_length. Qed.

(** ** The first draw and [undo] (C1) *)

(** The scenario of the specification: the tiles (0,0) to (1,1) are
    selected by a drag and the first sprite of the palette is drawn. *)
Local Abbreviation first_draw :=
  (drag layout (mkPosition 5 5) (mkPosition 20 20) editor
   >>> drawMap 100 50 sheet (spritePosition 0 0)).

(** C1, on the code: after the first draw on the fresh grid the history
    holds one snapshot, not two, and [undo] returns the state as it is: the
    tiles (0,0), (0,1), (1,0) and (1,1) keep the sprite instead of being
    empty again. *)
Theorem first_draw_is_not_undone :
  let c := first_draw in
  let m := state_of c in
  returned c = true
  ∧ length (history m) = 1%nat
  ∧ undo m = Returned m
  ∧ Forall (λ tile, sprite_of <$> tiles m !! tile
                    = Some ("url(sprites.png)", "-1px -1px"))
           [cell 100 0 0; cell 100 0 1; cell 100 1 0; cell 100 1 1].
Proof.
  destruct (drag_spec layout (mkPosition 5 5) (mkPosition 20 20) editor eq_refl)
    as (m1 & Hdrag & Hsel & Hc & _).
  destruct (content_fields editor m1 Hc) as (Hh & Hi & _ & Hauto & Hlen).
  rewrite editor_tiles_length in Hsel, Hlen.
  change (if ctrlDown editor then selectedTiles editor else []) with (@nil nat) in Hsel.
  rewrite app_nil_l in Hsel.
  assert (Forall (λ tile, tile ∈ selectedTiles m1 ∧ (tile < length (tiles m1))%nat)
                 [cell 100 0 0; cell 100 0 1; cell 100 1 0; cell 100 1 1]) as Hin.
  { rewrite Hsel, Hlen.
    repeat (apply Forall_cons_2;
            [split; [apply hit_elem; [|vm_compute; reflexivity]|]; unfold cell; lia|]).
    apply Forall_nil_2. }
  destruct (first_draw_general 100 50 sheet (spritePosition 0 0) m1)
    as (m2 & Hdraw & Hlen2 & Hundo & Hsprites).
  - by rewrite Hh.
  - by rewrite Hi.
  - intros Hnil. rewrite Hnil in Hin.
    apply Forall_cons in Hin as [[Hin _] _]. by apply elem_of_nil in Hin.
  - by rewrite Hauto.
  - cbv zeta. rewrite Hdrag. cbn [and_then]. rewrite Hdraw. cbn [returned state_of].
    split_and!; [done..|].
    eapply Forall_impl; [exact Hin|].
    intros tile [Ht Hlt]. exact (Hsprites tile Ht Hlt).
Qed.

(** ** Copy and the selected marker (C8) *)

Local Abbreviation first_click := (click layout (mkPosition 5 5) editor).

(** C8, on the code: a click selects the tile (0,0), which is then a
    member of the selection set and carries the marker; after
    [copySelected] it is still a member of the set and carries no marker. *)
Theorem copy_leaves_unmarked_tile_selected :
  let c := first_click in
  let m := state_of c in
  returned c = true
  ∧ (cell 100 0 0 ∈ selectedTiles m
     ∧ classList_selected <$> tiles m !! cell 100 0 0 = Some true)
  ∧ (cell 100 0 0 ∈ selectedTiles (copySelected m)
     ∧ classList_selected <$> tiles (copySelected m) !! cell 100 0 0 = Some false).
Proof.
  destruct (click_spec layout (mkPosition 5 5) editor eq_refl)
    as (m1 & Hclick & Hsel & Hc & _ & Hmark).
  destruct (content_fields editor m1 Hc) as (_ & _ & _ & _ & Hlen).
  rewrite editor_tiles_length in Hsel, Hlen, Hmark.
  assert (cell 100 0 0 ∈ hit layout 5000
            (selectionBounds (mkPosition 5 5) (mkPosition 5 5))) as Hhit.
  { apply hit_elem; [unfold cell; lia|vm_compute; reflexivity]. }
  assert (cell 100 0 0 ∈ selectedTiles m1) as Hin.
  { rewrite Hsel. apply elem_of_app. by right. }
  destruct (copySelected_unmarks m1 (cell 100 0 0) Hin) as [Hin' Hunmarked].
  { rewrite Hlen. unfold cell. lia. }
  cbv zeta. rewrite Hclick. cbn [returned state_of].
  split_and!; [done|done|by apply Hmark|done|done].
Qed.

(** ** Cut on an empty selection (C7) *)

(** C7, counterexample: on the fresh editor nothing is selected, and
    [cutSelected] commits a snapshot all the same. *)
Lemma cut_on_empty_selection_commits :
  selectedTiles editor = [] ∧ history (cutSelected editor) ≠ history editor.
Proof.
  split; [reflexivity|].
  intros H. apply (f_equal length) in H.
  rewrite cutSelected_history_length in H.
  change (history editor) with (@nil (list TileData)) in H.
  discriminate H.
Qed.

(** ** A tile with the sprite sheet at the default position (C2) *)

(** A file with one record for the tile (0,0) that names no position. *)
Local Abbreviation sheet_only := [mkExportTile 0 "" "0" "0"].


(** ** Two drags over the same tile with the modifier held (C9) *)

Local Abbreviation control := (mkKey "Control" false true false).

Local Abbreviation two_clicks :=
  (keydown control editor
   >>> click layout (mkPosition 5 5)
   >>> click layout (mkPosition 5 5)).

(** C9, counterexample: with the modifier key down, two clicks on the tile
    (0,0) leave it twice in the selection set. *)
Lemma modifier_drags_duplicate_tile :
  let c := two_clicks in
  returned c = true
  ∧ ctrlDown (state_of c) = true
  ∧ ¬ NoDup (selectedTiles (state_of c)).
Proof.
  assert (keydown control editor = Returned (with_ctrlDown true editor)) as Hkey
    by reflexivity.
  destruct (click_spec layout (mkPosition 5 5) (with_ctrlDown true editor) eq_refl)
    as (m1 & Hclick1 & Hsel1 & Hc1 & Hup1 & _).
  destruct (click_spec layout (mkPosition 5 5) m1 Hup1)
    as (m2 & Hclick2 & Hsel2 & Hc2 & _ & _).
  destruct (content_fields _ m1 Hc1) as (_ & _ & Hctrl1 & _ & Hlen1).
  destruct (content_fields _ m2 Hc2) as (_ & _ & Hctrl2 & _ & _).
  change (ctrlDown (with_ctrlDown true editor)) with true in Hctrl1, Hsel1.
  change (tiles (with_ctrlDown true editor)) with (tiles editor) in Hsel1, Hlen1.
  rewrite editor_tiles_length in Hsel1, Hlen1.
  rewrite Hctrl1, Hlen1 in Hsel2. rewrite Hctrl1 in Hctrl2.
  assert (0%nat ∈ hit layout 5000
            (selectionBounds (mkPosition 5 5) (mkPosition 5 5))) as Hhit.
  { apply hit_elem; [lia|vm_compute; reflexivity]. }
  cbv zeta. rewrite Hkey. cbn [and_then]. rewrite Hclick1. cbn [and_then].
  rewrite Hclick2. cbn [returned state_of].
  split_and!; [done|done|].
  rewrite Hsel2, Hsel1. intros (_ & Hdisjoint & _)%NoDup_app.
  apply (Hdisjoint 0%nat); [|done]. apply elem_of_app. by right.
Qed.

(** * Instances on small grids *)

Local Abbreviation small := (init 3 3).
Local Abbreviation small_layout := (squareLayout 16 3).

(** A 3 by 3 grid with a sprite on the tile (0,0), the tile (1,1) drawn and
    then cut, and one undone step in the history. *)
Local Abbreviation drawn_and_cut :=
  (cutSelected
     (with_selectedTiles [4%nat]
        (state_of (drawMap 3 3 sheet (spritePosition 0 0)
                     (with_selectedTiles [0; 4]%nat small))))).


(** The example of the specification: a clipboard with the offsets (0,0),
    (0,1) and (1,0), pasted with the anchor at (5,5) of an 8 by 8 grid. *)
Local Abbreviation three_copied :=
  (mouseover (cell 8 5 5)
     (copySelected
        (with_selectedTiles [cell 8 0 0; cell 8 0 1; cell 8 1 0]
           (state_of (drawMap 8 8 sheet (spritePosition 0 0)
                        (with_selectedTiles [cell 8 0 0; cell 8 0 1; cell 8 1 0]
                           (init 8 8))))))).


(** Auto-advance on a 3 by 3 grid, from a selection given out of order. *)
Local Abbreviation auto_selected :=
  (with_isAutoEnabled true (with_selectedTiles [cell 3 1 1; cell 3 0 2] small)).

Lemma drawMap_auto_advance_witness :
  let order := sort (tiles auto_selected) (selectedTiles auto_selected) in
  order ≡ₚ selectedTiles auto_selected
  ∧ StronglySorted (row_major_le (tiles auto_selected)) order
  ∧ ∃ (r c : nat) (m' : Map),
      (r < 3)%nat ∧ (c < 3)%nat
      ∧ last order = Some (cell 3 r c)
      ∧ drawMap 3 3 sheet (spritePosition 0 0) auto_selected = Returned m'
      ∧ sprite_of <$> tiles m'
        = sprite_of <$> tiles (foldl (drawTile sheet (spritePosition 0 0)) auto_selected order)
      ∧ (∀ tile, tile ∈ selectedTiles auto_selected →
           sprite_of <$> tiles m' !! tile
           = Some (spritesUrl sheet, spritePosition 0 0))
      ∧ selectedTiles m' = next_cell 3 3 r c
      ∧ Forall (λ tile, classList_selected <$> tiles m' !! tile = Some true)
               (next_cell 3 3 r c).
Proof.
  apply (drawMap_auto_advance 3 3 sheet (spritePosition 0 0) auto_selected).
  - vm_compute. reflexivity.
  - repeat constructor.
  - discriminate.
  - reflexivity.
Defined.

Example auto_advance_next_in_row :
  selectedTiles (state_of (drawMap 3 3 sheet (spritePosition 0 0) auto_selected))
  = [cell 3 1 2].
Proof. vm_compute. reflexivity. Qed.

Example auto_advance_next_row :
  selectedTiles
    (state_of (drawMap 3 3 sheet (spritePosition 0 0)
                 (with_isAutoEnabled true (with_selectedTiles [cell 3 0 2] small))))
  = [cell 3 1 0].
Proof. vm_compute. reflexivity. Qed.

Example auto_advance_final_cell :
  selectedTiles
    (state_of (drawMap 3 3 sheet (spritePosition 0 0)
                 (with_isAutoEnabled true (with_selectedTiles [cell 3 2 2] small))))
  = [].
Proof. vm_compute. reflexivity. Qed.

Lemma copy_keeps_sprites_cut_is_copy_clear_commit_witness :
  let m := with_selectedTiles [0%nat]
             (state_of (drawMap 3 3 sheet (spritePosition 0 0)
                          (with_selectedTiles [0; 4]%nat small))) in
  (∀ t, tiles (cutSelected m) !! 0%nat = Some t →
        style_background t = "transparent"
        ∧ computed_backgroundPosition t = "0% 0%")
  ∧ sprite_of <$> tiles (cutSelected m) !! 4%nat = sprite_of <$> tiles m !! 4%nat.
Proof.
  intros m.
  destruct (copy_keeps_sprites_cut_is_copy_clear_commit m) as (_ & _ & Hin & Hout & _).
  split.
  - intros t. apply Hin. by left.
  - apply Hout. intros Hm. apply list_elem_of_singleton in Hm. discriminate Hm.
Defined.

Lemma addToHistory_truncates_appends_cursor_valid_witness :
  let m := update 4 (set_backgroundPosition "-1px -1px")
             (update 4 (set_background "url(sprites.png)")
                (state_of (undo (addToHistory (addToHistory small))))) in
  (0 ≤ currentHistoryIndex m ∧ grid 3 3 (tiles m) ∧ cursor_valid m)
  ∧ length (history m) = 2%nat
  ∧ history (addToHistory m) = take 1 (history m) ++ [tileData <$> tiles m]
  ∧ (∃ snapshot, last (history (addToHistory m)) = Some snapshot
                 ∧ length snapshot = 9%nat
                 ∧ snapshot !! cell 3 1 1
                   = Some {| row := Some 1; col := Some 1;
                             bg := "url(sprites.png)"; bgPos := "-1px -1px" |})
  ∧ cursor_valid (state_of (undo m))
  ∧ cursor_valid (state_of (redo m)).
Proof.
  intros m.
  destruct (addToHistory_truncates_appends_cursor_valid 3 3 m)
    as (Hcommit & (snapshot & Hlast & _ & _ & _ & Hcells) & _ & _ & _ & _ & Hundo & Hredo).
  assert (0 ≤ currentHistoryIndex m) as Hi by (vm_compute; discriminate).
  assert (grid 3 3 (tiles m)) as Hg by (vm_compute; reflexivity).
  assert (cursor_valid m) as Hm.
  { intros _. vm_compute. split; discriminate. }
  split_and!; [exact Hi|exact Hg|exact Hm|reflexivity|exact (Hcommit Hi)| |
               exact (Hundo Hm)|exact (Hredo Hm)].
  destruct (Hcells Hg) as [Hlen Hcell].
  destruct (Hcell 1%nat 1%nat) as (t & Ht & Hs); [lia|lia|].
  exists snapshot. split_and!; [exact Hlast|exact Hlen|].
  vm_compute in Ht. injection Ht as <-. exact Hs.
Defined.

Lemma empty_selection_or_clipboard_witness :
  drawMap 3 3 sheet (spritePosition 0 0) small = Returned small
  ∧ paste small = small
  ∧ tiles (copySelected small) = tiles small
  ∧ tiles (cutSelected small) = tiles small.
Proof.
  destruct (empty_selection_or_clipboard 3 3 sheet small) as (Hdraw & Hpaste & Hcopy & Hcut).
  split_and!.
  - apply Hdraw. reflexivity.
  - apply Hpaste. left. reflexivity.
  - apply Hcopy. reflexivity.
  - apply Hcut. reflexivity.
Defined.

Lemma mouseup_selection_duplicates_witness :
  let m := with_mousePosition (mkPosition 20 20)
             (mousedown (with_mousePosition (mkPosition 5 5) small)) in
  NoDup (selectedTiles (mouseup small_layout m)).
Proof.
  intros m.
  destruct (mouseup_selection_duplicates small_layout m (mkPosition 5 5) eq_refl)
    as (_ & Hnodup & _).
  apply Hnodup. reflexivity.
Defined.

Example drag_selects_four_tiles :
  selectedTiles
    (state_of (drag small_layout (mkPosition 5 5) (mkPosition 20 20) small))
  = [cell 3 0 0; cell 3 0 1; cell 3 1 0; cell 3 1 1].
Proof. vm_compute. reflexivity. Qed.

(** A paste at the last cell of an 8 by 8 grid: the two entries whose target
    is outside the grid are skipped, the first entry is written and one
    snapshot is committed. *)
Example paste_skips_targets_outside :
  let m := paste (mouseover (cell 8 7 7) three_copied) in
  (sprite_of <$> tiles m !! cell 8 7 7,
   length (filter (λ t, String.eqb (style_background t) "" = false) (tiles m)),
   length (history m))
  = (Some ("url(sprites.png)", "-1px -1px"), 4%nat, 2%nat).
Proof. vm_compute. reflexivity. Qed.

(** Two commits on a 3 by 3 grid, the second after the tile (0,0) was
    cleared. *)
Local Abbreviation two_commits :=
  (addToHistory (update 0 (set_background "transparent") (addToHistory small))).

Lemma undo_redo_inverse_witness :
  ∃ m1 m2, undo two_commits = Returned m1 ∧ redo m1 = Returned m2
           ∧ currentHistoryIndex m1 = currentHistoryIndex two_commits - 1
           ∧ at_cursor m1
           ∧ currentHistoryIndex m2 = currentHistoryIndex two_commits
           ∧ history m2 = history two_commits
           ∧ tileData <$> tiles m2 = tileData <$> tiles two_commits.
Proof.
  assert (grid 3 3 (alter (set_background "transparent") 0%nat (init_tiles 3 3))) as Hg
    by (apply grid_alter; [done|apply init_grid]).
  apply (undo_redo_inverse 3 3 two_commits).
  - exact Hg.
  - apply addToHistory_snapshots; [exact Hg|].
    apply (addToHistory_snapshots 3 3 small); [apply init_grid|apply Forall_nil_2].
  - apply addToHistory_at_cursor.
  - vm_compute. split; [reflexivity|intros H; discriminate H].
Defined.

(** Three commits on a 3 by 3 grid: the tile (0,0) drawn, the tile (0,1)
    drawn, the tile (0,0) cleared. *)
Local Abbreviation draw_0 := (update 0 (set_background "url(sprites.png)")).
Local Abbreviation draw_1 := (update 1 (set_background "url(sprites.png)")).
Local Abbreviation clear_0 := (update 0 (set_background "transparent")).

Lemma undo_all_then_redo_all_witness :
  let first := committed small draw_0 in
  let final := foldl committed first [draw_1; clear_0] in
  length (history final) = 3%nat
  ∧ ∃ u, times 3 undo final = Returned u
         ∧ currentHistoryIndex u = 0
         ∧ tileData <$> tiles u = tileData <$> tiles first
         ∧ ∃ r, times 3 redo u = Returned r
                ∧ currentHistoryIndex r = Z.of_nat 3 - 1
                ∧ tileData <$> tiles r = tileData <$> tiles final.
Proof.
  apply (undo_all_then_redo_all 3 3 draw_0 [draw_1; clear_0]).
  - by apply update_mutation.
  - repeat apply Forall_cons_2; [by apply update_mutation..|apply Forall_nil_2].
Defined.

(** After one commit the tile (0,0) shows the sprite sheet, and it still
    does after every [undo]: the empty grid is not an entry of the
    history. *)
Example undo_all_keeps_first_mutation :
  ∃ u, times 3 undo (foldl committed (committed small draw_0) [draw_1; clear_0])
       = Returned u
       ∧ style_background <$> tiles u !! 0%nat = Some "url(sprites.png)"
       ∧ style_background <$> tiles small !! 0%nat = Some "".
Proof. eexists. split; [vm_compute; reflexivity|]. split; reflexivity. Qed.

(** ** Instances of the properties of the handlers *)

(** The button was pressed at (5,5) and the pointer moved to (20,20). *)
Local Abbreviation dragging :=
  (with_mousePosition (mkPosition 20 20)
     (mousedown (with_mousePosition (mkPosition 5 5) small))).

Lemma mouseup_marker_selection_witness :
  dragStartPosition dragging = Some (mkPosition 5 5)
  ∧ ∀ tile t', tiles (mouseup small_layout dragging) !! tile = Some t' →
      (classList_selected t' = true ↔ tile ∈ selectedTiles (mouseup small_layout dragging)).
Proof.
  split; [reflexivity|]. intros tile t' Ht'.
  destruct (mouseup_marker_selection small_layout dragging (mkPosition 5 5) eq_refl)
    as (_ & _ & H & _).
  exact (proj1 (H eq_refl tile t' Ht')).
Defined.

Lemma mousemove_preview_witness :
  let pressed := mousedown (with_mousePosition (mkPosition 5 5) small) in
  (mouseDown pressed = true ∧ dragStartPosition pressed = Some (mkPosition 5 5))
  ∧ ∃ m', mousemove small_layout (mkPosition 20 20) pressed = Returned m'
          ∧ selectedTiles m' = []
          ∧ classList_selected <$> tiles m' !! cell 3 1 1 = Some true
          ∧ classList_selected <$> tiles m' !! cell 3 2 2 = Some false.
Proof.
  intros pressed. split; [split; reflexivity|].
  destruct (mousemove_preview small_layout (mkPosition 20 20) pressed
              (mkPosition 5 5) eq_refl eq_refl) as (m' & Hret & Hsel & _ & Hmark).
  exists m'. split_and!; [exact Hret|exact Hsel| |].
  - exact (Hmark (cell 3 1 1) (mkTile "1" "1" "" "" false) eq_refl).
  - exact (Hmark (cell 3 2 2) (mkTile "2" "2" "" "" false) eq_refl).
Defined.

Lemma drag_rectangle_only_witness :
  mouseDown small = false
  ∧ ∃ m1 m2, drag small_layout (mkPosition 5 5) (mkPosition 20 20) small = Returned m1
             ∧ drag small_layout (mkPosition 20 20) (mkPosition 5 5) small = Returned m2
             ∧ tiles m1 = tiles m2 ∧ selectedTiles m1 = selectedTiles m2.
Proof.
  split; [reflexivity|].
  destruct (drag_rectangle_only small_layout (mkPosition 5 5) (mkPosition 20 20)
              (mkPosition 5 20) (mkPosition 20 5) small eq_refl)
    as (m1 & m2 & H1 & H2 & Ht & Hs & _).
  exists m1, m2. split_and!; assumption.
Defined.

(** The drag from the lower left to the upper right corner of the same
    rectangle selects the same four tiles. *)
Example drag_between_other_corners :
  selectedTiles (state_of (drag small_layout (mkPosition 5 20) (mkPosition 20 5) small))
  = [cell 3 0 0; cell 3 0 1; cell 3 1 0; cell 3 1 1].
Proof. reflexivity. Qed.

Lemma drawMap_draws_selection_witness :
  selectedTiles (with_selectedTiles [0; 4]%nat small) ≠ []
  ∧ ∃ m', drawMap 3 3 sheet (spritePosition 0 0) (with_selectedTiles [0; 4]%nat small)
          = Returned m'
          ∧ selectedTiles m' = [].
Proof.
  split; [discriminate|].
  destruct (drawMap_draws_selection 3 3 sheet (spritePosition 0 0)
              (with_selectedTiles [0; 4]%nat small)) as (m' & Hret & _ & Hsel & _);
    [discriminate|reflexivity|].
  exists m'. split; [exact Hret|exact Hsel].
Defined.

Local Abbreviation delete_key := (mkKey "Delete" false true false).

Lemma delete_clears_selection_witness :
  key delete_key = "Delete"
  ∧ ∃ m', keydown delete_key (with_selectedTiles [0; 4]%nat small) = Returned m'
          ∧ selectedTiles m' = []
          ∧ currentHistoryIndex m' = Z.of_nat (length (history m')) - 1.
Proof.
  split; [reflexivity|].
  destruct (delete_clears_selection delete_key
              (with_selectedTiles [0; 4]%nat small) eq_refl)
    as (m' & Hret & _ & Hsel & _ & Hidx).
  exists m'. split_and!; assumption.
Defined.

(** A session: the pointer moves to (5,5), is pressed and released, and
    the selection is copied. *)
Local Abbreviation session :=
  (state_of (handle 3 3 sheet small_layout (Keydown (mkKey "c" false true false))
     (state_of (handle 3 3 sheet small_layout Mouseup
        (state_of (handle 3 3 sheet small_layout Mousedown
           (state_of (handle 3 3 sheet small_layout (Mousemove (mkPosition 5 5))
                        small)))))))).

(** One record that puts a sprite on the tile (1,1). *)
Local Abbreviation one_record := [mkExportTile 4 "-1px -1px" "1" "1"].

Lemma session_reachable : reachable 3 3 sheet small_layout session.
Proof. repeat (apply reachable_handle; [|exact I]). apply reachable_init. Qed.

Lemma handlers_return_witness :
  (reachable 3 3 sheet small_layout session
   ∧ enabled 3 3 (SpriteClick 0 0) ∧ wellformed (SpriteClick 0 0)
   ∧ enabled 3 3 (FileLoad one_record) ∧ wellformed (FileLoad one_record))
  ∧ returned (handle 3 3 sheet small_layout (SpriteClick 0 0) session) = true
  ∧ returned (handle 3 3 sheet small_layout (FileLoad one_record) session) = true.
Proof.
  assert (enabled 3 3 (SpriteClick 0 0)) as Hev by (split; vm_compute; lia).
  assert (wellformed (FileLoad one_record)) as Hwf
    by (apply Forall_singleton; split; reflexivity).
  split_and!; [exact session_reachable|exact Hev|exact I|exact I|exact Hwf| |].
  - exact (handlers_return 3 3 sheet small_layout (SpriteClick 0 0) session
             session_reachable Hev I).
  - exact (handlers_return 3 3 sheet small_layout (FileLoad one_record) session
             session_reachable I Hwf).
Defined.

Lemma tiles_stay_grid_witness :
  reachable 3 3 sheet small_layout session ∧ length (tiles session) = 9%nat.
Proof.
  split; [exact session_reachable|].
  exact (proj1 (tiles_stay_grid 3 3 sheet small_layout session session_reachable)).
Defined.

Lemma references_stay_valid_witness :
  reachable 3 3 sheet small_layout session
  ∧ ∀ tile, tile ∈ selectedTiles session → (tile < length (tiles session))%nat.
Proof.
  split; [exact session_reachable|].
  exact (proj1 (references_stay_valid 3 3 sheet small_layout session session_reachable)).
Defined.

Lemma mouseover_records_anchor_only_witness :
  reachable 3 3 sheet small_layout session
  ∧ handle 3 3 sheet small_layout (Mouseover 1 2) session
    = Returned (with_tileUnderCoursor (Some 5%nat) session).
Proof.
  split; [exact session_reachable|].
  refine (proj2 (mouseover_records_anchor_only 3 3 sheet small_layout 1 2 session
                   session_reachable _ _)); lia.
Defined.

(** The session before the copy: the tile (0,0) was clicked. *)
Local Abbreviation clicked :=
  (state_of (handle 3 3 sheet small_layout Mouseup
     (state_of (handle 3 3 sheet small_layout Mousedown
        (state_of (handle 3 3 sheet small_layout (Mousemove (mkPosition 5 5))
                     small)))))).

Lemma clicked_reachable : reachable 3 3 sheet small_layout clicked.
Proof. repeat (apply reachable_handle; [|exact I]). apply reachable_init. Qed.

Lemma marked_tiles_are_selected_witness :
  (reachable 3 3 sheet small_layout clicked ∧ mouseDown clicked = false
   ∧ classList_selected <$> tiles clicked !! cell 3 0 0 = Some true)
  ∧ cell 3 0 0 ∈ selectedTiles clicked.
Proof.
  split; [split_and!; [exact clicked_reachable|reflexivity|reflexivity]|].
  exact (marked_tiles_are_selected 3 3 sheet small_layout clicked clicked_reachable
           eq_refl (cell 3 0 0) (mkTile "0" "0" "" "" true) eq_refl eq_refl).
Defined.

(** After the copy the tile (0,0) is in the selection and carries no
    marker: every marked tile is selected, but not every selected tile is
    marked. *)
Example session_selected_unmarked :
  selectedTiles session = [cell 3 0 0]
  ∧ classList_selected <$> tiles session !! cell 3 0 0 = Some false.
Proof. split; reflexivity. Qed.

Lemma auto_advance_fills_cells_witness :
  let m := with_isAutoEnabled true (with_selectedTiles [cell 3 0 2] small) in
  let draws := [spritePosition 0 0; spritePosition 0 1] in
  selectedTiles m = [cell 3 0 2]
  ∧ ∃ m', draw_all 3 3 sheet draws m = Returned m'
          ∧ sprite_of <$> tiles m' !! cell 3 0 2 = Some (spritesUrl sheet, spritePosition 0 0)
          ∧ sprite_of <$> tiles m' !! cell 3 1 0 = Some (spritesUrl sheet, spritePosition 0 1)
          ∧ selectedTiles m' = [cell 3 1 1].
Proof.
  intros m draws. split; [reflexivity|].
  destruct (auto_advance_fills_cells 3 3 sheet draws m (cell 3 0 2))
    as (m' & Hret & Hfill & _ & Hsel & _);
    [apply init_grid|reflexivity|reflexivity|vm_compute; lia|vm_compute; lia|].
  exists m'. split_and!; [exact Hret| | |exact Hsel].
  - exact (Hfill 0%nat _ eq_refl).
  - exact (Hfill 1%nat _ eq_refl).
Defined.

Lemma commit_then_undo_witness :
  let m := addToHistory small in
  let f := draw_1 ∘ loadMapFromFile sheet one_record in
  at_cursor m
  ∧ ∃ u, undo (committed m f) = Returned u
         ∧ tileData <$> tiles u = tileData <$> tiles m.
Proof.
  intros m f. split; [apply addToHistory_at_cursor|].
  destruct (commit_then_undo 3 3 f m) as (_ & _ & u & Hu & Ht & _).
  - apply init_grid.
  - apply (addToHistory_snapshots 3 3 small); [apply init_grid|apply Forall_nil_2].
  - apply addToHistory_at_cursor.
  - vm_compute. split; intros H; discriminate H.
  - apply mutation_compose; [apply loadMapFromFile_mutation|by apply update_mutation].
  - exists u. split; [exact Hu|exact Ht].
Defined.

(** The import and the draw are both undone: the tile (1,1) is empty again. *)
Example undo_steps_over_import :
  let m1 := committed (addToHistory small) (draw_1 ∘ loadMapFromFile sheet one_record) in
  (style_background <$> tiles m1 !! 4%nat,
   style_background <$> tiles (state_of (undo m1)) !! 4%nat)
  = (Some "url(sprites.png)", Some "").
Proof. reflexivity. Qed.

Local Abbreviation two_drawn :=
  (with_tileUnderCoursor (Some 0%nat)
     (with_selectedTiles [0; 4]%nat
        (state_of (drawMap 3 3 sheet (spritePosition 0 0)
                     (with_selectedTiles [0; 4]%nat small))))).

Lemma paste_in_place_witness :
  selectedTiles two_drawn = [0; 4]%nat
  ∧ sprite_of <$> tiles (paste (cutSelected two_drawn)) = sprite_of <$> tiles two_drawn.
Proof.
  split; [reflexivity|].
  refine (proj1 (proj2 (paste_in_place 3 3 two_drawn 0%nat [4%nat] _ eq_refl _ eq_refl))).
  - apply drawTiles_grid. apply init_grid.
  - apply Forall_cons_2; [vm_compute; lia|apply Forall_singleton; vm_compute; lia].
Defined.

Lemma export_lists_every_cell_witness :
  grid 3 3 (tiles two_drawn) ∧ length (createMapJSON two_drawn) = 9%nat.
Proof.
  assert (grid 3 3 (tiles two_drawn)) as Hg by (apply drawTiles_grid; apply init_grid).
  split; [exact Hg|].
  exact (proj1 (export_lists_every_cell 3 3 two_drawn Hg)).
Defined.

Lemma click_selects_interior_witness :
  mouseDown small = false
  ∧ ∃ m', click small_layout (mkPosition 16 5) small = Returned m'
          ∧ content m' = content small.
Proof.
  split; [reflexivity|].
  destruct (click_selects_interior small_layout (mkPosition 16 5) small eq_refl eq_refl)
    as (m' & Hret & Hc & _).
  exists m'. split; [exact Hret|exact Hc].
Defined.

(** A click on the edge between the tiles (0,0) and (0,1) selects neither. *)
Example click_on_edge_selects_nothing :
  selectedTiles (state_of (click small_layout (mkPosition 16 5) small)) = []
  ∧ selectedTiles (state_of (click small_layout (mkPosition 17 5) small)) = [cell 3 0 1].
Proof. split; reflexivity. Qed.

(** A file of the editor: two records for the tile (1,1), one for a cell
    outside the grid and one with the sentinel for the tile (0,0). *)
Local Abbreviation four_records :=
  [mkExportTile 0 "-1px -1px" "1" "1";
   mkExportTile 1 "-49px -1px" "1" "1";
   mkExportTile 2 "-97px -1px" "7" "7";
   mkExportTile 3 "0% 0%" "0" "0"].

Lemma four_records_own : Forall sprite_record four_records.
Proof.
  repeat apply Forall_cons_2; [..|apply Forall_nil_2];
    (split; [split; reflexivity|]).
  - right. apply (list_elem_of_lookup_2 _ 0%nat). reflexivity.
  - right. apply (list_elem_of_lookup_2 _ 1%nat). reflexivity.
  - right. apply (list_elem_of_lookup_2 _ 2%nat). reflexivity.
  - left. reflexivity.
Qed.

Lemma import_overlays_witness :
  Forall sprite_record four_records
  ∧ sprite_of <$> tiles (loadMapFromFile sheet four_records two_drawn) !! cell 3 1 1
    = Some ("url(sprites.png)", "-49px -1px")
  ∧ tiles (loadMapFromFile sheet four_records two_drawn) !! cell 3 0 0
    = tiles two_drawn !! cell 3 0 0
  ∧ tiles (loadMapFromFile sheet four_records
             (loadMapFromFile sheet four_records two_drawn))
    = tiles (loadMapFromFile sheet four_records two_drawn).
Proof.
  pose proof four_records_own as Hrec.
  destruct (import_overlays sheet four_records two_drawn Hrec)
    as (Htile & _ & _ & _ & Htwice).
  split_and!; [exact Hrec| | |exact Htwice].
  - rewrite (Htile (cell 3 1 1) (mkTile "1" "1" "url(sprites.png)" "-1px -1px" false)
               eq_refl).
    reflexivity.
  - rewrite (Htile (cell 3 0 0) (mkTile "0" "0" "url(sprites.png)" "-1px -1px" false)
               eq_refl).
    reflexivity.
Defined.

(** Two records for the tile (1,1): the second one wins, and the record of a
    cell outside the grid is skipped. *)
Example import_last_record_wins :
  let mapData := [mkExportTile 0 "-1px -1px" "1" "1";
                  mkExportTile 1 "-49px -1px" "1" "1";
                  mkExportTile 2 "-97px -1px" "7" "7"] in
  (sprite_of <$> tiles (loadMapFromFile sheet mapData small) !! 4%nat,
   length (filter (λ t, String.eqb (style_background t) "" = false)
             (tiles (loadMapFromFile sheet mapData small))))
  = (Some ("url(sprites.png)", "-49px -1px"), 1%nat).
Proof. reflexivity. Qed.

Lemma drawMap_order_independent_witness :
  let m := with_isAutoEnabled true small in
  [4; 0]%nat ≡ₚ [0; 4]%nat
  ∧ drawMap 3 3 sheet (spritePosition 0 0) (with_selectedTiles [4; 0]%nat m)
    = drawMap 3 3 sheet (spritePosition 0 0) (with_selectedTiles [0; 4]%nat m).
Proof.
  intros m.
  assert ([4; 0]%nat ≡ₚ [0; 4]%nat) as Hp by apply Permutation_swap.
  split; [exact Hp|].
  apply (drawMap_order_independent 3 3 sheet (spritePosition 0 0) m
           [4; 0]%nat [0; 4]%nat); [apply init_grid| |exact Hp].
  apply Forall_cons_2; [vm_compute; lia|apply Forall_singleton; vm_compute; lia].
Defined.

(** A session with two draws: the tile (0,0) is clicked and drawn, then the
    tile (0,1). *)
Local Abbreviation two_draws :=
  (state_of (handle 3 3 sheet small_layout (SpriteClick 0 1)
    (state_of (handle 3 3 sheet small_layout Mouseup
      (state_of (handle 3 3 sheet small_layout Mousedown
        (state_of (handle 3 3 sheet small_layout (Mousemove (mkPosition 21 5))
          (state_of (handle 3 3 sheet small_layout (SpriteClick 0 0)
            (state_of (handle 3 3 sheet small_layout Mouseup
              (state_of (handle 3 3 sheet small_layout Mousedown
                (state_of (handle 3 3 sheet small_layout (Mousemove (mkPosition 5 5))
                             small)))))))))))))))).

Lemma two_draws_reachable : reachable 3 3 sheet small_layout two_draws.
Proof.
  repeat (apply reachable_handle; [|first [exact I|split; vm_compute; lia]]).
  apply reachable_init.
Qed.

Lemma history_stays_wellformed_witness :
  (reachable 3 3 sheet small_layout two_draws ∧ history two_draws ≠ [])
  ∧ length (history two_draws) = 2%nat
  ∧ 0 ≤ currentHistoryIndex two_draws < Z.of_nat (length (history two_draws))
  ∧ ∀ state, state ∈ history two_draws →
      length state = 9%nat
      ∧ ∃ data, state !! cell 3 1 2 = Some data
                ∧ row data = Some 1 ∧ col data = Some 2.
Proof.
  assert (history two_draws ≠ []) as Hne by (vm_compute; discriminate).
  destruct (history_stays_wellformed 3 3 sheet small_layout two_draws two_draws_reachable)
    as (Hlo & Hhi & Hentries).
  split_and!; [exact two_draws_reachable|exact Hne|reflexivity|exact Hlo|exact (Hhi Hne)|].
  intros state Hstate. destruct (Hentries state Hstate) as [Hlen Hcells].
  split; [exact Hlen|]. apply (Hcells 1%nat 2%nat); lia.
Defined.

Lemma undo_redo_restore_snapshots_witness :
  (reachable 3 3 sheet small_layout two_draws ∧ 0 < currentHistoryIndex two_draws)
  ∧ ∃ u, undo two_draws = Returned u
         ∧ currentHistoryIndex u = currentHistoryIndex two_draws - 1
         ∧ history u = history two_draws
         ∧ index (history two_draws) (currentHistoryIndex two_draws - 1)
           = Some (tileData <$> tiles u).
Proof.
  assert (0 < currentHistoryIndex two_draws) as Hi by reflexivity.
  split; [split; [exact two_draws_reachable|exact Hi]|].
  exact (proj1 (undo_redo_restore_snapshots 3 3 sheet small_layout two_draws
                  two_draws_reachable) Hi).
Defined.

(** After the two draws, [undo] takes the sprite from the tile (0,1) and
    leaves it on the tile (0,0). *)
Example undo_second_draw :
  (sprite_of <$> tiles (state_of (undo two_draws)) !! cell 3 0 0,
   sprite_of <$> tiles (state_of (undo two_draws)) !! cell 3 0 1)
  = (Some ("url(sprites.png)", "-1px -1px"), Some ("", "")).
Proof. reflexivity. Qed.

Lemma import_merges_export_witness :
  let n := update 1 (set_background "url(sprites.png)") small in
  (grid 3 3 (tiles two_drawn) ∧ grid 3 3 (tiles n))
  ∧ ∀ (tile : nat) t, tiles two_drawn !! tile = Some t →
      tiles (loadMapFromFile sheet (createMapJSON two_drawn) n) !! tile
      = imported sheet t <$> tiles n !! tile.
Proof.
  intros n.
  assert (grid 3 3 (tiles two_drawn)) as Hm by (apply drawTiles_grid; apply init_grid).
  assert (grid 3 3 (tiles n)) as Hn by (apply grid_alter; [done|apply init_grid]).
  split; [split; [exact Hm|exact Hn]|].
  exact (import_merges_export 3 3 sheet two_drawn n Hm Hn).
Defined.

Lemma cut_changes_tiles_as_delete_witness :
  selectedTiles two_drawn = [0; 4]%nat
  ∧ tiles (cutSelected two_drawn) = tiles (deleteSelected two_drawn)
  ∧ coppiedTiles (cutSelected two_drawn) = [0; 4]%nat
  ∧ coppiedTileData (cutSelected two_drawn)
    = [mkTileData (Some 0) (Some 0) "url(sprites.png)" "-1px -1px";
       mkTileData (Some 1) (Some 1) "url(sprites.png)" "-1px -1px"]
  ∧ sprite_of <$> tiles (cutSelected two_drawn) !! 4%nat
    = Some ("transparent", "initial").
Proof.
  destruct (cut_changes_tiles_as_delete two_drawn)
    as (Htiles & _ & _ & _ & _ & _ & _ & Hcopied & Hdata).
  split_and!; [reflexivity|exact Htiles|exact Hcopied|exact Hdata|reflexivity].
Defined.

(** A cut and the [Delete] key on the same selection. *)
Example cut_and_delete :
  tiles (cutSelected two_drawn) = tiles (deleteSelected two_drawn)
  ∧ selectedTiles (cutSelected two_drawn) = [0; 4]%nat
  ∧ length (coppiedTileData (cutSelected two_drawn)) = 2%nat
  ∧ coppiedTileData (deleteSelected two_drawn) = [].
Proof. split_and!; vm_compute; reflexivity. Qed.

Lemma drag_path_independent_witness :
  (mouseDown small = false ∧ ctrlDown small = false)
  ∧ ∃ m1 m2,
      drag_via small_layout (mkPosition 5 5) [mkPosition 40 40; mkPosition 3 3]
        (mkPosition 20 20) small = Returned m1
      ∧ drag small_layout (mkPosition 5 5) (mkPosition 20 20) small = Returned m2
      ∧ tiles m1 = tiles m2 ∧ selectedTiles m1 = selectedTiles m2.
Proof.
  split; [split; reflexivity|].
  exact (drag_path_independent small_layout (mkPosition 5 5) (mkPosition 20 20)
           [mkPosition 40 40; mkPosition 3 3] small eq_refl eq_refl).
Defined.


(** The load of a file changes the tile (1,1) and commits nothing: the tiles
    are no longer as the entry at the cursor recorded them. *)
Example load_is_not_committed :
  let m := state_of (handle 3 3 sheet small_layout (FileLoad one_record) two_draws) in
  history m = history two_draws
  ∧ currentHistoryIndex m = currentHistoryIndex two_draws
  ∧ tileData <$> tiles m ≠ tileData <$> tiles two_draws.
Proof.
  split_and!; [vm_compute; reflexivity|vm_compute; reflexivity|].
  intros H. apply (f_equal (λ l, bg <$> l !! 4%nat)) in H. vm_compute in H. discriminate H.
Qed.

(** The two draws, then the load of the file: the tile (1,1) takes the
    sprite of the second record. *)
Local Abbreviation two_draws_and_file :=
  (state_of (handle 3 3 sheet small_layout (FileLoad four_records) two_draws)).

Lemma two_draws_and_file_authored : authored 3 3 sheet small_layout two_draws_and_file.
Proof.
  apply authored_handle; [|exact I|exact four_records_own].
  repeat (apply authored_handle; [|first [exact I|split; vm_compute; lia]|exact I]).
  apply authored_init.
Qed.

Lemma editor_sprites_round_trip_witness :
  authored 3 3 sheet small_layout two_draws_and_file
  ∧ sprite_shown sheet <$> tiles two_draws_and_file
    = [Some "-1px -1px"; Some "-49px -1px"; None;
       None; Some "-49px -1px"; None;
       None; None; None]
  ∧ sprite_shown sheet
      <$> tiles (loadMapFromFile sheet (createMapJSON two_draws_and_file) small)
    = sprite_shown sheet <$> tiles two_draws_and_file.
Proof.
  destruct (editor_sprites_round_trip 3 3 sheet small_layout two_draws_and_file
              two_draws_and_file_authored) as (_ & _ & _ & Hshown).
  split_and!; [exact two_draws_and_file_authored|vm_compute; reflexivity|exact Hshown].
Defined.
